(** * VisibleFunctionUpdater: the trace-to-graph builder

    A shallow embedding of [VisibleFunctionUpdater] (the module that turns
    js-interpreter states into D3 nodes and links), followed by the
    properties of it that the specification states.

    JavaScript objects that the builder shares between its arrays (a call
    node sits in [nodes], in [scopeChain], in the [source]/[target] of links,
    in [rootNode], in [exitingNode] and in the [callerNode] of other nodes)
    live in one store, [heap]; every reference is an index into it, so that
    a mutation through one alias is seen through all of them. *)

From stdpp Require Import base option list strings.
From Stdlib Require Import ZArith Lia.

Set Default Proof Using "Type".

(** ** Outcomes of a JavaScript call *)

(** [TypeError] is the exception JavaScript raises when a property of
    [null] or [undefined] is read.  [BadRef] (a reference outside the store)
    and [OutOfFuel] (a loop that did not stop within its bound) have no
    JavaScript counterpart: they make the embedding total. *)
Inductive Failure := TypeError | BadRef | OutOfFuel.

Inductive Result (A : Type) :=
  | Ok (a : A)
  | Throw (e : Failure).
Arguments Ok {A} a.
Arguments Throw {A} e.

#[global] Instance Result_ret : MRet Result := fun A a => Ok a.
#[global] Instance Result_bind : MBind Result := fun A B f m =>
  match m with
  | Ok a => f a
  | Throw e => Throw e
  end.

(** [o.p] where [o] may be [null]/[undefined]. *)
Definition deref {A} (o : option A) : Result A :=
  match o with
  | Some a => Ok a
  | None => Throw TypeError
  end.

(** ** JavaScript and lodash primitives used by the builder *)

(** [Array.prototype.splice(start, count)] for [start, count >= 0]: the
    array without the items at [start .. start + count - 1] (both ends
    clamped to the length). *)
Definition splice {A} (start count : nat) (l : list A) : list A :=
  take start l ++ drop (start + count) l.
Arguments splice : simpl never.

(** [Array.prototype.pop]: drops the last item, if any. *)
Definition pop {A} (l : list A) : list A := removelast l.
Arguments pop : simpl never.

(** [Array.prototype.indexOf] on names; [None] stands for -1. *)
Fixpoint indexOf (l : list string) (x : string) : option nat :=
  match l with
  | [] => None
  | y :: l' => if String.eqb y x then Some 0 else S <$> indexOf l' x
  end.

(** lodash [includes(collection, target)]; an [undefined] collection
    ([None]) contains nothing. *)
Definition includes (c : option (list string)) (x : option string) : bool :=
  match c, x with
  | Some l, Some s => existsb (String.eqb s) l
  | _, _ => false
  end.

(** [a[i] = v] on an array that may have holes ([None]): writing past the
    end extends the array. *)
Definition array_set {A} (i : nat) (v : A) (a : list (option A)) : list (option A) :=
  if decide (i < length a) then <[i := Some v]> a
  else a ++ replicate (i - length a) None ++ [Some v].

(** Truthiness of a string. *)
Definition truthy (s : string) : bool := negb (String.eqb s "").

(** ** Data model *)

(** A call node is named by its index in the store. *)
Abbreviation NodeId := nat (only parsing).

Inductive NodeType := root | function.
Inductive Status :=
  | normal | success | returning | warning_ | failure | notice | finished
  | empty_status.
Inductive LinkState := calling | returning_.

#[global] Instance NodeType_eq_dec : EqDecision NodeType.
Proof. solve_decision. Defined.
#[global] Instance Status_eq_dec : EqDecision Status.
Proof. solve_decision. Defined.
#[global] Instance LinkState_eq_dec : EqDecision LinkState.
Proof. solve_decision. Defined.

(** The [info] object of a call node. *)
Record NodeInfo := {
  name : string;
  argumentIds : list (option string);
  displayArgs : list string;
  displayName : string;
  callerNode : option NodeId;
  type : NodeType;
  status : Status;
  errorCount : option nat;
  paramIds : option (list string);
  variablesDeclaredInScope : option (list string);
}.

Record CallLink := {
  source : NodeId;
  target : NodeId;
  link_state : LinkState;
  link_linkIndex : nat;
}.

Record Warning := { action_ : string; message : string }.

(** *** The interpreter state read by the builder *)

Record Callee := {
  callee_type : string;
  callee_name : option string;
  (** [callee.id.name], when the callee has an [id] *)
  callee_id : option string;
}.

Inductive Expr :=
  | Identifier (x : string)
  | Literal (raw : string).

Record AstNode := {
  node_type : string;
  callee : option Callee;
  arguments : list Expr;
  (** [node.left.name]; [None] when the target is not an identifier *)
  left_name : option string;
}.

Inductive PrimData :=
  | PNull | PBool (b : bool) | PNum (z : Z) | PStr (s : string).

Record Value := {
  isPrimitive : bool;
  (** [None] is [undefined] *)
  data : option PrimData;
}.

Record Func := {
  nativeFunc : bool;
  (** the names of [func_.node.params] *)
  params : list string;
}.

Record IState := {
  node : AstNode;
  doneCallee_ : bool;
  doneExec : bool;
  doneLeft : bool;
  doneRight : bool;
  value : option Value;
  (** 0 also stands for an absent [n_]: both are falsy and both make
      [displayArgs[n_ - 1]] undefined *)
  n_ : nat;
  (** the keys of [scope.properties], when the state has a scope *)
  scope : option (list string);
  func_ : option Func;
}.

(** *** The closure state of one builder *)

Record Builder := {
  heap : list NodeInfo;
  nodes : list NodeId;
  links : list CallLink;
  state : option IState;
  prevState : option IState;
  scopeChain : list NodeId;
  currentScope : option (list string);
  updatedDisplayArgs : list (option string);
  rootNode : option NodeId;
  linkIndex : nat;
  rootNodeIndex : nat;
  recursion : bool;
  warning : option Warning;
  (** [None] is [null]; [Some None] is [undefined] *)
  assignmentWarningVar : option (option string);
  exitingNode : option NodeId;
}.

(** [VisibleFunctionUpdater(resetNodes, resetLinks)] on empty arrays. *)
Definition initial : Builder := {|
  heap := []; nodes := []; links := [];
  state := None; prevState := None;
  scopeChain := []; currentScope := None; updatedDisplayArgs := [];
  rootNode := None; linkIndex := 0; rootNodeIndex := 0;
  recursion := false; warning := None;
  assignmentWarningVar := None; exitingNode := None;
|}.

(** *** Field updates

    [set_f v b] is [b] after the assignment [f = v]; for a node,
    [with_f v i] is its [info] after [info.f = v]. *)

Definition set_heap (v : list NodeInfo) (b : Builder) : Builder :=
  {| heap := v; nodes := nodes b; links := links b; state := state b;
     prevState := prevState b; scopeChain := scopeChain b;
     currentScope := currentScope b;
     updatedDisplayArgs := updatedDisplayArgs b; rootNode := rootNode b;
     linkIndex := linkIndex b; rootNodeIndex := rootNodeIndex b;
     recursion := recursion b; warning := warning b;
     assignmentWarningVar := assignmentWarningVar b;
     exitingNode := exitingNode b |}.
Definition set_nodes (v : list NodeId) (b : Builder) : Builder :=
  {| heap := heap b; nodes := v; links := links b; state := state b;
     prevState := prevState b; scopeChain := scopeChain b;
     currentScope := currentScope b;
     updatedDisplayArgs := updatedDisplayArgs b; rootNode := rootNode b;
     linkIndex := linkIndex b; rootNodeIndex := rootNodeIndex b;
     recursion := recursion b; warning := warning b;
     assignmentWarningVar := assignmentWarningVar b;
     exitingNode := exitingNode b |}.
Definition set_links (v : list CallLink) (b : Builder) : Builder :=
  {| heap := heap b; nodes := nodes b; links := v; state := state b;
     prevState := prevState b; scopeChain := scopeChain b;
     currentScope := currentScope b;
     updatedDisplayArgs := updatedDisplayArgs b; rootNode := rootNode b;
     linkIndex := linkIndex b; rootNodeIndex := rootNodeIndex b;
     recursion := recursion b; warning := warning b;
     assignmentWarningVar := assignmentWarningVar b;
     exitingNode := exitingNode b |}.
Definition set_state (v : option IState) (b : Builder) : Builder :=
  {| heap := heap b; nodes := nodes b; links := links b; state := v;
     prevState := prevState b; scopeChain := scopeChain b;
     currentScope := currentScope b;
     updatedDisplayArgs := updatedDisplayArgs b; rootNode := rootNode b;
     linkIndex := linkIndex b; rootNodeIndex := rootNodeIndex b;
     recursion := recursion b; warning := warning b;
     assignmentWarningVar := assignmentWarningVar b;
     exitingNode := exitingNode b |}.
Definition set_prevState (v : option IState) (b : Builder) : Builder :=
  {| heap := heap b; nodes := nodes b; links := links b; state := state b;
     prevState := v; scopeChain := scopeChain b;
     currentScope := currentScope b;
     updatedDisplayArgs := updatedDisplayArgs b; rootNode := rootNode b;
     linkIndex := linkIndex b; rootNodeIndex := rootNodeIndex b;
     recursion := recursion b; warning := warning b;
     assignmentWarningVar := assignmentWarningVar b;
     exitingNode := exitingNode b |}.
Definition set_scopeChain (v : list NodeId) (b : Builder) : Builder :=
  {| heap := heap b; nodes := nodes b; links := links b; state := state b;
     prevState := prevState b; scopeChain := v;
     currentScope := currentScope b;
     updatedDisplayArgs := updatedDisplayArgs b; rootNode := rootNode b;
     linkIndex := linkIndex b; rootNodeIndex := rootNodeIndex b;
     recursion := recursion b; warning := warning b;
     assignmentWarningVar := assignmentWarningVar b;
     exitingNode := exitingNode b |}.
Definition set_currentScope (v : option (list string)) (b : Builder) : Builder :=
  {| heap := heap b; nodes := nodes b; links := links b; state := state b;
     prevState := prevState b; scopeChain := scopeChain b; currentScope := v;
     updatedDisplayArgs := updatedDisplayArgs b; rootNode := rootNode b;
     linkIndex := linkIndex b; rootNodeIndex := rootNodeIndex b;
     recursion := recursion b; warning := warning b;
     assignmentWarningVar := assignmentWarningVar b;
     exitingNode := exitingNode b |}.
Definition set_updatedDisplayArgs (v : list (option string)) (b : Builder) : Builder :=
  {| heap := heap b; nodes := nodes b; links := links b; state := state b;
     prevState := prevState b; scopeChain := scopeChain b;
     currentScope := currentScope b; updatedDisplayArgs := v;
     rootNode := rootNode b; linkIndex := linkIndex b;
     rootNodeIndex := rootNodeIndex b; recursion := recursion b;
     warning := warning b; assignmentWarningVar := assignmentWarningVar b;
     exitingNode := exitingNode b |}.
Definition set_rootNode (v : option NodeId) (b : Builder) : Builder :=
  {| heap := heap b; nodes := nodes b; links := links b; state := state b;
     prevState := prevState b; scopeChain := scopeChain b;
     currentScope := currentScope b;
     updatedDisplayArgs := updatedDisplayArgs b; rootNode := v;
     linkIndex := linkIndex b; rootNodeIndex := rootNodeIndex b;
     recursion := recursion b; warning := warning b;
     assignmentWarningVar := assignmentWarningVar b;
     exitingNode := exitingNode b |}.
Definition set_linkIndex (v : nat) (b : Builder) : Builder :=
  {| heap := heap b; nodes := nodes b; links := links b; state := state b;
     prevState := prevState b; scopeChain := scopeChain b;
     currentScope := currentScope b;
     updatedDisplayArgs := updatedDisplayArgs b; rootNode := rootNode b;
     linkIndex := v; rootNodeIndex := rootNodeIndex b;
     recursion := recursion b; warning := warning b;
     assignmentWarningVar := assignmentWarningVar b;
     exitingNode := exitingNode b |}.
Definition set_rootNodeIndex (v : nat) (b : Builder) : Builder :=
  {| heap := heap b; nodes := nodes b; links := links b; state := state b;
     prevState := prevState b; scopeChain := scopeChain b;
     currentScope := currentScope b;
     updatedDisplayArgs := updatedDisplayArgs b; rootNode := rootNode b;
     linkIndex := linkIndex b; rootNodeIndex := v; recursion := recursion b;
     warning := warning b; assignmentWarningVar := assignmentWarningVar b;
     exitingNode := exitingNode b |}.
Definition set_recursion (v : bool) (b : Builder) : Builder :=
  {| heap := heap b; nodes := nodes b; links := links b; state := state b;
     prevState := prevState b; scopeChain := scopeChain b;
     currentScope := currentScope b;
     updatedDisplayArgs := updatedDisplayArgs b; rootNode := rootNode b;
     linkIndex := linkIndex b; rootNodeIndex := rootNodeIndex b;
     recursion := v; warning := warning b;
     assignmentWarningVar := assignmentWarningVar b;
     exitingNode := exitingNode b |}.
Definition set_warning (v : option Warning) (b : Builder) : Builder :=
  {| heap := heap b; nodes := nodes b; links := links b; state := state b;
     prevState := prevState b; scopeChain := scopeChain b;
     currentScope := currentScope b;
     updatedDisplayArgs := updatedDisplayArgs b; rootNode := rootNode b;
     linkIndex := linkIndex b; rootNodeIndex := rootNodeIndex b;
     recursion := recursion b; warning := v;
     assignmentWarningVar := assignmentWarningVar b;
     exitingNode := exitingNode b |}.
Definition set_assignmentWarningVar (v : option (option string)) (b : Builder) : Builder :=
  {| heap := heap b; nodes := nodes b; links := links b; state := state b;
     prevState := prevState b; scopeChain := scopeChain b;
     currentScope := currentScope b;
     updatedDisplayArgs := updatedDisplayArgs b; rootNode := rootNode b;
     linkIndex := linkIndex b; rootNodeIndex := rootNodeIndex b;
     recursion := recursion b; warning := warning b;
     assignmentWarningVar := v; exitingNode := exitingNode b |}.
Definition set_exitingNode (v : option NodeId) (b : Builder) : Builder :=
  {| heap := heap b; nodes := nodes b; links := links b; state := state b;
     prevState := prevState b; scopeChain := scopeChain b;
     currentScope := currentScope b;
     updatedDisplayArgs := updatedDisplayArgs b; rootNode := rootNode b;
     linkIndex := linkIndex b; rootNodeIndex := rootNodeIndex b;
     recursion := recursion b; warning := warning b;
     assignmentWarningVar := assignmentWarningVar b; exitingNode := v |}.
Definition with_displayArgs (v : list string) (i : NodeInfo) : NodeInfo :=
  {| name := name i; argumentIds := argumentIds i; displayArgs := v;
     displayName := displayName i; callerNode := callerNode i; type := type i;
     status := status i; errorCount := errorCount i; paramIds := paramIds i;
     variablesDeclaredInScope := variablesDeclaredInScope i |}.
Definition with_displayName (v : string) (i : NodeInfo) : NodeInfo :=
  {| name := name i; argumentIds := argumentIds i;
     displayArgs := displayArgs i; displayName := v;
     callerNode := callerNode i; type := type i; status := status i;
     errorCount := errorCount i; paramIds := paramIds i;
     variablesDeclaredInScope := variablesDeclaredInScope i |}.
Definition with_status (v : Status) (i : NodeInfo) : NodeInfo :=
  {| name := name i; argumentIds := argumentIds i;
     displayArgs := displayArgs i; displayName := displayName i;
     callerNode := callerNode i; type := type i; status := v;
     errorCount := errorCount i; paramIds := paramIds i;
     variablesDeclaredInScope := variablesDeclaredInScope i |}.
Definition with_errorCount (v : option nat) (i : NodeInfo) : NodeInfo :=
  {| name := name i; argumentIds := argumentIds i;
     displayArgs := displayArgs i; displayName := displayName i;
     callerNode := callerNode i; type := type i; status := status i;
     errorCount := v; paramIds := paramIds i;
     variablesDeclaredInScope := variablesDeclaredInScope i |}.
Definition with_paramIds (v : option (list string)) (i : NodeInfo)
  : NodeInfo :=
  {| name := name i; argumentIds := argumentIds i;
     displayArgs := displayArgs i; displayName := displayName i;
     callerNode := callerNode i; type := type i; status := status i;
     errorCount := errorCount i; paramIds := v;
     variablesDeclaredInScope := variablesDeclaredInScope i |}.
Definition with_variablesDeclaredInScope (v : option (list string)) (i : NodeInfo)
  : NodeInfo :=
  {| name := name i; argumentIds := argumentIds i;
     displayArgs := displayArgs i; displayName := displayName i;
     callerNode := callerNode i; type := type i; status := status i;
     errorCount := errorCount i; paramIds := paramIds i;
     variablesDeclaredInScope := v |}.

(** ** The formatting collaborator

    [formatOutput] is imported from another module; the builder only calls
    these four functions of it. *)
Class FormatOutput := {
  getArgIdentifiers : AstNode -> list (option string);
  getDisplayArgs : AstNode -> list string;
  (** [formatOutput.displayName(name, displayArgs, recursion)] *)
  formatDisplayName : string -> list string -> bool -> string;
  (** [formatOutput.interpreterIdentifier(value, identifier)]; a missing
      second argument is [None] *)
  interpreterIdentifier : option Value -> option string -> string;
}.

(** ** Store access *)

Definition lookup_info (id : NodeId) (b : Builder) : Result NodeInfo :=
  match heap b !! id with
  | Some i => Ok i
  | None => Throw BadRef
  end.

(** [node.info.f = v], written as the change [f] of the [info] object. *)
Definition upd_info (id : NodeId) (f : NodeInfo -> NodeInfo) (b : Builder)
  : Result Builder :=
  i ← lookup_info id b;
  Ok (set_heap (<[id := f i]> (heap b)) b).
Arguments lookup_info : simpl never.
Arguments upd_info : simpl never.

(** [l[n_ - 1]]: undefined when [n_] is 0 (index -1) or past the end. *)
Definition arg_at {A} (l : list A) (n : nat) : option A :=
  match n with
  | 0 => None
  | S k => l !! k
  end.

(** [errorCount++] on an [info] object. *)
Definition incrErrorCount (i : NodeInfo) : NodeInfo :=
  with_errorCount (S <$> errorCount i) i.

(** ** Step classifier *)

Definition isMemberCallee (n : AstNode) : bool :=
  match callee n with
  | Some c => String.eqb (callee_type c) "MemberExpression"
  | None => false
  end.

Definition isSupportedFunctionCall (s : IState) : bool :=
  (String.eqb (node_type (node s)) "CallExpression" && negb (doneCallee_ s))
  && negb (isMemberCallee (node s)).

Definition isSupportedReturnToCaller (s : IState) : bool :=
  (String.eqb (node_type (node s)) "CallExpression" && doneExec s)
  && negb (isMemberCallee (node s)).

(** ** Graph mutator *)

(** [getCallLink(source, target, state)]: the link and the builder after
    [linkIndex++], or no link when an end is missing. *)
Definition getCallLink (src tgt : option NodeId) (ls : LinkState) (b : Builder)
  : option CallLink * Builder :=
  match src, tgt with
  | Some s, Some t =>
      (Some {| source := s; target := t; link_state := ls;
               link_linkIndex := linkIndex b |},
       set_linkIndex (S (linkIndex b)) b)
  | _, _ => (None, b)
  end.

(** [callee.name || callee.id.name] *)
Definition calleeName_of (c : Callee) : Result string :=
  match callee_name c with
  | Some n => if truthy n then Ok n else deref (callee_id c)
  | None => deref (callee_id c)
  end.

(** One round of the [forEach] at lines 115-122: an argument that is one of
    the caller's parameter names becomes the caller's own argument at that
    parameter's index. *)
Definition substituteArg (callerParams : list string)
    (callerArgs : list (option string)) (arg : option string) : option string :=
  match arg with
  | Some a =>
      match indexOf callerParams a with
      | Some callerParamIndex => mjoin (callerArgs !! callerParamIndex)
      | None => arg
      end
  | None => arg
  end.

Section Updater.
Context `{fmt : FormatOutput}.

Definition addEnteringFunction (s : IState) (b : Builder)
  : Result (bool * Builder) :=
  if isSupportedFunctionCall s then
    c ← deref (callee (node s));
    calleeName ← calleeName_of c;
    let caller := last (scopeChain b) in
    let rawIds := getArgIdentifiers (node s) in
    '(rec, argIds) ←
      match caller with
      | Some cid =>
          ci ← lookup_info cid b;
          Ok (String.eqb calleeName (name ci),
              match paramIds ci with
              | Some callerParams =>
                  substituteArg callerParams (argumentIds ci) <$> rawIds
              | None => rawIds
              end)
      | None => Ok (false, rawIds)
      end;
    let dArgs := getDisplayArgs (node s) in
    let first := bool_decide (length (nodes b) = 0) in
    let calleeNode := length (heap b) in
    let info := {|
      name := calleeName;
      argumentIds := argIds;
      displayArgs := dArgs;
      displayName := formatDisplayName calleeName dArgs rec;
      callerNode := caller;
      type := if first then root else function;
      status := if first then success else normal;
      errorCount := if first then Some 0 else None;
      paramIds := None;
      variablesDeclaredInScope := None |} in
    let b := set_recursion rec b in
    let b := set_heap (heap b ++ [info]) b in
    let b := if first then set_rootNode (Some calleeNode) b else b in
    let b := set_nodes (nodes b ++ [calleeNode]) b in
    let '(callLink, b) := getCallLink caller (Some calleeNode) calling b in
    let b := match callLink with
             | Some l => set_links (links b ++ [l]) b
             | None => b
             end in
    Ok (true, set_scopeChain (scopeChain b ++ [calleeNode]) b)
  else Ok (false, b).

Definition isNotExitingRootNode (s : IState) (b : Builder) : Result bool :=
  isFn ←
    (if String.eqb (node_type (node s)) "FunctionExpression" then
       c ← deref (callee (node s));
       idName ← deref (callee_id c);
       r ← deref (rootNode b);
       ri ← lookup_info r b;
       Ok (String.eqb idName (name ri))
     else Ok false);
  if isFn : bool then Ok false
  else
    if String.eqb (node_type (node s)) "CallExpression" then
      c ← deref (callee (node s));
      if String.eqb (callee_type c) "FunctionExpression" then
        idName ← deref (callee_id c);
        r ← deref (rootNode b);
        ri ← lookup_info r b;
        Ok (negb (String.eqb idName (name ri)))
      else Ok true
    else Ok true.

(** The test of line 213-215: a value was returned. *)
Definition returnsValue (s : IState) (v : Value) : bool :=
  (doneCallee_ s && (isPrimitive v && bool_decide (data v <> None)))
  || negb (isPrimitive v).

Definition noReturnWarning : Warning :=
  {| action_ := "Principle: Referential transparency";
     message := "Function does not return a value" |}.

Definition exitLink (s : IState) (exitingLink : CallLink) (b : Builder)
  : Result Builder :=
  v ← deref (value s);
  if returnsValue s v then
    b ← upd_info (target exitingLink) (with_status returning) b;
    let '(returnLink, b) :=
      getCallLink (Some (target exitingLink)) (Some (source exitingLink))
                  returning_ b in
    let b := match returnLink with
             | Some l => set_links (l :: links b) b
             | None => b
             end in
    Ok (set_links (pop (links b)) b)
  else
    r ← deref (rootNode b);
    b ← upd_info r incrErrorCount b;
    b ← upd_info (target exitingLink) (with_status failure) b;
    let b := set_warning (Some noReturnWarning) b in
    b ← (if decide (source exitingLink <> r)
          then upd_info (source exitingLink) (with_status warning_) b
          else upd_info r (with_status empty_status) b);
    Ok (set_links (pop (links b)) b).

Definition exitNode (s : IState) (exiting : option NodeId) (b : Builder)
  : Result Builder :=
  e ← deref exiting;
  ei ← lookup_info e b;
  let originalIdentifier := arg_at (displayArgs ei) (n_ s) in
  let returnValue := interpreterIdentifier (value s) originalIdentifier in
  b ← upd_info e (with_displayName ("return (" +:+ returnValue +:+ ")")) b;
  let b := set_nodes (e :: pop (nodes b)) b in
  Ok (set_rootNodeIndex (S (rootNodeIndex b)) b).

(** Only called when [rootNodeIndex] exceeds the limit (line 180), so both
    differences are those of the integers. *)
Definition removeOldestReturned (maxAllowedReturnNodes : nat) (b : Builder)
  : Builder :=
  let itemsToRemoveCount := rootNodeIndex b - maxAllowedReturnNodes in
  let removalStartIndex := rootNodeIndex b - itemsToRemoveCount in
  let b := if decide (1 < length (nodes b))
           then set_links (splice removalStartIndex itemsToRemoveCount (links b)) b
           else b in
  let b := set_nodes (splice removalStartIndex itemsToRemoveCount (nodes b)) b in
  set_rootNodeIndex (rootNodeIndex b - itemsToRemoveCount) b.

Definition removeExitingFunction (s : IState) (maxAllowedReturnNodes : nat)
    (b : Builder) : Result (bool * Builder) :=
  if isSupportedReturnToCaller s then
    notRoot ← isNotExitingRootNode s b;
    if notRoot : bool then
      b ← match last (links b) with
          | Some link =>
              b ← exitLink s link b;
              let b := set_exitingNode (last (scopeChain b)) b in
              exitNode s (exitingNode b) b
          | None => Ok b
          end;
      let b := set_assignmentWarningVar None b in
      let b := if decide (maxAllowedReturnNodes < rootNodeIndex b)
               then removeOldestReturned maxAllowedReturnNodes b
               else b in
      Ok (true, b)
    else Ok (false, b)
  else Ok (false, b).

(** ** Scope and side-effect analyser *)

Definition getVariablesInScope (s : IState) (updateNode : option NodeId)
    (b : Builder) : Result Builder :=
  match scope s with
  | Some keys =>
      let b := set_updatedDisplayArgs [] b in
      let b := set_currentScope (Some keys) b in
      match updateNode with
      | Some u => upd_info u (with_variablesDeclaredInScope (Some keys)) b
      | None => Ok b
      end
  | None => Ok b
  end.

Definition updateParamsIdsFromCaller (s : IState) (updateNode : option NodeId)
    (b : Builder) : Result Builder :=
  match func_ s with
  | Some f =>
      if negb (nativeFunc f) then
        u ← deref updateNode;
        upd_info u (with_paramIds (Some (params f))) b
      else Ok b
  | None => Ok b
  end.

Definition unassignedWarning : Warning :=
  {| action_ := "Principle: Side effects";
     message := "Function result is not assigned to a value" |}.

Definition isFunctionReturnUnassigned (s : IState) (b : Builder)
  : Result (bool * Builder) :=
  match exitingNode b with
  | Some e =>
      '(conditionMet, b) ←
        (if negb (String.eqb (node_type (node s)) "VariableDeclarator") then
           ei ← lookup_info e b;
           c ← deref (callerNode ei);
           b ← upd_info c (with_status warning_) b;
           r ← deref (rootNode b);
           b ← upd_info r incrErrorCount b;
           Ok (true, set_warning (Some unassignedWarning) b)
         else Ok (false, b));
      Ok (conditionMet, set_exitingNode None b)
  | None => Ok (false, b)
  end.

(** The [while] loop of lines 355-358, started at the frame [cur]: it goes
    on while the name is missing from the frame or the frame has a caller,
    and every round reads [callerNode.callerNode.info].  The result is the
    final [varPresentInScope] and the frame the loop stopped at. *)
Fixpoint scopeWalk (fuel : nat) (h : list NodeInfo) (cur : NodeId)
    (x : option string) : Result (bool * NodeId) :=
  match fuel with
  | 0 => Throw OutOfFuel
  | S fuel' =>
      match h !! cur with
      | None => Throw BadRef
      | Some ci =>
          let varPresentInScope := includes (variablesDeclaredInScope ci) x in
          if negb varPresentInScope || bool_decide (callerNode ci <> None) then
            match callerNode ci with
            | Some next => scopeWalk fuel' h next x
            | None => Throw TypeError
            end
          else Ok (varPresentInScope, cur)
      end
  end.

Definition mutatedWarning : Warning :=
  {| action_ := "Principle: Side effects";
     message := "Function has mutated variable in another scope" |}.
Definition externalWarning : Warning :=
  {| action_ := "Principle: Side effects";
     message := "Function refers to an external variable that does not exist in the scope chain" |}.
Definition immutabilityWarning : Warning :=
  {| action_ := "Principle: Immutability";
     message := "Function has changed a variable in scope after creation" |}.

(** The result [false] also stands for the [undefined] that the function
    returns on a step that is not a completed assignment: line 295 only
    uses its truthiness. *)
Definition isVariableModifiedOutOfScope (s : IState) (updateNode : NodeId)
    (b : Builder) : Result (bool * Builder) :=
  if String.eqb (node_type (node s)) "AssignmentExpression"
     && doneLeft s && doneRight s then
    let assignedExpression := left_name (node s) in
    ui ← lookup_info updateNode b;
    b ←
      (if negb (includes (variablesDeclaredInScope ui) assignedExpression) then
         '(varPresentInScope, caller) ←
           scopeWalk (length (heap b)) (heap b) updateNode assignedExpression;
         r ← deref (rootNode b);
         b ← upd_info r incrErrorCount b;
         if varPresentInScope : bool then
           b ← upd_info updateNode (with_status warning_) b;
           b ← upd_info caller (with_status warning_) b;
           Ok (set_warning (Some mutatedWarning) b)
         else
           b ← upd_info updateNode (with_status failure) b;
           Ok (set_warning (Some externalWarning) b)
       else
         b ← upd_info updateNode (with_status notice) b;
         Ok (set_warning (Some immutabilityWarning) b));
    let conditionMet :=
      bool_decide (assignmentWarningVar b <> Some assignedExpression) in
    Ok (conditionMet, set_assignmentWarningVar (Some assignedExpression) b)
  else Ok (false, b).

(** The [forEach] of lines 412-418, from index [i] on: holes are skipped,
    a truthy entry that differs from [displayArgs[i]] is committed. *)
Fixpoint commitArgs (i : nat) (updated : list (option string))
    (dArgs : list string) : list string * bool :=
  match updated with
  | [] => (dArgs, false)
  | u :: rest =>
      let '(dArgs1, met1) :=
        match u with
        | Some updateArg =>
            if truthy updateArg
               && negb (bool_decide (dArgs !! i = Some updateArg))
            then (<[i := updateArg]> dArgs, true)
            else (dArgs, false)
        | None => (dArgs, false)
        end in
      let '(dArgs2, met2) := commitArgs (S i) rest dArgs1 in
      (dArgs2, met1 || met2)
  end.

Definition doesDisplayNameNeedUpdating (s : IState) (updateNode : NodeId)
    (b : Builder) : Result (bool * Builder) :=
  if doneCallee_ s && negb (doneExec s) then
    b ←
      (match n_ s with
       | S argIndex =>
           ui ← lookup_info updateNode b;
           let identifier := mjoin (argumentIds ui !! argIndex) in
           v ← deref (value s);
           let shown :=
             if isPrimitive v then interpreterIdentifier (value s) None
             else interpreterIdentifier (value s) identifier in
           Ok (set_updatedDisplayArgs
                 (array_set argIndex shown (updatedDisplayArgs b)) b)
       | 0 => Ok b
       end);
    ui ← lookup_info updateNode b;
    if negb (length (displayArgs ui) =? 0)
       && (length (updatedDisplayArgs b) =? length (displayArgs ui)) then
      let '(dArgs, conditionMet) :=
        commitArgs 0 (updatedDisplayArgs b) (displayArgs ui) in
      b ← upd_info updateNode
            (fun i => with_displayName
                        (formatDisplayName (name i) dArgs (recursion b))
                        (with_displayArgs dArgs i)) b;
      Ok (conditionMet, b)
    else Ok (false, b)
  else Ok (false, b).

Definition updateEnteringFunction (s : IState) (b : Builder)
  : Result (bool * Builder) :=
  let updateNode := last (scopeChain b) in
  b ← getVariablesInScope s updateNode b;
  b ← updateParamsIdsFromCaller s updateNode b;
  match updateNode with
  | Some u =>
      '(unassigned, b) ← isFunctionReturnUnassigned s b;
      if unassigned : bool then Ok (true, b)
      else
        '(modified, b) ← isVariableModifiedOutOfScope s u b;
        if modified : bool then Ok (true, b)
        else doesDisplayNameNeedUpdating s u b
  | None => Ok (false, b)
  end.

(** ** The entry points *)

(** [action(interpreter, maxAllowedReturnNodes)]; the interpreter is read
    only through [interpreter.stateStack[0]]. *)
Definition action (top : option IState) (maxAllowedReturnNodes : nat)
    (b : Builder) : Result ((bool * option Warning) * Builder) :=
  let b := set_warning None b in
  let b := set_state top b in
  match state b, prevState b with
  | Some s, Some _ =>
      '(added, b) ← addEnteringFunction s b;
      if added : bool then Ok ((true, warning b), b)
      else
        '(removed, b) ← removeExitingFunction s maxAllowedReturnNodes b;
        if removed : bool then Ok ((true, warning b), b)
        else
          '(updated, b) ← updateEnteringFunction s b;
          Ok ((updated, warning b), b)
  | _, _ => Ok ((false, warning b), b)
  end.

(** [nextStep] *)
Definition setPrevState (b : Builder) : Builder :=
  match state b with
  | Some s => set_prevState (Some s) b
  | None => b
  end.

Definition finish (b : Builder) : Result Builder :=
  r ← deref (rootNode b);
  upd_info r (with_status finished) b.

(** One turn of the driver: [action] on the interpreter's top state, then
    [nextStep]. *)
Definition step (top : option IState) (maxAllowedReturnNodes : nat)
    (b : Builder) : Result Builder :=
  '(_, b) ← action top maxAllowedReturnNodes b;
  Ok (setPrevState b).

(** A whole trace: the top state and the window limit of every turn. *)
Fixpoint run (trace : list (option IState * nat)) (b : Builder)
  : Result Builder :=
  match trace with
  | [] => Ok b
  | (top, maxAllowedReturnNodes) :: rest =>
      b ← step top maxAllowedReturnNodes b;
      run rest b
  end.

End Updater.

(** ** A concrete collaborator and concrete interpreter states

    Used to run the builder on explicit traces. *)
Module Demo.

Definition argIdentifier (e : Expr) : option string :=
  match e with
  | Identifier x => Some x
  | Literal _ => None
  end.

Definition argText (e : Expr) : string :=
  match e with
  | Identifier x => x
  | Literal raw => raw
  end.

#[export] Instance fmt : FormatOutput := {|
  getArgIdentifiers n := argIdentifier <$> arguments n;
  getDisplayArgs n := argText <$> arguments n;
  formatDisplayName nm args rec := nm;
  interpreterIdentifier v id := default "value"%string id;
|}.

(** A call [f(args)] by name. *)
Definition call (f : string) (args : list Expr) : AstNode :=
  {| node_type := "CallExpression";
     callee := Some {| callee_type := "Identifier"; callee_name := Some f;
                       callee_id := None |};
     arguments := args; left_name := None |}.

(** The call [(function f() { ... })()] that wraps the whole program. *)
Definition wrapper (f : string) : AstNode :=
  {| node_type := "CallExpression";
     callee := Some {| callee_type := "FunctionExpression";
                       callee_name := None; callee_id := Some f |};
     arguments := []; left_name := None |}.

Definition assignment (x : string) : AstNode :=
  {| node_type := "AssignmentExpression"; callee := None; arguments := [];
     left_name := Some x |}.

Definition program : AstNode :=
  {| node_type := "Program"; callee := None; arguments := [];
     left_name := None |}.

Definition at_node (n : AstNode) : IState :=
  {| node := n; doneCallee_ := false; doneExec := false; doneLeft := false;
     doneRight := false; value := None; n_ := 0; scope := None;
     func_ := None |}.

(** The state of a call whose callee is about to be resolved. *)
Definition entering (n : AstNode) : IState := at_node n.

(** The state of a call that has finished with the value [v]. *)
Definition exiting (n : AstNode) (v : Value) : IState :=
  {| node := n; doneCallee_ := true; doneExec := true; doneLeft := false;
     doneRight := false; value := Some v; n_ := 0; scope := None;
     func_ := None |}.

(** The state of a completed assignment to [x]. *)
Definition assigned (x : string) : IState :=
  {| node := assignment x; doneCallee_ := false; doneExec := false;
     doneLeft := true; doneRight := true; value := None; n_ := 0;
     scope := None; func_ := None |}.

(** The first state of a function body with local names [keys]. *)
Definition in_scope (keys : list string) : IState :=
  {| node := program; doneCallee_ := false; doneExec := false;
     doneLeft := false; doneRight := false; value := None; n_ := 0;
     scope := Some keys; func_ := None |}.

Definition one : Value := {| isPrimitive := true; data := Some (PNum 1) |}.
Definition undefined : Value := {| isPrimitive := true; data := None |}.

(** [root() -> a()], entered and not yet left. *)
Definition trace_enter_a : list (option IState * nat) :=
  [ (Some (at_node program), 1);
    (Some (entering (wrapper "Program")), 1);
    (Some (entering (call "a" [])), 1) ].

(** [root() -> outer(varA)], inside the body of [function outer(x)]. *)
Definition in_body (keys pars : list string) : IState :=
  {| node := program; doneCallee_ := false; doneExec := false;
     doneLeft := false; doneRight := false; value := None; n_ := 0;
     scope := Some keys;
     func_ := Some {| nativeFunc := false; params := pars |} |}.

Definition trace_in_outer : list (option IState * nat) :=
  [ (Some (at_node program), 1);
    (Some (entering (wrapper "Program")), 1);
    (Some (entering (call "outer" [Identifier "varA"])), 1);
    (Some (in_body ["x"] ["x"]), 1) ].

Definition in_outer : Builder :=
  Eval vm_compute in
    match run trace_in_outer initial with
    | Ok b => b
    | Throw _ => initial
    end.

(** [root() -> a()], entered and not yet left; the only link is the
    calling link [root -> a]. *)
Definition in_a : Builder :=
  Eval vm_compute in
    match run trace_enter_a initial with
    | Ok b => b
    | Throw _ => initial
    end.


(** The root frame declares [x] and [y]. *)
Definition trace_root_scope : list (option IState * nat) :=
  [ (Some (at_node program), 1);
    (Some (entering (wrapper "Program")), 1);
    (Some (in_scope ["x"; "y"]), 1) ].

Definition in_root_scope : Builder :=
  Eval vm_compute in
    match run trace_root_scope initial with
    | Ok b => b
    | Throw _ => initial
    end.

(** [root() -> a()]; [a] declares [x] and has just returned 1. *)
Definition trace_a_returned : list (option IState * nat) :=
  [ (Some (at_node program), 1);
    (Some (entering (wrapper "Program")), 1);
    (Some (entering (call "a" [])), 1);
    (Some (in_scope ["x"]), 1);
    (Some (exiting (call "a" []) one), 1) ].

Definition a_returned : Builder :=
  Eval vm_compute in
    match run trace_a_returned initial with
    | Ok b => b
    | Throw _ => initial
    end.

(** [root() -> a() -> b()]: [a] declares [x], the root and [b] do not. *)
Definition trace_in_b : list (option IState * nat) :=
  [ (Some (at_node program), 1);
    (Some (entering (wrapper "Program")), 1);
    (Some (in_scope ["main"]), 1);
    (Some (entering (call "a" [])), 1);
    (Some (in_scope ["x"]), 1);
    (Some (entering (call "b" [])), 1);
    (Some (in_scope ["t"]), 1) ].

Definition in_b : Builder :=
  Eval vm_compute in
    match run trace_in_b initial with
    | Ok b => b
    | Throw _ => initial
    end.

(** [root() -> a()], and [a] returns nothing. *)
Definition trace_a_no_value : list (option IState * nat) :=
  trace_enter_a ++ [ (Some (exiting (call "a" []) undefined), 1) ].

(** [root() -> a() -> b()]; [b] returns 1, then [a] returns 1. *)
Definition trace_nested_returns : list (option IState * nat) :=
  [ (Some (at_node program), 5);
    (Some (entering (wrapper "Program")), 5);
    (Some (entering (call "a" [])), 5);
    (Some (entering (call "b" [])), 5);
    (Some (exiting (call "b" []) one), 5);
    (Some (exiting (call "a" []) one), 5) ].

End Demo.

(** ** Predicates used in the statements *)

(** The step is a completed assignment to the identifier [x]
    (lines 349-351). *)
Definition completed_assignment (s : IState) (x : string) : Prop :=
  node_type (node s) = "AssignmentExpression"
  /\ doneLeft s = true /\ doneRight s = true
  /\ left_name (node s) = Some x.

(** The three checks of [updateEnteringFunction] as the specification words
    them: every check is run for its effects, and the flag is the
    disjunction of their results. *)
Definition spec_updateEnteringFunction `{fmt : FormatOutput} (s : IState)
    (b : Builder) : Result (bool * Builder) :=
  let updateNode := last (scopeChain b) in
  b ← getVariablesInScope s updateNode b;
  b ← updateParamsIdsFromCaller s updateNode b;
  match updateNode with
  | Some u =>
      '(unassigned, b) ← isFunctionReturnUnassigned s b;
      '(modified, b) ← isVariableModifiedOutOfScope s u b;
      '(renamed, b) ← doesDisplayNameNeedUpdating s u b;
      Ok (unassigned || modified || renamed, b)
  | None => Ok (false, b)
  end.

(** *** What a step may not change *)

(** The fields of a node that are fixed when it is created. *)
Definition static (i i' : NodeInfo) : Prop :=
  name i' = name i /\ type i' = type i /\ callerNode i' = callerNode i.

(** The same nodes, with the same fixed fields. *)
Definition heap_static (h h' : list NodeInfo) : Prop := Forall2 static h h'.

(** A step that neither adds, removes nor moves a node or a link, and
    does not mark a new node as just returned. *)
Definition graph_frame (b b' : Builder) : Prop :=
  nodes b' = nodes b /\ links b' = links b
  /\ scopeChain b' = scopeChain b /\ rootNode b' = rootNode b
  /\ rootNodeIndex b' = rootNodeIndex b /\ linkIndex b' = linkIndex b
  /\ state b' = state b /\ prevState b' = prevState b
  /\ (forall e, exitingNode b' = Some e -> exitingNode b = Some e)
  /\ heap_static (heap b) (heap b').

(** *** Depth-first traces *)

(** The call of the step is the wrapper of the whole program, named
    [rootName] (the test of lines 202-204). *)
Definition exitsRoot (rootName : string) (s : IState) : bool :=
  match callee (node s) with
  | Some c =>
      String.eqb (callee_type c) "FunctionExpression"
      && bool_decide (callee_id c = Some rootName)
  | None => false
  end.

(** The name under which the call of the step is entered. *)
Definition enteredName (s : IState) : option string :=
  match callee (node s) with
  | Some c =>
      match calleeName_of c with
      | Ok n => Some n
      | Throw _ => None
      end
  | None => None
  end.

(** The open calls of a trace: [None] before the first entry, then the
    name of the first call entered (the root) and the number of calls
    entered after it and not yet left. *)
Definition Frames : Type := option (string * nat).

(** A trace is balanced when every exit, other than that of the program
    wrapper, answers a call entered after the root and still open: the
    depth-first order that the driver owes the builder.  [recorded] tells
    whether a previous state has been recorded, since [action] ignores the
    states before that. *)
Fixpoint balanced (recorded : bool) (g : Frames)
    (trace : list (option IState * nat)) : bool :=
  match trace with
  | [] => true
  | (None, _) :: rest => balanced recorded g rest
  | (Some s, _) :: rest =>
      if recorded then
        if isSupportedFunctionCall s then
          match g with
          | None =>
              match enteredName s with
              | Some rootName => balanced true (Some (rootName, 0)) rest
              | None => false
              end
          | Some (rootName, k) => balanced true (Some (rootName, S k)) rest
          end
        else if isSupportedReturnToCaller s then
          match g with
          | None => false
          | Some (rootName, k) =>
              if exitsRoot rootName s then balanced true g rest
              else
                match k with
                | 0 => false
                | S k' => balanced true (Some (rootName, k')) rest
                end
          end
        else balanced true g rest
      else balanced true g rest
  end.

(** Every call that the trace leaves has returned a value. *)
Definition returnedValue (s : IState) : bool :=
  if isSupportedReturnToCaller s then
    match value s with
    | Some v => returnsValue s v
    | None => false
    end
  else true.

Definition valued (trace : list (option IState * nat)) : bool :=
  forallb (fun turn => match fst turn with
                       | Some s => returnedValue s
                       | None => true
                       end) trace.

(** [links.length === nodes.length - 1] *)
Definition count_relation (b : Builder) : Prop :=
  length (links b) + 1 = length (nodes b).

(** Exactly one node has type [root]: the first one created; it is the
    builder's [rootNode] and it is in the node list. *)
Definition root_unique (b : Builder) : Prop :=
  exists ri,
    heap b !! 0 = Some ri /\ type ri = root
    /\ (forall i info, heap b !! i = Some info -> type info = root -> i = 0)
    /\ rootNode b = Some 0
    /\ 0 ∈ nodes b.

(** The root is node 0, named [rootName], and no other node has type
    [root]. *)
Definition root_heap (rootName : string) (b : Builder) : Prop :=
  rootNode b = Some 0
  /\ (exists ri, heap b !! 0 = Some ri /\ name ri = rootName
                 /\ type ri = root)
  /\ (forall i info, heap b !! i = Some info -> type info = root -> i = 0).

(** What the builder keeps true along a balanced trace with open calls
    [g]: nothing exists before the first entry; afterwards the root sits in
    the node list at index [rootNodeIndex], and is followed there by at
    least as many nodes as calls are open. *)
Definition Inv (g : Frames) (b : Builder) : Prop :=
  match g with
  | None =>
      heap b = [] /\ nodes b = [] /\ links b = [] /\ scopeChain b = []
      /\ rootNode b = None /\ rootNodeIndex b = 0
  | Some (rootName, k) =>
      root_heap rootName b
      /\ nodes b !! rootNodeIndex b = Some 0
      /\ rootNodeIndex b + 1 + k <= length (nodes b)
      /\ scopeChain b <> []
  end.

(** [prevState] is set. *)
Definition has_prev (b : Builder) : bool :=
  match prevState b with
  | Some _ => true
  | None => false
  end.

(** The count relation, once the first call has been entered. *)
Definition count_inv (g : Frames) (b : Builder) : Prop :=
  match g with
  | None => True
  | Some _ => count_relation b
  end.

(** Every link of the list was numbered before the current value of the
    link counter. *)
Definition links_below_counter (b : Builder) : Prop :=
  Forall (fun k => link_linkIndex k < linkIndex b) (links b).

(** In the store [h] every [callerNode] was created before the node that
    refers to it. *)
Definition callers_older (h : list NodeInfo) : Prop :=
  forall i info c, h !! i = Some info -> callerNode info = Some c -> c < i.

(** Every reference that the builder may follow is in the store, and
    callers are older than their callees. *)
Definition refs_ok (b : Builder) : Prop :=
  Forall (fun n => n < length (heap b)) (scopeChain b)
  /\ Forall (fun l => source l < length (heap b) /\ target l < length (heap b))
            (links b)
  /\ (forall r, rootNode b = Some r -> r < length (heap b))
  /\ (forall e, exitingNode b = Some e -> e < length (heap b))
  /\ callers_older (heap b).

(** ** The remaining entry point and further predicates *)

(** [getRepresentedNode] *)
Definition getRepresentedNode (b : Builder) : Result AstNode :=
  p ← deref (prevState b);
  if String.eqb (node_type (node p)) "ReturnStatement" then Ok (node p)
  else
    s ← deref (state b);
    Ok (node s).

(** Every link joins two different nodes. *)
Definition links_distinct (b : Builder) : Prop :=
  Forall (fun l => source l <> target l) (links b).

(** No two links carry the same number. *)
Definition links_unique (b : Builder) : Prop :=
  NoDup (link_linkIndex <$> links b).

(** The node created just before node [i], if any. *)
Definition previous (i : nat) : option nat :=
  match i with
  | 0 => None
  | S k => Some k
  end.

(** The scope chain holds every node ever created, in the order of
    creation, and the caller of a node is the node created just before
    it. *)
Definition creation_order (b : Builder) : Prop :=
  scopeChain b = seq 0 (length (heap b))
  /\ forall i info, heap b !! i = Some info -> callerNode info = previous i.

(** The limits of a trace are at most [M]. *)
Definition limits_below (M : nat) (trace : list (option IState * nat)) : Prop :=
  Forall (fun turn => snd turn <= M) trace.

(** The error count of a node has not decreased, and is present exactly
    when it was. *)
Definition count_le (i i' : NodeInfo) : Prop :=
  match errorCount i, errorCount i' with
  | Some n, Some n' => n <= n'
  | None, None => True
  | _, _ => False
  end.

(** Every node of [h] is still in [h'], at the same index, with an error
    count that has not decreased. *)
Definition counts_grow (h h' : list NodeInfo) : Prop :=
  forall i info, h !! i = Some info ->
    exists info', h' !! i = Some info' /\ count_le info info'.

(** ** Further interpreter states *)

Module Steps.

(** A call through a member expression, such as [console.log(...)]. *)
Definition member_call : AstNode :=
  {| node_type := "CallExpression";
     callee := Some {| callee_type := "MemberExpression";
                       callee_name := None; callee_id := None |};
     arguments := []; left_name := None |}.

Definition return_statement : AstNode :=
  {| node_type := "ReturnStatement"; callee := None; arguments := [];
     left_name := None |}.

(** The state of the call [n] while its arguments are evaluated: the
    callee is resolved, [k] arguments are done and the last has the value
    [v]. *)
Definition evaluating (n : AstNode) (k : nat) (v : Value) : IState :=
  {| node := n; doneCallee_ := true; doneExec := false; doneLeft := false;
     doneRight := false; value := Some v; n_ := k; scope := None;
     func_ := None |}.

Definition two : Value := {| isPrimitive := true; data := Some (PNum 2) |}.

(** [root() -> a()], stopped on the [return] statement of [a]. *)
Definition trace_at_return : list (option IState * nat) :=
  Demo.trace_enter_a ++ [ (Some (Demo.at_node return_statement), 1) ].

(** [root() -> a()]: the root declares [x], [a] declares [t]. *)
Definition trace_in_a_scoped : list (option IState * nat) :=
  [ (Some (Demo.at_node Demo.program), 1);
    (Some (Demo.entering (Demo.wrapper "Program")), 1);
    (Some (Demo.in_scope ["x"]), 1);
    (Some (Demo.entering (Demo.call "a" [])), 1);
    (Some (Demo.in_scope ["t"]), 1) ].

End Steps.

(** Exactly the nodes of type [root] carry an error count, and the root
    of the builder, once set, is such a node. *)
Definition counted (b : Builder) : Prop :=
  (forall i info,
     heap b !! i = Some info ->
     (type info = root <-> errorCount info <> None))
  /\ (forall r, rootNode b = Some r ->
        exists ri, heap b !! r = Some ri /\ type ri = root).

(** In the link list no calling link comes before a returning one. *)
Fixpoint returning_first (ls : list CallLink) : Prop :=
  match ls with
  | [] => True
  | l :: rest =>
      (link_state l = calling ->
       Forall (fun l' => link_state l' = calling) rest)
      /\ returning_first rest
  end.

(** ** Exit steps on concrete traces *)

Module Returns.

(** [root() -> a() -> b()], and [b] returns nothing; at most [limit]
    returned nodes are retained. *)
Definition b_returns_nothing (limit : nat) : list (option IState * nat) :=
  [ (Some (Demo.at_node Demo.program), limit);
    (Some (Demo.entering (Demo.wrapper "Program")), limit);
    (Some (Demo.entering (Demo.call "a" [])), limit);
    (Some (Demo.entering (Demo.call "b" [])), limit);
    (Some (Demo.exiting (Demo.call "b" []) Demo.undefined), limit) ].

(** The step after it: [a] returns nothing too. *)
Definition exit_a_no_value : IState :=
  Demo.exiting (Demo.call "a" []) Demo.undefined.



End Returns.

(** *** Assignment steps *)

(** The state of a completed assignment to [x], as the interpreter
    presents it: it carries no scope and no function, and its
    [doneCallee_] flag is not set. *)
Definition assignment_state (s : IState) (x : string) : Prop :=
  completed_assignment s x
  /\ scope s = None /\ func_ s = None /\ doneCallee_ s = false.

(** The name [x] is declared where the check finds it from the frame
    [u]: in [u] itself or in the first node, the root. *)
Definition declared_for (b : Builder) (u : NodeId) (x : string) : Prop :=
  exists ui ri,
    heap b !! u = Some ui /\ heap b !! 0 = Some ri
    /\ (includes (variablesDeclaredInScope ui) (Some x) = true
        \/ includes (variablesDeclaredInScope ri) (Some x) = true).

(** The builder is between two steps inside the frame [u], with no
    returned node waiting for the unassigned-return check. *)
Definition assignment_ready (b : Builder) (u : NodeId) : Prop :=
  creation_order b /\ rootNode b = Some 0 /\ prevState b <> None
  /\ last (scopeChain b) = Some u /\ exitingNode b = None.

(** Every node of [h] is still in [h'], at the same index, with the same
    declared variables. *)
Definition same_declared (h h' : list NodeInfo) : Prop :=
  forall i info, h !! i = Some info ->
    exists info', h' !! i = Some info'
      /\ variablesDeclaredInScope info' = variablesDeclaredInScope info.

(** ** Reasoning about outcomes *)

Lemma bind_Ok {A B} (m : Result A) (f : A -> Result B) (r : B) :
  m ≫= f = Ok r -> exists a, m = Ok a /\ f a = Ok r.
Proof. destruct m as [a|e]; simpl; [eauto | discriminate]. Qed.

Lemma deref_Ok {A} (o : option A) (a : A) : deref o = Ok a -> o = Some a.
Proof. destruct o; simpl; congruence. Qed.

Lemma lookup_info_Ok id b i : lookup_info id b = Ok i -> heap b !! id = Some i.
Proof. unfold lookup_info. destruct (heap b !! id); congruence. Qed.

Lemma lookup_info_Some id b i : heap b !! id = Some i -> lookup_info id b = Ok i.
Proof. unfold lookup_info. intros ->. reflexivity. Qed.

Lemma upd_info_Ok id f b b' :
  upd_info id f b = Ok b' ->
  exists i, heap b !! id = Some i /\ b' = set_heap (<[id := f i]> (heap b)) b.
Proof.
  unfold upd_info. intros Hb. apply bind_Ok in Hb as (i & Hi & Hb).
  apply lookup_info_Ok in Hi. exists i. split; [assumption | congruence].
Qed.

Lemma upd_info_Some id f b i :
  heap b !! id = Some i ->
  upd_info id f b = Ok (set_heap (<[id := f i]> (heap b)) b).
Proof. unfold upd_info. intros Hi. rewrite (lookup_info_Some _ _ _ Hi). reflexivity. Qed.

(** Splits [H : (x ← m; k) = Ok r] into the outcome of [m] and of [k]. *)
Ltac bind_inv H :=
  let a := fresh "a" in
  let Ha := fresh "Ha" in
  apply bind_Ok in H as (a & Ha & H).

Section Properties.
Context `{fmt : FormatOutput}.

(** ** The first call of [action] *)

(** C10: while no previous state has been recorded ([prevState] is still
    unset, as on the first call) or the interpreter has no current state,
    [action] returns [false, null] and leaves the node list, the link
    list, the scope chain, the store of nodes and every counter as they
    were; only [state] is recorded (and [warning] cleared). *)
Theorem C10_first_action_changes_nothing top maxAllowedReturnNodes b :
  prevState b = None \/ top = None ->
  exists b',
    action top maxAllowedReturnNodes b = Ok ((false, None), b')
    /\ b' = set_state top (set_warning None b)
    /\ heap b' = heap b /\ nodes b' = nodes b /\ links b' = links b
    /\ scopeChain b' = scopeChain b
    /\ linkIndex b' = linkIndex b /\ rootNodeIndex b' = rootNodeIndex b
    /\ rootNode b' = rootNode b /\ exitingNode b' = exitingNode b
    /\ assignmentWarningVar b' = assignmentWarningVar b.
Proof.
  intros Hskip. eexists. split; [|repeat split].
  unfold action. cbn [state set_state prevState set_warning].
  destruct Hskip as [-> | ->]; [destruct top|]; reflexivity.
Qed.

End Properties.

Lemma C10_first_action_changes_nothing_witness :
  action (fmt := Demo.fmt)
    (Some (Demo.entering (Demo.wrapper "Program"))) 1 initial
  = Ok ((false, None),
        set_state (Some (Demo.entering (Demo.wrapper "Program")))
                  (set_warning None initial)).
Proof.
  destruct (C10_first_action_changes_nothing (fmt := Demo.fmt)
              (Some (Demo.entering (Demo.wrapper "Program"))) 1 initial
              (or_introl eq_refl)) as (b' & Hact & -> & _).
  exact Hact.
Defined.

(** The concrete builders are the results of their traces. *)
Example demo_builders_reached :
  run (fmt := Demo.fmt) Demo.trace_enter_a initial = Ok Demo.in_a
  /\ run (fmt := Demo.fmt) Demo.trace_in_outer initial = Ok Demo.in_outer
  /\ run (fmt := Demo.fmt) Demo.trace_root_scope initial
     = Ok Demo.in_root_scope
  /\ run (fmt := Demo.fmt) Demo.trace_a_returned initial
     = Ok Demo.a_returned
  /\ run (fmt := Demo.fmt) Demo.trace_in_b initial = Ok Demo.in_b.
Proof. repeat split; vm_compute; reflexivity. Qed.

(** ** Argument provenance on entry *)

Lemma indexOf_Some l x k :
  indexOf l x = Some k ->
  l !! k = Some x /\ forall j, j < k -> l !! j <> Some x.
Proof.
  revert k. induction l as [|y l IH]; intros k; simpl; [discriminate|].
  destruct (String.eqb_spec y x) as [->|Hne].
  - intros [= <-]. split; [reflexivity | lia].
  - destruct (indexOf l x) as [k'|] eqn:Hk; simpl; [|discriminate].
    intros [= <-]. destruct (IH k' eq_refl) as [Hlk Hmin].
    split; [exact Hlk|].
    intros [|j] Hj; simpl; [congruence | apply Hmin; lia].
Qed.

Lemma indexOf_first l x k :
  l !! k = Some x -> (forall j, j < k -> l !! j <> Some x) ->
  indexOf l x = Some k.
Proof.
  revert k. induction l as [|y l IH]; intros k Hk Hmin; [discriminate|].
  simpl. destruct k as [|k]; simpl in Hk.
  - injection Hk as ->. rewrite String.eqb_refl. reflexivity.
  - destruct (String.eqb_spec y x) as [->|Hne].
    + exfalso. apply (Hmin 0); [lia | reflexivity].
    + rewrite (IH k Hk); [reflexivity|].
      intros j Hj. apply (Hmin (S j)). lia.
Qed.

Lemma indexOf_None l x : x ∉ l -> indexOf l x = None.
Proof.
  induction l as [|y l IH]; intros Hnin; simpl; [reflexivity|].
  destruct (String.eqb_spec y x) as [->|Hne].
  - exfalso. apply Hnin. left.
  - rewrite IH; [reflexivity|]. intros Hin. apply Hnin. right. exact Hin.
Qed.

Section Entry.
Context `{fmt : FormatOutput}.

(** What [addEnteringFunction] does on a supported call whose caller (the
    top of the scope chain) has recorded parameter names. *)
Lemma addEnteringFunction_with_params s b sc c ci callerParams cal calleeName :
  isSupportedFunctionCall s = true ->
  callee (node s) = Some cal ->
  calleeName_of cal = Ok calleeName ->
  scopeChain b = sc ++ [c] ->
  heap b !! c = Some ci ->
  paramIds ci = Some callerParams ->
  exists b' info,
    addEnteringFunction s b = Ok (true, b')
    /\ heap b' = heap b ++ [info]
    /\ nodes b' = nodes b ++ [length (heap b)]
    /\ scopeChain b' = scopeChain b ++ [length (heap b)]
    /\ name info = calleeName
    /\ callerNode info = Some c
    /\ argumentIds info
       = substituteArg callerParams (argumentIds ci)
           <$> getArgIdentifiers (node s).
Proof.
  intros Hsup Hcal Hname Hsc Hci Hps.
  unfold addEnteringFunction. rewrite Hsup, Hcal. simpl. rewrite Hname. simpl.
  rewrite Hsc, last_snoc. rewrite (lookup_info_Some _ _ _ Hci). simpl.
  rewrite Hps. simpl.
  destruct (bool_decide (length (nodes b) = 0)); simpl;
    eexists _, _; (split; [reflexivity|]); simpl; rewrite ?Hsc; repeat split.
Qed.

(** C6: on a function-entry step whose caller node has recorded parameter
    names, every raw argument identifier that is one of the caller's
    parameter names is replaced, in the new node's [argumentIds], by the
    caller's own argument identifier at that parameter's index (the first
    index at which the name occurs); the other arguments are kept.  In
    particular, with caller [paramIds = [x]] and [argumentIds = [varA]], a
    nested call passing [x] gets [argumentIds = [varA]]. *)
Theorem C6_argument_provenance s b sc c ci callerParams cal calleeName :
  isSupportedFunctionCall s = true ->
  callee (node s) = Some cal ->
  calleeName_of cal = Ok calleeName ->
  scopeChain b = sc ++ [c] ->
  heap b !! c = Some ci ->
  paramIds ci = Some callerParams ->
  exists b' info,
    addEnteringFunction s b = Ok (true, b')
    /\ heap b' !! length (heap b) = Some info
    /\ last (nodes b') = Some (length (heap b))
    /\ callerNode info = Some c
    /\ length (argumentIds info) = length (getArgIdentifiers (node s))
    /\ (forall i x k,
          getArgIdentifiers (node s) !! i = Some (Some x) ->
          callerParams !! k = Some x ->
          (forall j, j < k -> callerParams !! j <> Some x) ->
          argumentIds info !! i = Some (mjoin (argumentIds ci !! k)))
    /\ (forall i arg,
          getArgIdentifiers (node s) !! i = Some arg ->
          (forall x, arg = Some x -> x ∉ callerParams) ->
          argumentIds info !! i = Some arg)
    /\ (forall x varA,
          callerParams = [x] -> argumentIds ci = [varA] ->
          getArgIdentifiers (node s) = [Some x] ->
          argumentIds info = [varA]).
Proof.
  intros Hsup Hcal Hname Hsc Hci Hps.
  destruct (addEnteringFunction_with_params s b sc c ci callerParams cal
              calleeName Hsup Hcal Hname Hsc Hci Hps)
    as (b' & info & Hadd & Hheap & Hnodes & _ & _ & Hcaller & Hargs).
  exists b', info. split; [exact Hadd|].
  split; [rewrite Hheap; apply list_lookup_middle; reflexivity|].
  split; [rewrite Hnodes; apply last_snoc|].
  split; [exact Hcaller|].
  split; [rewrite Hargs; apply length_fmap|].
  split; [|split].
  - intros i x k Hi Hk Hmin. rewrite Hargs, list_lookup_fmap, Hi. simpl.
    rewrite (indexOf_first _ _ _ Hk Hmin). reflexivity.
  - intros i arg Hi Hnin. rewrite Hargs, list_lookup_fmap, Hi. simpl.
    destruct arg as [x|]; simpl; [|reflexivity].
    rewrite (indexOf_None callerParams x); [reflexivity | apply Hnin; reflexivity].
  - intros x varA -> Hca Hraw. rewrite Hargs, Hraw, Hca. simpl.
    rewrite String.eqb_refl. reflexivity.
Qed.

End Entry.

Lemma C6_argument_provenance_witness :
  exists b' info,
    addEnteringFunction (fmt := Demo.fmt)
      (Demo.entering (Demo.call "inner" [Identifier "x"])) Demo.in_outer
    = Ok (true, b')
    /\ heap b' !! 2 = Some info
    /\ argumentIds info = [Some "varA"].
Proof.
  destruct (C6_argument_provenance (fmt := Demo.fmt)
              (Demo.entering (Demo.call "inner" [Identifier "x"]))
              Demo.in_outer [0] 1
              {| name := "outer"; argumentIds := [Some "varA"];
                 displayArgs := ["varA"]; displayName := "outer";
                 callerNode := Some 0; type := function; status := normal;
                 errorCount := None; paramIds := Some ["x"];
                 variablesDeclaredInScope := Some ["x"] |}
              ["x"]
              {| callee_type := "Identifier"; callee_name := Some "inner";
                 callee_id := None |}
              "inner"
              eq_refl eq_refl eq_refl eq_refl eq_refl eq_refl)
    as (b' & info & Hadd & Hinfo & _ & _ & _ & _ & _ & Hex).
  exists b', info. split; [exact Hadd|]. split; [exact Hinfo|].
  apply (Hex "x" (Some "varA")); reflexivity.
Defined.

(** ** Leaving a call: the link *)

Lemma pop_snoc {A} (l : list A) (x : A) : pop (l ++ [x]) = l.
Proof. apply removelast_last. Qed.

Lemma pop_cons_snoc {A} (y : A) (l : list A) (x : A) :
  pop (y :: l ++ [x]) = y :: l.
Proof. apply (pop_snoc (y :: l) x). Qed.

Lemma length_pop {A} (l : list A) : length (pop l) = length l - 1.
Proof.
  destruct l as [|x l] using rev_ind; [reflexivity|].
  rewrite pop_snoc, length_app. simpl. lia.
Qed.

Section ExitLink.
Context `{fmt : FormatOutput}.


(** When no usable value was produced (the value is primitive and its
    data is [undefined]), [exitLink] marks the target of the link
    [failure], adds one to the root's [errorCount], sets the status of the
    source (the caller) to [warning] unless the caller is the root, whose
    status is then cleared to the empty string, records the referential
    transparency warning, and removes the last link without making a
    reversed one: the list loses exactly that link and the link counter
    is not advanced. *)
Lemma exitLink_no_value s v l ls b r ri ti si :
  value s = Some v ->
  isPrimitive v = true ->
  data v = None ->
  links b = ls ++ [l] ->
  rootNode b = Some r ->
  heap b !! r = Some ri ->
  heap b !! target l = Some ti ->
  heap b !! source l = Some si ->
  target l <> source l ->
  exists b' ri' ti' si',
    exitLink s l b = Ok b'
    /\ heap b' !! r = Some ri'
    /\ heap b' !! target l = Some ti'
    /\ heap b' !! source l = Some si'
    /\ status ti' = failure
    /\ errorCount ri' = S <$> errorCount ri
    /\ (source l <> r -> status si' = warning_)
    /\ (source l = r -> status ri' = empty_status)
    /\ warning b' = Some noReturnWarning
    /\ links b' = ls
    /\ linkIndex b' = linkIndex b
    /\ length (heap b') = length (heap b)
    /\ nodes b' = nodes b /\ scopeChain b' = scopeChain b.
Proof.
  intros Hv Hprim Hdata Hlinks Hroot Hr Hti Hsi Hne.
  assert (Hlt_r := lookup_lt_Some _ _ _ Hr).
  assert (Hlt_t := lookup_lt_Some _ _ _ Hti).
  assert (Hlt_s := lookup_lt_Some _ _ _ Hsi).
  unfold exitLink. rewrite Hv. simpl.
  unfold returnsValue. rewrite Hprim, Hdata. simpl.
  rewrite andb_false_r. simpl. rewrite Hroot. simpl.
  rewrite (upd_info_Some _ _ _ _ Hr). simpl.
  set (h1 := <[r := incrErrorCount ri]> (heap b)).
  assert (exists t1, h1 !! target l = Some t1 /\
            (target l = r -> t1 = incrErrorCount ri) /\
            (target l <> r -> t1 = ti)) as (t1 & Ht1 & Ht1r & Ht1n).
  { unfold h1. destruct (decide (target l = r)) as [->|Htr].
    - exists (incrErrorCount ri). rewrite list_lookup_insert_eq by lia.
      split; [reflexivity|]. split; [reflexivity | congruence].
    - exists ti. rewrite list_lookup_insert_ne by congruence.
      split; [exact Hti|]. split; [congruence | reflexivity]. }
  rewrite (upd_info_Some (target l) _ (set_heap h1 b) t1 Ht1). simpl.
  fold h1. set (h2 := <[target l := with_status failure t1]> h1).
  assert (length h1 = length (heap b)) as Hlen1
    by (unfold h1; apply length_insert).
  assert (length h2 = length (heap b)) as Hlen2
    by (unfold h2; rewrite length_insert; exact Hlen1).
  assert (h2 !! target l = Some (with_status failure t1)) as Ht2
    by (unfold h2; apply list_lookup_insert_eq; lia).
  destruct (decide (source l <> r)) as [Hsr|Hsr].
  - assert (h2 !! source l = Some si) as Hs2.
    { unfold h2, h1. rewrite !list_lookup_insert_ne by congruence. exact Hsi. }
    rewrite (upd_info_Some (source l) _
               (set_warning (Some noReturnWarning) (set_heap h2 b)) si Hs2).
    simpl. rewrite Hlinks, pop_snoc. fold h2.
    set (h3 := <[source l := with_status warning_ si]> h2).
    assert (h3 !! source l = Some (with_status warning_ si)) as Hs3
      by (unfold h3; apply list_lookup_insert_eq; lia).
    assert (h3 !! target l = Some (with_status failure t1)) as Ht3
      by (unfold h3; rewrite list_lookup_insert_ne by congruence; exact Ht2).
    assert (exists r3, h3 !! r = Some r3 /\
              errorCount r3 = S <$> errorCount ri) as (r3 & Hr3 & Hec).
    { destruct (decide (target l = r)) as [Htr|Htr].
      - exists (with_status failure t1). rewrite <- Htr. split; [exact Ht3|].
        rewrite (Ht1r Htr). reflexivity.
      - exists (incrErrorCount ri). split; [|reflexivity].
        unfold h3, h2, h1. rewrite !list_lookup_insert_ne by congruence.
        apply list_lookup_insert_eq. lia. }
    eexists. exists r3, (with_status failure t1), (with_status warning_ si).
    split; [reflexivity|]. simpl. fold h3.
    split; [exact Hr3|]. split; [exact Ht3|]. split; [exact Hs3|].
    split; [reflexivity|]. split; [exact Hec|].
    split; [reflexivity|]. split; [congruence|].
    split; [reflexivity|]. split; [reflexivity|]. split; [reflexivity|].
    split; [|split; reflexivity].
    unfold h3. rewrite length_insert. exact Hlen2.
  - assert (source l = r) as Hsr'
      by (destruct (decide (source l = r)); [assumption | contradiction]).
    assert (target l <> r) as Htr by congruence.
    assert (h2 !! r = Some (incrErrorCount ri)) as Hr2.
    { unfold h2, h1. rewrite list_lookup_insert_ne by congruence.
      apply list_lookup_insert_eq. lia. }
    rewrite (upd_info_Some r _
               (set_warning (Some noReturnWarning) (set_heap h2 b)) _ Hr2).
    simpl. rewrite Hlinks, pop_snoc. fold h2.
    set (h3 := <[r := with_status empty_status (incrErrorCount ri)]> h2).
    assert (h3 !! r = Some (with_status empty_status (incrErrorCount ri)))
      as Hr3 by (unfold h3; apply list_lookup_insert_eq; lia).
    assert (h3 !! target l = Some (with_status failure t1)) as Ht3
      by (unfold h3; rewrite list_lookup_insert_ne by congruence; exact Ht2).
    eexists. exists (with_status empty_status (incrErrorCount ri)),
      (with_status failure t1),
      (with_status empty_status (incrErrorCount ri)).
    split; [reflexivity|]. simpl. fold h3.
    split; [exact Hr3|]. split; [exact Ht3|].
    split; [rewrite Hsr'; exact Hr3|].
    split; [reflexivity|]. split; [reflexivity|].
    split; [congruence|]. split; [reflexivity|].
    split; [reflexivity|]. split; [reflexivity|]. split; [reflexivity|].
    split; [|split; reflexivity].
    unfold h3. rewrite length_insert. exact Hlen2.
Qed.

End ExitLink.

(** ** Suppression of repeated assignment warnings *)

Ltac upd_inv H :=
  let i := fresh "i" in
  let Hi := fresh "Hi" in
  apply upd_info_Ok in H as (i & Hi & ->).

(** Takes apart every hypothesis that says a sequence of calls returned. *)
Ltac inv_run :=
  repeat
    (match goal with
     | H : (_ ≫= _) = Ok _ |- _ =>
         let a := fresh "a" in
         let Ha := fresh "Ha" in
         apply bind_Ok in H as (a & Ha & H);
         match type of a with
         | (_ * _)%type => destruct a
         | _ => idtac
         end;
         simpl in H
     | H : upd_info _ _ _ = Ok ?b' |- _ => is_var b'; upd_inv H
     | H : deref _ = Ok _ |- _ => apply deref_Ok in H
     | H : lookup_info _ _ = Ok _ |- _ => apply lookup_info_Ok in H
     | H : Throw _ = Ok _ |- _ => discriminate H
     | H : Ok _ = Ok _ |- _ => injection H as H
     | H : (_, _) = (_, _) |- _ => injection H as ? ?
     end).

(** On a completed assignment to [x] the check, when it returns, has
    compared [x] with the suppression variable it found and has left [x]
    in it. *)
Lemma isVariableModifiedOutOfScope_completed s u b x c b' :
  completed_assignment s x ->
  isVariableModifiedOutOfScope s u b = Ok (c, b') ->
  c = bool_decide (assignmentWarningVar b <> Some (Some x))
  /\ assignmentWarningVar b' = Some (Some x)
  /\ nodes b' = nodes b /\ links b' = links b
  /\ scopeChain b' = scopeChain b /\ exitingNode b' = exitingNode b.
Proof.
  intros (Hty & Hl & Hr & Hx) Hrun.
  unfold isVariableModifiedOutOfScope in Hrun.
  rewrite Hty, Hl, Hr, Hx in Hrun. simpl in Hrun.
  bind_inv Hrun. bind_inv Hrun. injection Hrun as <- <-.
  assert (assignmentWarningVar a0 = assignmentWarningVar b
          /\ nodes a0 = nodes b /\ links a0 = links b
          /\ scopeChain a0 = scopeChain b /\ exitingNode a0 = exitingNode b)
    as (Hawv & Hn & Hli & Hsc & Hex).
  { destruct (includes (variablesDeclaredInScope a) (Some x)); simpl in Ha0.
    - inv_run. subst. repeat split.
    - inv_run. destruct b0; inv_run; subst; repeat split. }
  simpl. rewrite Hawv. repeat split; assumption.
Qed.

(** Leaving a call resets the suppression variable to [null] (line 178),
    after which any name is new again. *)
Lemma removeExitingFunction_resets_suppression `{fmt : FormatOutput}
    se m b0 b1 :
  removeExitingFunction se m b0 = Ok (true, b1) ->
  assignmentWarningVar b1 = None.
Proof.
  intros Hrem. unfold removeExitingFunction in Hrem.
  destruct (isSupportedReturnToCaller se); [|discriminate].
  bind_inv Hrem. destruct a; [|discriminate].
  bind_inv Hrem. injection Hrem as <-. simpl.
  destruct (decide (m < rootNodeIndex a)); [|reflexivity].
  unfold removeOldestReturned. simpl.
  destruct (decide (1 < length (nodes a))); reflexivity.
Qed.

(** In [b], called from [a], called from the root that declares [main]:
    two assignments to the root's [main] and then one to [b]'s own [t]. *)
Example deduplication_out_of_scope :
  exists b1 b2 b3,
    isVariableModifiedOutOfScope (Demo.assigned "main") 2 Demo.in_b
    = Ok (true, b1)
    /\ isVariableModifiedOutOfScope (Demo.assigned "main") 2 b1
       = Ok (false, b2)
    /\ isVariableModifiedOutOfScope (Demo.assigned "t") 2 b2
       = Ok (true, b3)
    /\ warning b1 = Some mutatedWarning
    /\ warning b3 = Some immutabilityWarning.
Proof.
  eexists _, _, _. split; [vm_compute; reflexivity|].
  split; [vm_compute; reflexivity|].
  split; [vm_compute; reflexivity|]. split; reflexivity.
Qed.

(** ** The order of the three checks *)

Section Checks.
Context `{fmt : FormatOutput}.

(** C8 (as amended): the three checks run in order and evaluation stops at
    the first one that reports [true].  When the unassigned-return check
    fires, the other two are not run: the result is the builder that check
    left, with its warning, and the suppression variable is untouched.
    When it does not fire and the out-of-scope-mutation check reports
    [true], the display-name refresh is not run.  Only when both report
    [false] is the display-name refresh run, and it decides the flag. *)
Theorem C8_checks_stop_at_first_true s b u b1 b2 :
  last (scopeChain b) = Some u ->
  getVariablesInScope s (Some u) b = Ok b1 ->
  updateParamsIdsFromCaller s (Some u) b1 = Ok b2 ->
  (forall b3,
     isFunctionReturnUnassigned s b2 = Ok (true, b3) ->
     updateEnteringFunction s b = Ok (true, b3)
     /\ warning b3 = Some unassignedWarning
     /\ assignmentWarningVar b3 = assignmentWarningVar b
     /\ updatedDisplayArgs b3 = updatedDisplayArgs b2)
  /\ (forall b3 b4,
        isFunctionReturnUnassigned s b2 = Ok (false, b3) ->
        isVariableModifiedOutOfScope s u b3 = Ok (true, b4) ->
        updateEnteringFunction s b = Ok (true, b4))
  /\ (forall b3 b4,
        isFunctionReturnUnassigned s b2 = Ok (false, b3) ->
        isVariableModifiedOutOfScope s u b3 = Ok (false, b4) ->
        updateEnteringFunction s b = doesDisplayNameNeedUpdating s u b4).
Proof.
  intros Hu Hvars Hpars.
  assert (assignmentWarningVar b2 = assignmentWarningVar b) as Hawv.
  { unfold updateParamsIdsFromCaller in Hpars.
    unfold getVariablesInScope in Hvars.
    destruct (func_ s) as [f|]; [destruct (nativeFunc f)|];
      destruct (scope s); simpl in *; inv_run; subst; reflexivity. }
  unfold updateEnteringFunction. rewrite Hu, Hvars. simpl. rewrite Hpars.
  simpl. split; [|split].
  - intros b3 Hfirst. rewrite Hfirst. simpl. split; [reflexivity|].
    unfold isFunctionReturnUnassigned in Hfirst.
    destruct (exitingNode b2); [|discriminate].
    destruct (negb (String.eqb (node_type (node s)) "VariableDeclarator"));
      simpl in Hfirst; [|discriminate].
    inv_run. subst. simpl. rewrite <- Hawv. repeat split.
  - intros b3 b4 Hfirst Hsecond. rewrite Hfirst. simpl. rewrite Hsecond.
    reflexivity.
  - intros b3 b4 Hfirst Hsecond. rewrite Hfirst. simpl. rewrite Hsecond.
    reflexivity.
Qed.

End Checks.

(** The builder on which the unassigned-return check fires and the step is
    also a completed assignment: the code skips the out-of-scope-mutation
    check, so the suppression variable stays [null]; had every check been
    run, it would hold [x]. *)
Lemma C8_later_checks_are_skipped :
  exists b1 b2,
    updateEnteringFunction (fmt := Demo.fmt) (Demo.assigned "x")
      Demo.a_returned = Ok (true, b1)
    /\ spec_updateEnteringFunction (fmt := Demo.fmt) (Demo.assigned "x")
         Demo.a_returned = Ok (true, b2)
    /\ assignmentWarningVar b1 = None
    /\ assignmentWarningVar b2 = Some (Some "x")
    /\ updateEnteringFunction (fmt := Demo.fmt) (Demo.assigned "x")
         Demo.a_returned
       <> spec_updateEnteringFunction (fmt := Demo.fmt) (Demo.assigned "x")
            Demo.a_returned.
Proof.
  eexists _, _. split; [vm_compute; reflexivity|].
  split; [vm_compute; reflexivity|].
  split; [reflexivity|]. split; [reflexivity|].
  vm_compute. discriminate.
Qed.

Lemma C8_checks_stop_at_first_true_witness :
  exists b3,
    updateEnteringFunction (fmt := Demo.fmt) (Demo.assigned "x")
      Demo.a_returned = Ok (true, b3)
    /\ warning b3 = Some unassignedWarning
    /\ assignmentWarningVar b3 = None.
Proof.
  destruct (C8_checks_stop_at_first_true (fmt := Demo.fmt)
              (Demo.assigned "x") Demo.a_returned 1
              Demo.a_returned Demo.a_returned eq_refl eq_refl eq_refl)
    as (Hfirst & _).
  edestruct Hfirst as (Hrun & Hwarn & Hawv & _);
    [vm_compute; reflexivity|].
  eexists. split; [exact Hrun|]. split; [exact Hwarn | exact Hawv].
Defined.

(** ** What the handlers leave alone *)

Lemma static_refl i : static i i.
Proof. repeat split. Qed.

Lemma static_trans i1 i2 i3 : static i1 i2 -> static i2 i3 -> static i1 i3.
Proof. unfold static. intros (?&?&?) (?&?&?). repeat split; congruence. Qed.

Lemma heap_static_refl h : heap_static h h.
Proof. apply Forall2_same_length_lookup. split; [reflexivity|].
  intros i x y Hx Hy. rewrite Hx in Hy. injection Hy as <-. apply static_refl.
Qed.

Lemma heap_static_trans h1 h2 h3 :
  heap_static h1 h2 -> heap_static h2 h3 -> heap_static h1 h3.
Proof.
  unfold heap_static. intros H12 H23.
  eapply Forall2_trans; [|exact H12|exact H23].
  intros x y z. apply static_trans.
Qed.

Lemma heap_static_length h h' : heap_static h h' -> length h' = length h.
Proof. intros Hst. symmetry. exact (Forall2_length _ _ _ Hst). Qed.

Lemma heap_static_insert h h1 id i i' :
  heap_static h h1 -> h1 !! id = Some i -> static i i' ->
  heap_static h (<[id := i']> h1).
Proof.
  intros Hst Hi Hf. eapply heap_static_trans; [exact Hst|].
  unfold heap_static.
  rewrite <- (list_insert_id h1 id i Hi) at 1.
  apply Forall2_insert; [apply heap_static_refl | exact Hf].
Qed.

Lemma heap_static_lookup h h' i info :
  heap_static h h' -> h !! i = Some info ->
  exists info', h' !! i = Some info' /\ static info info'.
Proof.
  intros Hst Hi.
  destruct (Forall2_lookup_l _ _ _ _ _ Hst Hi) as (info' & Hi' & Hs).
  exists info'. split; assumption.
Qed.

Lemma heap_static_lookup_r h h' i info' :
  heap_static h h' -> h' !! i = Some info' ->
  exists info, h !! i = Some info /\ static info info'.
Proof.
  intros Hst Hi.
  destruct (Forall2_lookup_r _ _ _ _ _ Hst Hi) as (info & Hi' & Hs).
  exists info. split; assumption.
Qed.

Lemma graph_frame_refl b : graph_frame b b.
Proof.
  repeat (split; [reflexivity|]). split; [auto | apply heap_static_refl].
Qed.

Lemma graph_frame_trans b1 b2 b3 :
  graph_frame b1 b2 -> graph_frame b2 b3 -> graph_frame b1 b3.
Proof.
  unfold graph_frame.
  intros (?&?&?&?&?&?&?&?&He12&H12) (?&?&?&?&?&?&?&?&He23&H23).
  repeat (split; [congruence|]).
  split; [auto | exact (heap_static_trans _ _ _ H12 H23)].
Qed.

(** The assignments to a node that the handlers make keep its fixed
    fields. *)
Ltac solve_static :=
  first [ apply static_refl | repeat split ].

(** Closes [heap_static h h'] when [h'] is [h] after some node updates
    whose lookups are among the hypotheses. *)
Ltac solve_heap_static :=
  simpl in *;
  repeat (eapply heap_static_insert; [ | eassumption | solve_static ]);
  apply heap_static_refl.

Ltac solve_frame :=
  subst; unfold graph_frame; simpl;
  repeat (split; [reflexivity|]);
  split; [intros; first [assumption | discriminate] | solve_heap_static].

Section Frames.
Context `{fmt : FormatOutput}.

Lemma getVariablesInScope_frame s u b b' :
  getVariablesInScope s u b = Ok b' -> graph_frame b b'.
Proof.
  unfold getVariablesInScope. intros Hrun.
  destruct (scope s); [destruct u|]; inv_run; solve_frame.
Qed.

Lemma updateParamsIdsFromCaller_frame s u b b' :
  updateParamsIdsFromCaller s u b = Ok b' -> graph_frame b b'.
Proof.
  unfold updateParamsIdsFromCaller. intros Hrun.
  destruct (func_ s) as [f|]; [destruct (nativeFunc f)|]; simpl in Hrun;
    inv_run; solve_frame.
Qed.

Lemma isFunctionReturnUnassigned_frame s b c b' :
  isFunctionReturnUnassigned s b = Ok (c, b') -> graph_frame b b'.
Proof.
  unfold isFunctionReturnUnassigned. intros Hrun.
  destruct (exitingNode b); [|inv_run; solve_frame].
  destruct (negb (String.eqb (node_type (node s)) "VariableDeclarator"));
    simpl in Hrun; inv_run; solve_frame.
Qed.

Lemma isVariableModifiedOutOfScope_frame s u b c b' :
  isVariableModifiedOutOfScope s u b = Ok (c, b') -> graph_frame b b'.
Proof.
  unfold isVariableModifiedOutOfScope. intros Hrun.
  destruct (String.eqb (node_type (node s)) "AssignmentExpression"
            && doneLeft s && doneRight s); [|inv_run; solve_frame].
  bind_inv Hrun. bind_inv Hrun. injection Hrun as <- <-.
  apply graph_frame_trans with a0; [|solve_frame].
  destruct (includes (variablesDeclaredInScope a) (left_name (node s)));
    simpl in Ha0.
  - inv_run. solve_frame.
  - inv_run. destruct b0; inv_run; solve_frame.
Qed.

Lemma doesDisplayNameNeedUpdating_frame s u b c b' :
  doesDisplayNameNeedUpdating s u b = Ok (c, b') -> graph_frame b b'.
Proof.
  unfold doesDisplayNameNeedUpdating. intros Hrun.
  destruct (doneCallee_ s && negb (doneExec s)); [|inv_run; solve_frame].
  bind_inv Hrun.
  assert (graph_frame b a) as Hba.
  { destruct (n_ s); inv_run; solve_frame. }
  apply graph_frame_trans with a; [exact Hba|].
  bind_inv Hrun.
  destruct (negb (length (displayArgs a0) =? 0)
     && (length (updatedDisplayArgs a) =? length (displayArgs a0)));
    [|inv_run; solve_frame].
  destruct (commitArgs 0 (updatedDisplayArgs a) (displayArgs a0)).
  inv_run. solve_frame.
Qed.

Lemma updateEnteringFunction_frame s b c b' :
  updateEnteringFunction s b = Ok (c, b') -> graph_frame b b'.
Proof.
  unfold updateEnteringFunction. intros Hrun.
  bind_inv Hrun. bind_inv Hrun.
  apply getVariablesInScope_frame in Ha.
  apply updateParamsIdsFromCaller_frame in Ha0.
  apply graph_frame_trans with a; [exact Ha|].
  apply graph_frame_trans with a0; [exact Ha0|].
  destruct (last (scopeChain b)) as [u|];
    [|injection Hrun as <- <-; apply graph_frame_refl].
  bind_inv Hrun. destruct a1 as [unassigned b1].
  apply isFunctionReturnUnassigned_frame in Ha1.
  apply graph_frame_trans with b1; [exact Ha1|].
  destruct unassigned; [injection Hrun as <- <-; apply graph_frame_refl|].
  bind_inv Hrun. destruct a1 as [modified b2].
  apply isVariableModifiedOutOfScope_frame in Ha2.
  apply graph_frame_trans with b2; [exact Ha2|].
  destruct modified; [injection Hrun as <- <-; apply graph_frame_refl|].
  exact (doesDisplayNameNeedUpdating_frame _ _ _ _ _ Hrun).
Qed.

End Frames.

(** ** What entry and exit do to the graph *)

Lemma length_splice {A} (start count : nat) (l : list A) :
  start + count <= length l ->
  length (splice start count l) = length l - count.
Proof.
  intros Hle. unfold splice.
  rewrite length_app, length_take, length_drop. lia.
Qed.

Lemma lookup_splice_start {A} (start count : nat) (l : list A) :
  start <= length l ->
  splice start count l !! start = l !! (start + count).
Proof.
  intros Hle. unfold splice.
  rewrite lookup_app_r by (rewrite length_take; lia).
  rewrite length_take, lookup_drop. f_equal. lia.
Qed.

Lemma lookup_pop {A} (l : list A) (i : nat) :
  i + 1 < length l -> pop l !! i = l !! i.
Proof.
  destruct l as [|x l] using rev_ind; [simpl; lia|].
  rewrite pop_snoc, length_app. simpl. intros Hi.
  rewrite lookup_app_l by lia. reflexivity.
Qed.

Section Mutator.
Context `{fmt : FormatOutput}.

Lemma addEnteringFunction_false s b b' :
  addEnteringFunction s b = Ok (false, b') ->
  isSupportedFunctionCall s = false /\ b' = b.
Proof.
  unfold addEnteringFunction. intros Hrun.
  destruct (isSupportedFunctionCall s); [|inv_run; subst; split; reflexivity].
  exfalso. inv_run.
  destruct (last (scopeChain b)); simpl in Hrun; inv_run; discriminate.
Qed.

Lemma addEnteringFunction_true s b b' :
  addEnteringFunction s b = Ok (true, b') ->
  exists info,
    isSupportedFunctionCall s = true
    /\ enteredName s = Some (name info)
    /\ heap b' = heap b ++ [info]
    /\ nodes b' = nodes b ++ [length (heap b)]
    /\ scopeChain b' = scopeChain b ++ [length (heap b)]
    /\ callerNode info = last (scopeChain b)
    /\ type info = (if bool_decide (length (nodes b) = 0) then root
                    else function)
    /\ rootNode b' = (if bool_decide (length (nodes b) = 0)
                      then Some (length (heap b)) else rootNode b)
    /\ links b'
       = links b
         ++ match last (scopeChain b) with
            | Some c => [ {| source := c; target := length (heap b);
                             link_state := calling;
                             link_linkIndex := linkIndex b |} ]
            | None => []
            end
    /\ linkIndex b' = match last (scopeChain b) with
                      | Some _ => S (linkIndex b)
                      | None => linkIndex b
                      end
    /\ rootNodeIndex b' = rootNodeIndex b
    /\ state b' = state b /\ prevState b' = prevState b.
Proof.
  unfold addEnteringFunction, enteredName. intros Hrun.
  destruct (isSupportedFunctionCall s); [|inv_run; discriminate].
  bind_inv Hrun. apply deref_Ok in Ha. rewrite Ha.
  bind_inv Hrun. rewrite Ha0.
  bind_inv Hrun. destruct a1 as [rec argIds].
  destruct (last (scopeChain b)) as [c|]; simpl in Hrun;
    injection Hrun as <-;
    destruct (bool_decide (length (nodes b) = 0)); simpl;
    eexists; repeat split; rewrite ?app_nil_r; reflexivity.
Qed.

Lemma isNotExitingRootNode_result s b rootName r ri nb :
  isSupportedReturnToCaller s = true ->
  rootNode b = Some r -> heap b !! r = Some ri -> name ri = rootName ->
  isNotExitingRootNode s b = Ok nb ->
  nb = negb (exitsRoot rootName s).
Proof.
  unfold isSupportedReturnToCaller, isNotExitingRootNode, exitsRoot.
  intros Hsup Hroot Hri Hname Hrun.
  apply andb_prop in Hsup as [Hsup _]. apply andb_prop in Hsup as [Hty _].
  apply String.eqb_eq in Hty. rewrite Hty in Hrun. simpl in Hrun.
  bind_inv Hrun. apply deref_Ok in Ha. rewrite Ha.
  destruct (String.eqb (callee_type a) "FunctionExpression"); simpl.
  - inv_run. subst. rewrite Ha0.
    rewrite Hroot in Ha1. injection Ha1 as <-.
    rewrite Hri in Ha2. injection Ha2 as <-.
    destruct (String.eqb_spec a0 (name ri)) as [->|Hne]; simpl.
    + rewrite bool_decide_eq_true_2; reflexivity.
    + rewrite bool_decide_eq_false_2; [reflexivity | congruence].
  - inv_run. congruence.
Qed.

(** [exitLink] touches the links, the link counter, statuses and the
    warning only. *)
Lemma exitLink_graph s l b b' :
  exitLink s l b = Ok b' ->
  nodes b' = nodes b /\ scopeChain b' = scopeChain b
  /\ rootNode b' = rootNode b /\ rootNodeIndex b' = rootNodeIndex b
  /\ state b' = state b /\ prevState b' = prevState b
  /\ heap_static (heap b) (heap b')
  /\ linkIndex b <= linkIndex b'
  /\ exists v, value s = Some v
       /\ length (links b')
          = (if returnsValue s v then length (links b)
             else length (links b) - 1).
Proof.
  unfold exitLink. intros Hrun. bind_inv Hrun. apply deref_Ok in Ha.
  destruct (returnsValue s a) eqn:Hret.
  - inv_run. subst. simpl. repeat split; try solve_heap_static; [lia|].
    exists a. rewrite Hret. split; [exact Ha|].
    rewrite length_pop. simpl. lia.
  - bind_inv Hrun. bind_inv Hrun. bind_inv Hrun. bind_inv Hrun.
    injection Hrun as <-.
    destruct (decide (source l <> a0)); inv_run; subst; simpl;
      (repeat split; try solve_heap_static; [lia|]);
      exists a; rewrite Hret; (split; [exact Ha|]); apply length_pop.
Qed.

Lemma exitNode_graph s e b b' :
  exitNode s e b = Ok b' ->
  exists n, e = Some n
    /\ nodes b' = n :: pop (nodes b)
    /\ rootNodeIndex b' = S (rootNodeIndex b)
    /\ links b' = links b /\ scopeChain b' = scopeChain b
    /\ rootNode b' = rootNode b /\ linkIndex b' = linkIndex b
    /\ state b' = state b /\ prevState b' = prevState b
    /\ heap_static (heap b) (heap b').
Proof.
  unfold exitNode. intros Hrun. inv_run. subst. simpl.
  eexists. repeat split. solve_heap_static.
Qed.

End Mutator.

(** ** The invariant of balanced traces *)

Lemma root_heap_static rootName b b' :
  heap_static (heap b) (heap b') -> rootNode b' = rootNode b ->
  root_heap rootName b -> root_heap rootName b'.
Proof.
  intros Hst Hroot (Hr & (ri & Hri & Hname & Hty) & Huniq).
  split; [congruence|]. split.
  - destruct (heap_static_lookup _ _ _ _ Hst Hri) as (ri' & Hri' & Hn & Ht & _).
    exists ri'. split; [exact Hri'|]. split; congruence.
  - intros i info' Hi Hroot'.
    destruct (heap_static_lookup_r _ _ _ _ Hst Hi) as (info & Hinfo & _ & Ht & _).
    apply (Huniq i info Hinfo). congruence.
Qed.

Lemma Inv_frame g b b' :
  graph_frame b b' -> Inv g b ->
  Inv g b' /\ (count_relation b -> count_relation b').
Proof.
  intros (Hn & Hl & Hsc & Hr & Hri & _ & _ & _ & _ & Hst) HInv.
  split; [|unfold count_relation; congruence].
  destruct g as [[rootName k]|]; simpl in *.
  - destruct HInv as (Hheap & Hpos & Hlen & Hne).
    split; [exact (root_heap_static _ _ _ Hst Hr Hheap)|].
    rewrite Hn, Hri, Hsc. repeat split; assumption.
  - destruct HInv as (Hh & Hn0 & Hl0 & Hsc0 & Hr0 & Hri0).
    apply heap_static_length in Hst. rewrite Hh in Hst.
    apply nil_length_inv in Hst.
    repeat split; congruence.
Qed.

Lemma removeOldestReturned_spec m b :
  m < rootNodeIndex b ->
  nodes (removeOldestReturned m b)
  = splice m (rootNodeIndex b - m) (nodes b)
  /\ links (removeOldestReturned m b)
     = (if decide (1 < length (nodes b))
        then splice m (rootNodeIndex b - m) (links b) else links b)
  /\ rootNodeIndex (removeOldestReturned m b) = m
  /\ heap (removeOldestReturned m b) = heap b
  /\ scopeChain (removeOldestReturned m b) = scopeChain b
  /\ rootNode (removeOldestReturned m b) = rootNode b
  /\ state (removeOldestReturned m b) = state b
  /\ prevState (removeOldestReturned m b) = prevState b.
Proof.
  intros Hlt. unfold removeOldestReturned.
  replace (rootNodeIndex b - (rootNodeIndex b - m)) with m by lia.
  destruct (decide (1 < length (nodes b))); simpl; repeat split;
    try reflexivity; lia.
Qed.

(** Where the root is after [exitNode] and after an eviction. *)
Lemma root_position_exit {A} (ns : list A) (x e : A) (r k : nat) :
  ns !! r = Some x -> r + 1 + S k <= length ns ->
  (e :: pop ns) !! S r = Some x /\ S r + 1 + k <= length (e :: pop ns).
Proof.
  intros Hpos Hlen. simpl. rewrite lookup_pop by lia.
  rewrite length_pop. split; [exact Hpos | lia].
Qed.

Lemma root_position_evict {A} (ns : list A) (x : A) (r k m : nat) :
  ns !! r = Some x -> r + 1 + k <= length ns -> m < r ->
  splice m (r - m) ns !! m = Some x
  /\ m + 1 + k <= length (splice m (r - m) ns).
Proof.
  intros Hpos Hlen Hm.
  rewrite lookup_splice_start by lia.
  rewrite length_splice by lia.
  replace (m + (r - m)) with r by lia. split; [exact Hpos | lia].
Qed.

Section Exit.
Context `{fmt : FormatOutput}.

Lemma removeExitingFunction_false s m b b' :
  removeExitingFunction s m b = Ok (false, b') ->
  b' = b
  /\ (isSupportedReturnToCaller s = false
      \/ (isSupportedReturnToCaller s = true
          /\ isNotExitingRootNode s b = Ok false)).
Proof.
  unfold removeExitingFunction. intros Hrun.
  destruct (isSupportedReturnToCaller s);
    [|injection Hrun as <-; split; [reflexivity | left; reflexivity]].
  bind_inv Hrun. destruct a.
  - bind_inv Hrun. discriminate.
  - injection Hrun as <-.
    split; [reflexivity | right; split; [reflexivity | exact Ha]].
Qed.

(** A processed exit: [bm] is the builder before the eviction test. *)
Lemma removeExitingFunction_true s m b b' :
  removeExitingFunction s m b = Ok (true, b') ->
  isSupportedReturnToCaller s = true
  /\ isNotExitingRootNode s b = Ok true
  /\ exists bm,
       heap_static (heap b) (heap bm)
       /\ scopeChain bm = scopeChain b /\ rootNode bm = rootNode b
       /\ state bm = state b /\ prevState bm = prevState b
       /\ assignmentWarningVar bm = None
       /\ ((links b = [] /\ links bm = [] /\ nodes bm = nodes b
            /\ rootNodeIndex bm = rootNodeIndex b)
           \/ (exists l e v,
                 last (links b) = Some l /\ value s = Some v
                 /\ last (scopeChain b) = Some e
                 /\ nodes bm = e :: pop (nodes b)
                 /\ rootNodeIndex bm = S (rootNodeIndex b)
                 /\ length (links bm)
                    = (if returnsValue s v then length (links b)
                       else length (links b) - 1)))
       /\ b' = (if decide (m < rootNodeIndex bm)
                then removeOldestReturned m bm else bm).
Proof.
  unfold removeExitingFunction. intros Hrun.
  destruct (isSupportedReturnToCaller s); [|discriminate].
  bind_inv Hrun. destruct a; [|discriminate].
  split; [reflexivity|]. split; [exact Ha|].
  bind_inv Hrun. injection Hrun as <-.
  exists (set_assignmentWarningVar None a). simpl.
  destruct (last (links b)) as [l|] eqn:Hlast.
  - bind_inv Ha0. simpl in Ha0.
    destruct (exitLink_graph _ _ _ _ Ha1)
      as (Hn1 & Hsc1 & Hr1 & Hri1 & Hs1 & Hp1 & Hst1 & _ & v & Hv & Hlen1).
    destruct (exitNode_graph _ _ _ _ Ha0)
      as (e & He & Hn2 & Hri2 & Hl2 & Hsc2 & Hr2 & _ & Hs2 & Hp2 & Hst2).
    simpl in *.
    split; [exact (heap_static_trans _ _ _ Hst1 Hst2)|].
    repeat (split; [congruence|]).
    split; [|reflexivity].
    right. exists l, e, v. repeat split; congruence.
  - injection Ha0 as <-. apply last_None in Hlast.
    split; [apply heap_static_refl|].
    repeat (split; [reflexivity|]).
    split; [|reflexivity].
    left. repeat split; assumption.
Qed.

Lemma Inv_enter_first s b b' :
  Inv None b ->
  addEnteringFunction s b = Ok (true, b') ->
  exists rootName,
    enteredName s = Some rootName
    /\ Inv (Some (rootName, 0)) b' /\ count_relation b'
    /\ state b' = state b.
Proof.
  intros (Hh & Hn & Hl & Hsc & Hr & Hri) Hadd.
  destruct (addEnteringFunction_true _ _ _ Hadd)
    as (info & _ & Hname & Hh' & Hn' & Hsc' & _ & Hty & Hr' & Hl' & _
        & Hri' & Hs' & _).
  rewrite Hh in *. rewrite Hn in *. rewrite Hsc in *. rewrite Hl in *.
  simpl in *.
  exists (name info). split; [exact Hname|].
  split; [|split; [unfold count_relation; rewrite Hl', Hn'; reflexivity
                  | exact Hs']].
  split; [|rewrite Hn', Hri', Hri, Hsc'; repeat split; simpl; [lia | discriminate]].
  split; [exact Hr'|]. split.
  - exists info. rewrite Hh'. repeat split. exact Hty.
  - intros i info' Hi _. rewrite Hh' in Hi.
    apply lookup_lt_Some in Hi. simpl in Hi. lia.
Qed.

Lemma Inv_enter_next s b b' rootName k :
  Inv (Some (rootName, k)) b ->
  addEnteringFunction s b = Ok (true, b') ->
  Inv (Some (rootName, S k)) b'
  /\ (count_relation b -> count_relation b')
  /\ state b' = state b.
Proof.
  intros ((Hr & (ri & Hri & Hname & Hty) & Huniq) & Hpos & Hlen & Hsc) Hadd.
  destruct (addEnteringFunction_true _ _ _ Hadd)
    as (info & _ & _ & Hh' & Hn' & Hsc' & _ & Hty' & Hr' & Hl' & _
        & Hri' & Hs' & _).
  assert (length (nodes b) <> 0) as Hne by lia.
  rewrite bool_decide_eq_false_2 in Hty', Hr' by exact Hne.
  split; [|split; [|exact Hs']].
  - split; [|rewrite Hn', Hri', Hsc', length_app; simpl; repeat split].
    + split; [congruence|]. split.
      * exists ri. rewrite Hh'. rewrite lookup_app_l
          by (apply lookup_lt_Some in Hri; exact Hri).
        repeat split; assumption.
      * intros i info' Hi Hroot. rewrite Hh' in Hi.
        apply lookup_app_Some in Hi as [Hi | [_ Hi]];
          [exact (Huniq _ _ Hi Hroot)|].
        apply list_lookup_singleton_Some in Hi as [_ <-]. congruence.
    + rewrite lookup_app_l by lia. exact Hpos.
    + lia.
    + intros Heq. apply app_eq_nil in Heq as [_ Heq]. discriminate.
  - unfold count_relation. rewrite Hl', Hn', !length_app.
    destruct (last (scopeChain b)) eqn:Hlast;
      [simpl; lia | apply last_None in Hlast; contradiction].
Qed.

Lemma Inv_exit s m b b' rootName k :
  Inv (Some (rootName, S k)) b ->
  removeExitingFunction s m b = Ok (true, b') ->
  Inv (Some (rootName, k)) b'
  /\ ((exists v, value s = Some v /\ returnsValue s v = true) ->
      count_relation b -> count_relation b')
  /\ state b' = state b.
Proof.
  intros (Hheap & Hpos & Hlen & Hsc) Hrem.
  destruct (removeExitingFunction_true _ _ _ _ Hrem)
    as (_ & _ & bm & Hst & Hscm & Hrm & Hsm & _ & _ & Hcases & ->).
  assert (root_heap rootName bm) as Hheapm
    by exact (root_heap_static _ _ _ Hst Hrm Hheap).
  assert (nodes bm !! rootNodeIndex bm = Some 0
          /\ rootNodeIndex bm + 1 + k <= length (nodes bm)
          /\ ((exists v, value s = Some v /\ returnsValue s v = true) ->
              count_relation b -> count_relation bm))
    as (Hposm & Hlenm & Hcountm).
  { destruct Hcases as [(Hl0 & Hlm & Hnm & Hrim)
                       | (l & e & v & _ & Hv & _ & Hnm & Hrim & Hlm)].
    - rewrite Hnm, Hrim. split; [exact Hpos|]. split; [lia|].
      intros _ Hcount. unfold count_relation in *.
      rewrite Hl0 in Hcount. simpl in Hcount. lia.
    - rewrite Hnm, Hrim.
      destruct (root_position_exit (nodes b) 0 e (rootNodeIndex b) k Hpos Hlen)
        as (Hp & Hle).
      split; [exact Hp|]. split; [exact Hle|].
      intros (v' & Hv' & Hret) Hcount. unfold count_relation in *.
      rewrite Hnm, Hlm. rewrite Hv in Hv'. injection Hv' as <-.
      rewrite Hret. simpl. rewrite length_pop. lia. }
  destruct (decide (m < rootNodeIndex bm)) as [Hm|Hm].
  - destruct (removeOldestReturned_spec m bm Hm)
      as (Hn' & Hl' & Hri' & Hh' & Hsc' & Hr' & Hs' & _).
    destruct (root_position_evict (nodes bm) 0 (rootNodeIndex bm) k m
                Hposm Hlenm Hm) as (Hp & Hle).
    split; [|split; [|congruence]].
    + split; [|rewrite Hn', Hri', Hsc', Hscm; repeat split; assumption].
      apply (root_heap_static rootName bm); [|exact Hr'|exact Hheapm].
      rewrite Hh'. apply heap_static_refl.
    + intros Hval Hcount. specialize (Hcountm Hval Hcount).
      unfold count_relation in *. rewrite Hn', Hl'.
      rewrite decide_True by lia.
      rewrite !length_splice by lia. lia.
  - split; [|split; [exact Hcountm | exact Hsm]].
    split; [exact Hheapm|]. rewrite Hscm. repeat split; assumption.
Qed.

End Exit.

(** The whole exit handler on a call that returned a value, when the
    retained window does not overflow: the links are those that [exitLink]
    left, the last link replaced by its reverse. *)
Lemma removeExitingFunction_reverses_link `{fmt : FormatOutput}
    s m b b' v l ls :
  removeExitingFunction s m b = Ok (true, b') ->
  value s = Some v -> returnsValue s v = true ->
  links b = ls ++ [l] ->
  rootNodeIndex b < m ->
  links b'
  = {| source := target l; target := source l; link_state := returning_;
       link_linkIndex := linkIndex b |} :: ls
  /\ linkIndex b' = S (linkIndex b).
Proof.
  unfold removeExitingFunction. intros Hrun Hv Hret Hlinks Hm.
  destruct (isSupportedReturnToCaller s); [|discriminate].
  bind_inv Hrun. destruct a; [|discriminate].
  bind_inv Hrun. injection Hrun as <-.
  rewrite Hlinks, last_snoc in Ha0.
  apply bind_Ok in Ha0 as (b1 & Hexit & Hnode). simpl in Hnode.
  destruct (exitNode_graph _ _ _ _ Hnode)
    as (e & _ & Hn & Hri & Hl & _ & _ & Hli & _).
  simpl in *.
  assert (links b1 = {| source := target l; target := source l;
                        link_state := returning_;
                        link_linkIndex := linkIndex b |} :: ls
          /\ linkIndex b1 = S (linkIndex b)
          /\ rootNodeIndex b1 = rootNodeIndex b)
    as (Hl1 & Hli1 & Hri1).
  { unfold exitLink in Hexit. rewrite Hv in Hexit. simpl in Hexit.
    rewrite Hret in Hexit. inv_run. subst. simpl.
    rewrite Hlinks, pop_cons_snoc. repeat split. }
  rewrite decide_False by lia. simpl.
  rewrite Hl, Hl1, Hli, Hli1. split; reflexivity.
Qed.

(** ** One turn of the driver *)

Section Step.
Context `{fmt : FormatOutput}.

(** The three ways in which [action] returns: it skips the state, it
    enters a call, it leaves one, or it runs the update checks. *)
Lemma action_cases top m b r b1 :
  action top m b = Ok (r, b1) ->
  (b1 = set_state top (set_warning None b)
   /\ (top = None \/ prevState b = None))
  \/ (exists s,
        top = Some s /\ prevState b <> None
        /\ (addEnteringFunction s (set_state top (set_warning None b))
            = Ok (true, b1)
            \/ (isSupportedFunctionCall s = false
                /\ removeExitingFunction s m
                     (set_state top (set_warning None b)) = Ok (true, b1))
            \/ (isSupportedFunctionCall s = false
                /\ (isSupportedReturnToCaller s = false
                    \/ (isSupportedReturnToCaller s = true
                        /\ isNotExitingRootNode s
                             (set_state top (set_warning None b))
                           = Ok false))
                /\ exists c,
                     updateEnteringFunction s
                       (set_state top (set_warning None b)) = Ok (c, b1)))).
Proof.
  unfold action. cbn zeta. cbn [state set_state prevState set_warning].
  intros Hrun. destruct top as [s|];
    [|injection Hrun as _ <-; left; split; [reflexivity | left; reflexivity]].
  destruct (prevState b) as [p|] eqn:Hprev;
    [|injection Hrun as _ <-; left; split; [reflexivity | right; reflexivity]].
  right. exists s. split; [reflexivity|]. split; [discriminate|].
  bind_inv Hrun. destruct a as [added b2]. destruct added.
  - injection Hrun as _ <-. left. exact Ha.
  - apply addEnteringFunction_false in Ha as [Hsup ->].
    bind_inv Hrun. destruct a as [removed b3]. destruct removed.
    + injection Hrun as _ <-. right. left. split; assumption.
    + apply removeExitingFunction_false in Ha as [-> Hret].
      bind_inv Hrun. destruct a as [updated b4]. injection Hrun as _ <-.
      right. right. split; [exact Hsup|]. split; [exact Hret|].
      exists updated. exact Ha.
Qed.

Lemma Inv_same_graph g b b' :
  heap b' = heap b -> nodes b' = nodes b -> links b' = links b ->
  scopeChain b' = scopeChain b -> rootNode b' = rootNode b ->
  rootNodeIndex b' = rootNodeIndex b ->
  Inv g b -> Inv g b' /\ (count_relation b -> count_relation b').
Proof.
  intros Hh Hn Hl Hsc Hr Hri HInv.
  split; [|unfold count_relation; congruence].
  destruct g as [[rootName k]|]; simpl in *; unfold root_heap in *;
    rewrite Hh, Hn, Hsc, Hr, Hri, ?Hl; exact HInv.
Qed.

Lemma step_Inv top m b b' g rest :
  Inv g b ->
  step top m b = Ok b' ->
  balanced (has_prev b) g ((top, m) :: rest) = true ->
  exists g',
    Inv g' b'
    /\ balanced (has_prev b') g' rest = true
    /\ ((forall s, top = Some s -> isSupportedReturnToCaller s = true ->
         exists v, value s = Some v /\ returnsValue s v = true) ->
        count_inv g b -> count_inv g' b').
Proof.
  intros HInv Hstep Hbal. unfold step in Hstep.
  bind_inv Hstep. destruct a as [r b1]. injection Hstep as <-.
  set (b0 := set_state top (set_warning None b)).
  assert (Inv g b0 /\ (count_relation b -> count_relation b0)) as [HInv0 Hc0]
    by (apply (Inv_same_graph g b b0); [reflexivity.. | exact HInv]).
  assert (forall g' bx,
            Inv g' bx ->
            Inv g' (setPrevState bx)
            /\ (count_relation bx -> count_relation (setPrevState bx)))
    as Hprev.
  { intros g' bx Hx. apply (Inv_same_graph g' bx); [| | | | | |exact Hx];
      unfold setPrevState; destruct (state bx); reflexivity. }
  assert (forall s bx, state bx = Some s -> has_prev (setPrevState bx) = true)
    as Hrec.
  { intros s bx Hs. unfold setPrevState, has_prev. rewrite Hs. reflexivity. }
  destruct (action_cases _ _ _ _ _ Ha)
    as [[-> Hskip] | (s & -> & Hp & Hcase)].
  - (* the state is skipped *)
    exists g. destruct (Hprev g b0 HInv0) as [HInv' Hc'].
    split; [exact HInv'|]. split.
    + subst b0. destruct Hskip as [-> | Hnone].
      * simpl in *. exact Hbal.
      * unfold has_prev in Hbal. rewrite Hnone in Hbal.
        destruct top as [s|].
        -- rewrite (Hrec s (set_state (Some s) (set_warning None b)) eq_refl).
           exact Hbal.
        -- simpl in *. unfold has_prev. simpl. rewrite Hnone. exact Hbal.
    + intros _ Hc. destruct g; simpl in *; [auto | exact I].
  - assert (has_prev b = true) as Hhp
      by (unfold has_prev; destruct (prevState b); [reflexivity | contradiction]).
    rewrite Hhp in Hbal. simpl in Hbal.
    destruct Hcase as [Hadd | [(Hsup & Hrem) | (Hsup & Hret & c & Hupd)]].
    + (* entry *)
      assert (isSupportedFunctionCall s = true) as Hsup
        by (destruct (addEnteringFunction_true _ _ _ Hadd) as (? & ? & _);
            assumption).
      rewrite Hsup in Hbal.
      destruct g as [[rootName k]|].
      * destruct (Inv_enter_next _ _ _ _ _ HInv0 Hadd) as (HI & Hc & Hs).
        exists (Some (rootName, S k)).
        destruct (Hprev _ _ HI) as [HI' Hc'].
        split; [exact HI'|]. split; [rewrite (Hrec s b1 Hs); exact Hbal|].
        simpl. auto.
      * destruct (Inv_enter_first _ _ _ HInv0 Hadd)
          as (rootName & Hname & HI & Hc & Hs).
        rewrite Hname in Hbal.
        exists (Some (rootName, 0)).
        destruct (Hprev _ _ HI) as [HI' Hc'].
        split; [exact HI'|]. split; [rewrite (Hrec s b1 Hs); exact Hbal|].
        simpl. auto.
    + (* exit *)
      rewrite Hsup in Hbal.
      destruct (removeExitingFunction_true _ _ _ _ Hrem)
        as (Hret & Hnot & _).
      rewrite Hret in Hbal.
      destruct g as [[rootName k]|]; [|discriminate].
      destruct HInv0 as (Hheap0 & Hrest0).
      destruct Hheap0 as (Hr0 & (ri & Hri & Hname & Hty) & Huniq).
      assert (exitsRoot rootName s = false) as Hnr.
      { pose proof (isNotExitingRootNode_result s b0 rootName 0 ri true
                      Hret Hr0 Hri Hname Hnot) as Heq.
        destruct (exitsRoot rootName s); [discriminate | reflexivity]. }
      rewrite Hnr in Hbal. destruct k as [|k]; [discriminate|].
      assert (Inv (Some (rootName, S k)) b0) as HInv0'.
      { split; [|exact Hrest0]. split; [exact Hr0|].
        split; [exists ri; repeat split; assumption | exact Huniq]. }
      destruct (Inv_exit _ _ _ _ _ _ HInv0' Hrem) as (HI & Hc & Hs).
      exists (Some (rootName, k)).
      destruct (Hprev _ _ HI) as [HI' Hc'].
      split; [exact HI'|]. split; [rewrite (Hrec s b1 Hs); exact Hbal|].
      simpl. intros Hval Hcount. apply Hc'. apply Hc; [|auto].
      apply (Hval s eq_refl Hret).
    + (* update *)
      rewrite Hsup in Hbal.
      pose proof (updateEnteringFunction_frame _ _ _ _ Hupd) as Hfr.
      destruct (Inv_frame g _ _ Hfr HInv0) as [HI Hc].
      destruct (Hprev _ _ HI) as [HI' Hc'].
      assert (state b1 = Some s) as Hs
        by (destruct Hfr as (_&_&_&_&_&_&Hs&_); rewrite Hs; reflexivity).
      exists g. split; [exact HI'|]. split.
      * rewrite (Hrec s b1 Hs).
        destruct Hret as [Hret | [Hret Hnot]]; rewrite Hret in Hbal;
          [exact Hbal|].
        destruct g as [[rootName k]|]; [|discriminate].
        destruct HInv0 as ((Hr0 & (ri & Hri & Hname & Hty) & Huniq) & _).
        pose proof (isNotExitingRootNode_result s b0 rootName 0 ri false
                      Hret Hr0 Hri Hname Hnot) as Heq.
        destruct (exitsRoot rootName s); [exact Hbal | discriminate].
      * intros _ Hcount. destruct g; simpl in *; auto.
Qed.

End Step.

(** An eviction removes the nodes at the indices from the limit up to
    [rootNodeIndex - 1] and no other: the node at [rootNodeIndex] and all
    that follow it stay. *)
Lemma removeOldestReturned_keeps_root_onwards m b :
  m < rootNodeIndex b ->
  take m (nodes (removeOldestReturned m b)) = take m (nodes b)
  /\ drop m (nodes (removeOldestReturned m b))
     = drop (rootNodeIndex b) (nodes b).
Proof.
  intros Hm. destruct (removeOldestReturned_spec m b Hm) as (-> & _).
  unfold splice. replace (m + (rootNodeIndex b - m)) with (rootNodeIndex b)
    by lia.
  destruct (decide (m <= length (nodes b))) as [Hle|Hgt].
  - assert (length (take m (nodes b)) = m) as Hlen
      by (rewrite length_take; lia).
    split; [apply take_app_length' | apply drop_app_length'];
      symmetry; exact Hlen.
  - rewrite (take_ge (nodes b) m) by lia.
    rewrite (drop_ge (nodes b) (rootNodeIndex b)) by lia.
    rewrite app_nil_r. split; [apply take_ge | apply drop_ge]; lia.
Qed.

(** ** Whole traces *)

Section Traces.
Context `{fmt : FormatOutput}.

Lemma run_Inv trace : forall b g b',
  Inv g b ->
  run trace b = Ok b' ->
  balanced (has_prev b) g trace = true ->
  exists g',
    Inv g' b' /\ (valued trace = true -> count_inv g b -> count_inv g' b').
Proof.
  induction trace as [|[top m] rest IH]; intros b g b' HInv Hrun Hbal.
  - injection Hrun as <-. exists g. split; [exact HInv | auto].
  - simpl in Hrun. bind_inv Hrun.
    destruct (step_Inv _ _ _ _ _ _ HInv Ha Hbal) as (g1 & HInv1 & Hbal1 & Hc1).
    destruct (IH _ _ _ HInv1 Hrun Hbal1) as (g' & HInv' & Hc').
    exists g'. split; [exact HInv'|].
    intros Hval Hcount. simpl in Hval. apply andb_prop in Hval as [Hv Hval].
    apply Hc'; [exact Hval|]. apply Hc1; [|exact Hcount].
    intros s -> Hret. unfold returnedValue in Hv. rewrite Hret in Hv.
    destruct (value s) as [v|]; [|discriminate]. exists v. split; auto.
Qed.

Lemma Inv_initial : Inv None initial.
Proof. repeat split. Qed.

(** C9: along any balanced trace (the depth-first order the driver owes
    the builder), as soon as a node exists exactly one node has type
    [root]: it is the first node created, it is the builder's [rootNode],
    and it is still in the node list; neither the eviction of returned
    nodes nor any other operation has removed it.  On any builder at all,
    an eviction only removes nodes at indices below [rootNodeIndex], and an
    entry gives the new node the type [root] exactly when the node list is
    empty. *)
Theorem C9_single_root_never_removed trace b :
  (balanced false None trace = true ->
   run trace initial = Ok b ->
   (heap b = [] /\ nodes b = []) \/ root_unique b)
  /\ (forall m b0,
        m < rootNodeIndex b0 ->
        take m (nodes (removeOldestReturned m b0)) = take m (nodes b0)
        /\ drop m (nodes (removeOldestReturned m b0))
           = drop (rootNodeIndex b0) (nodes b0))
  /\ (forall s b0 b1,
        addEnteringFunction s b0 = Ok (true, b1) ->
        exists info,
          heap b1 = heap b0 ++ [info]
          /\ (type info = root <-> nodes b0 = [])).
Proof.
  split; [|split].
  - intros Hbal Hrun.
    destruct (run_Inv trace initial None b Inv_initial Hrun Hbal)
      as (g & HInv & _).
    destruct g as [[rootName k]|]; simpl in HInv.
    + right. destruct HInv as ((Hr & (ri & Hri & _ & Hty) & Huniq) & Hpos & _).
      exists ri. repeat split; try assumption.
      apply list_elem_of_lookup. exists (rootNodeIndex b). exact Hpos.
    + left. destruct HInv as (Hh & Hn & _). split; assumption.
  - intros m b0. apply removeOldestReturned_keeps_root_onwards.
  - intros s b0 b1 Hadd.
    destruct (addEnteringFunction_true _ _ _ Hadd)
      as (info & _ & _ & Hh & _ & _ & _ & Hty & _).
    exists info. split; [exact Hh|]. rewrite Hty.
    destruct (nodes b0) as [|n ns]; simpl.
    + split; reflexivity.
    + split; discriminate.
Qed.

(** Along any balanced trace in which every call that is left has
    returned a value, [links.length === nodes.length - 1] holds whenever
    the scope chain is not empty: entry, a value-returning exit and
    eviction all keep it. *)
Lemma valued_traces_keep_count_relation trace b :
  balanced false None trace = true ->
  valued trace = true ->
  run trace initial = Ok b ->
  scopeChain b <> [] ->
  count_relation b.
Proof.
  intros Hbal Hval Hrun Hsc.
  destruct (run_Inv trace initial None b Inv_initial Hrun Hbal)
    as (g & HInv & Hcount).
  destruct g as [[rootName k]|]; simpl in *.
  - apply Hcount; [exact Hval | exact I].
  - destruct HInv as (_ & _ & _ & Hsc0 & _). contradiction.
Qed.

End Traces.

Lemma C9_single_root_never_removed_witness :
  exists b,
    run (fmt := Demo.fmt) Demo.trace_nested_returns initial = Ok b
    /\ root_unique b.
Proof.
  assert (exists b, run (fmt := Demo.fmt) Demo.trace_nested_returns initial
                    = Ok b /\ heap b <> []) as (b & Hrun & Hne)
    by (eexists; split; [vm_compute; reflexivity | discriminate]).
  exists b. split; [exact Hrun|].
  destruct (proj1 (C9_single_root_never_removed (fmt := Demo.fmt)
                     Demo.trace_nested_returns b) eq_refl Hrun)
    as [[Hh _]|Huniq];
    [contradiction | exact Huniq].
Defined.

(** ** The scope chain is never popped *)

Section ScopeChain.
Context `{fmt : FormatOutput}.

Lemma removeOldestReturned_scopeChain m b :
  scopeChain (removeOldestReturned m b) = scopeChain b.
Proof.
  unfold removeOldestReturned.
  destruct (decide (1 < length (nodes b))); reflexivity.
Qed.

(** A processed exit leaves the scope chain as it was. *)
Lemma removeExitingFunction_scopeChain s m b b' :
  removeExitingFunction s m b = Ok (true, b') ->
  scopeChain b' = scopeChain b.
Proof.
  intros Hrem.
  destruct (removeExitingFunction_true _ _ _ _ Hrem)
    as (_ & _ & bm & _ & Hsc & _ & _ & _ & _ & _ & ->).
  destruct (decide (m < rootNodeIndex bm));
    rewrite ?removeOldestReturned_scopeChain; exact Hsc.
Qed.

(** No call of [action] removes anything from the scope chain. *)
Lemma action_scopeChain top m b r b' :
  action top m b = Ok (r, b') ->
  scopeChain b' = scopeChain b
  \/ exists n, scopeChain b' = scopeChain b ++ [n].
Proof.
  intros Hact.
  destruct (action_cases _ _ _ _ _ Hact)
    as [[-> _] | (s & -> & _ & [Hadd | [(_ & Hrem) | (_ & _ & c & Hupd)]])].
  - left. reflexivity.
  - right. destruct (addEnteringFunction_true _ _ _ Hadd)
      as (_ & _ & _ & _ & _ & Hsc & _).
    eexists. exact Hsc.
  - left. exact (removeExitingFunction_scopeChain _ _ _ _ Hrem).
  - left. destruct (updateEnteringFunction_frame _ _ _ _ Hupd)
      as (_ & _ & Hsc & _). exact Hsc.
Qed.

End ScopeChain.

(** C1: the scope chain after [root() -> a()] and the return of [a]: the
    node of [a] has returned (it is marked [returning] and has been moved
    to the retained front of the node list) and is still the top of the
    scope chain.  When [b] returns inside [a] and then [a] returns, the
    node handed to [exitNode] for the exit of [a] is therefore again the
    node of [b]: the node list holds [b] twice and has lost [a]. *)
Theorem C1_returned_node_stays_on_scope_chain :
  (exists b,
     run (fmt := Demo.fmt) Demo.trace_a_returned initial = Ok b
     /\ scopeChain b = [0; 1]
     /\ nodes b = [1; 0] /\ rootNodeIndex b = 1
     /\ status <$> heap b !! 1 = Some returning)
  /\ (exists b,
        run (fmt := Demo.fmt) Demo.trace_nested_returns initial = Ok b
        /\ scopeChain b = [0; 1; 2]
        /\ nodes b = [2; 2; 0]).
Proof.
  split; eexists; (split; [vm_compute; reflexivity|]); repeat split.
Qed.

(** ** The walk over the callers *)

(** The loop stops only at a frame that has no caller and declares the
    name; it never ends with the name not found. *)
Lemma scopeWalk_stops_only_at_root fuel h x : forall cur p c,
  scopeWalk fuel h cur x = Ok (p, c) ->
  p = true
  /\ exists ci, h !! c = Some ci /\ callerNode ci = None
                /\ includes (variablesDeclaredInScope ci) x = true.
Proof.
  induction fuel as [|fuel IH]; intros cur p c Hwalk; [discriminate|].
  simpl in Hwalk. destruct (h !! cur) as [ci|] eqn:Hci; [|discriminate].
  destruct (includes (variablesDeclaredInScope ci) x) eqn:Hin;
    destruct (callerNode ci) as [next|] eqn:Hcaller; simpl in Hwalk;
    try discriminate; try (exact (IH _ _ _ Hwalk)).
  injection Hwalk as <- <-. split; [reflexivity|]. exists ci. auto.
Qed.

(** When no caller-less frame declares the name, the walk does not
    return. *)
Lemma scopeWalk_undeclared_fails fuel h cur x :
  (forall c ci, h !! c = Some ci -> callerNode ci = None ->
                includes (variablesDeclaredInScope ci) x = false) ->
  forall r, scopeWalk fuel h cur x <> Ok r.
Proof.
  intros Hnone [p c] Hwalk.
  destruct (scopeWalk_stops_only_at_root _ _ _ _ _ _ Hwalk)
    as (_ & ci & Hci & Hcaller & Hin).
  rewrite (Hnone c ci Hci Hcaller) in Hin. discriminate.
Qed.

(** The loop itself always ends: callers are older nodes, so the bound is
    never reached. *)
Lemma scopeWalk_terminates h x :
  callers_older h ->
  forall fuel cur, cur < fuel -> scopeWalk fuel h cur x <> Throw OutOfFuel.
Proof.
  intros Holder. induction fuel as [|fuel IH]; intros cur Hlt; [lia|].
  simpl. destruct (h !! cur) as [ci|] eqn:Hci; [|discriminate].
  destruct (includes (variablesDeclaredInScope ci) x);
    destruct (callerNode ci) as [next|] eqn:Hcaller; simpl;
    try discriminate;
    apply IH; specialize (Holder cur ci next Hci Hcaller); lia.
Qed.

(** C3: the walk on three concrete chains.  With [root() -> a()] and [x]
    declared nowhere, the assignment to [x] in [a] makes the check read
    [callerNode.info] of the root's [null] caller: a TypeError instead of
    the "not found" outcome.  With [root() -> a() -> b()] and [x] declared
    in [a] only, the assignment to [x] in [b] does not stop at [a]: the
    loop goes on to the root and fails in the same way.  The same step run
    through [action] throws.  Only a name declared in the root is found,
    and then it is the root that is marked, whatever nearer frame
    declares it too. *)
Theorem C3_walk_dereferences_null_caller :
  isVariableModifiedOutOfScope (Demo.assigned "x") 1 Demo.in_a
  = Throw TypeError
  /\ isVariableModifiedOutOfScope (Demo.assigned "x") 2 Demo.in_b
     = Throw TypeError
  /\ scopeWalk 3 (heap Demo.in_b) 2 (Some "x"%string) = Throw TypeError
  /\ run (fmt := Demo.fmt)
       (Demo.trace_enter_a ++ [(Some (Demo.assigned "x"), 1)]) initial
     = Throw TypeError
  /\ scopeWalk 3 (heap Demo.in_b) 2 (Some "main"%string) = Ok (true, 0).
Proof. repeat split; vm_compute; reflexivity. Qed.

(** ** Link numbers *)


Lemma Forall_splice {A} (P : A -> Prop) (start count : nat) (l : list A) :
  Forall P l -> Forall P (splice start count l).
Proof.
  intros Hall. unfold splice. apply Forall_app.
  split; [apply Forall_take | apply Forall_drop]; exact Hall.
Qed.

Lemma below_counter_mono (n n' : nat) (l : list CallLink) :
  n <= n' ->
  Forall (fun k => link_linkIndex k < n) l ->
  Forall (fun k => link_linkIndex k < n') l.
Proof.
  intros Hle Hall. eapply Forall_impl; [exact Hall|].
  intros k Hk. simpl in *. lia.
Qed.

Section LinkNumbers.
Context `{fmt : FormatOutput}.






End LinkNumbers.

(** ** The embedding's own failures never happen *)

Lemma bind_Throw {A B} (m : Result A) (f : A -> Result B) (e : Failure) :
  m ≫= f = Throw e -> m = Throw e \/ exists a, m = Ok a /\ f a = Throw e.
Proof.
  destruct m as [a|e']; simpl; [eauto | intros [= ->]; left; reflexivity].
Qed.

Lemma deref_Throw {A} (o : option A) e : deref o = Throw e -> e = TypeError.
Proof. destruct o; simpl; congruence. Qed.

Lemma lookup_info_Throw id b e :
  lookup_info id b = Throw e -> length (heap b) <= id.
Proof.
  unfold lookup_info. destruct (heap b !! id) eqn:Hl; [discriminate|].
  intros _. apply lookup_ge_None. exact Hl.
Qed.

Lemma upd_info_Throw id f b e :
  upd_info id f b = Throw e -> length (heap b) <= id.
Proof.
  unfold upd_info. intros H. apply bind_Throw in H as [H | (a & _ & H)];
    [exact (lookup_info_Throw _ _ _ H) | discriminate].
Qed.

Lemma calleeName_of_Throw c e : calleeName_of c = Throw e -> e = TypeError.
Proof.
  unfold calleeName_of. destruct (callee_name c) as [n|];
    [destruct (truthy n); [discriminate|]|]; apply deref_Throw.
Qed.

(** Takes apart a hypothesis that says a sequence of calls failed, and
    closes the branches in which the failure is a TypeError. *)
Ltac no_artifact :=
  repeat
    (match goal with
     | H : (_ ≫= _) = Throw _ |- _ =>
         let a := fresh "a" in
         let Ha := fresh "Ha" in
         apply bind_Throw in H as [H | (a & Ha & H)];
         [| match type of a with
            | (_ * _)%type => destruct a
            | _ => idtac
            end; simpl in H ]
     | H : (_ ≫= _) = Ok _ |- _ =>
         let a := fresh "a" in
         let Ha := fresh "Ha" in
         apply bind_Ok in H as (a & Ha & H);
         match type of a with
         | (_ * _)%type => destruct a
         | _ => idtac
         end;
         simpl in H
     | H : upd_info _ _ _ = Ok ?b' |- _ => is_var b'; upd_inv H
     | H : deref _ = Ok _ |- _ => apply deref_Ok in H
     | H : lookup_info _ _ = Ok _ |- _ => apply lookup_info_Ok in H
     | H : Ok _ = Ok _ |- _ => injection H as H
     | H : (_, _) = (_, _) |- _ => injection H as ? ?
     | H : deref _ = Throw _ |- _ => exact (deref_Throw _ _ H)
     | H : calleeName_of _ = Throw _ |- _ => exact (calleeName_of_Throw _ _ H)
     | H : Throw TypeError = Throw _ |- _ => injection H as <-; reflexivity
     | H : Ok _ = Throw _ |- _ => discriminate H
     | H : lookup_info _ _ = Throw _ |- _ => apply lookup_info_Throw in H
     | H : upd_info _ _ _ = Throw _ |- _ => apply upd_info_Throw in H
     end).

(** Closes a branch in which a reference would be outside the store. *)
Ltac in_store :=
  exfalso; subst; simpl in *; rewrite ?length_insert in *;
  repeat match goal with
         | H : _ !! _ = Some _ |- _ =>
             apply lookup_lt_Some in H; rewrite ?length_insert in H
         end;
  lia.

Lemma refs_ok_last b u :
  refs_ok b -> last (scopeChain b) = Some u -> u < length (heap b).
Proof.
  intros (Hsc & _) Hlast. rewrite Forall_forall in Hsc. apply Hsc.
  apply last_Some_elem_of. exact Hlast.
Qed.

Lemma refs_ok_last_link b l :
  refs_ok b -> last (links b) = Some l ->
  source l < length (heap b) /\ target l < length (heap b).
Proof.
  intros (_ & Hl & _) Hlast. rewrite Forall_forall in Hl. apply Hl.
  apply last_Some_elem_of. exact Hlast.
Qed.

Lemma callers_older_static h h' :
  heap_static h h' -> callers_older h -> callers_older h'.
Proof.
  intros Hst Hold i info' c Hi Hc.
  destruct (heap_static_lookup_r _ _ _ _ Hst Hi) as (info & Hinfo & _ & _ & Hcal).
  apply (Hold i info c Hinfo). congruence.
Qed.

Lemma refs_ok_transfer b b' :
  heap_static (heap b) (heap b') ->
  scopeChain b' = scopeChain b ->
  (forall l, l ∈ links b' ->
     source l < length (heap b) /\ target l < length (heap b)) ->
  rootNode b' = rootNode b ->
  (forall e, exitingNode b' = Some e -> e < length (heap b)) ->
  refs_ok b -> refs_ok b'.
Proof.
  intros Hst Hsc Hl Hr He (Hsc0 & Hl0 & Hr0 & He0 & Hc0).
  pose proof (heap_static_length _ _ Hst) as Hlen.
  unfold refs_ok. rewrite Hlen, Hsc, Hr.
  split; [exact Hsc0|]. split; [apply Forall_forall; exact Hl|].
  split; [exact Hr0|]. split; [exact He|].
  exact (callers_older_static _ _ Hst Hc0).
Qed.

Lemma refs_ok_frame b b' : graph_frame b b' -> refs_ok b -> refs_ok b'.
Proof.
  intros (_ & Hl & Hsc & Hr & _ & _ & _ & _ & He & Hst) Hok.
  apply (refs_ok_transfer b b'); try assumption.
  - intros l Hin. rewrite Hl in Hin. destruct Hok as (_ & Hl0 & _).
    rewrite Forall_forall in Hl0. exact (Hl0 l Hin).
  - intros e Hex. destruct Hok as (_ & _ & _ & He0 & _). apply He0, He, Hex.
Qed.

Lemma scopeWalk_no_artifact h x :
  callers_older h ->
  forall fuel cur e,
    cur < fuel -> cur < length h ->
    scopeWalk fuel h cur x = Throw e -> e = TypeError.
Proof.
  intros Hold. induction fuel as [|fuel IH]; intros cur e Hf Hlen; [lia|].
  simpl. destruct (h !! cur) as [ci|] eqn:Hci;
    [|apply lookup_ge_None in Hci; lia].
  destruct (includes (variablesDeclaredInScope ci) x);
    destruct (callerNode ci) as [next|] eqn:Hc; simpl;
    try discriminate; try (intros [= <-]; reflexivity);
    pose proof (Hold cur ci next Hci Hc); apply IH; lia.
Qed.

Section NoArtifact.
Context `{fmt : FormatOutput}.

Lemma getVariablesInScope_no_artifact s b e :
  refs_ok b ->
  getVariablesInScope s (last (scopeChain b)) b = Throw e -> e = TypeError.
Proof.
  intros Hok Hrun. unfold getVariablesInScope in Hrun.
  destruct (scope s); [|discriminate].
  destruct (last (scopeChain b)) as [u|] eqn:Hu; [|discriminate].
  pose proof (refs_ok_last _ _ Hok Hu). no_artifact. in_store.
Qed.

Lemma updateParamsIdsFromCaller_no_artifact s b u e :
  (forall n, u = Some n -> n < length (heap b)) ->
  updateParamsIdsFromCaller s u b = Throw e -> e = TypeError.
Proof.
  intros Hu Hrun. unfold updateParamsIdsFromCaller in Hrun.
  destruct (func_ s) as [f|]; [|discriminate].
  destruct (nativeFunc f); simpl in Hrun; [discriminate|].
  no_artifact. specialize (Hu _ Ha). in_store.
Qed.

Lemma isFunctionReturnUnassigned_no_artifact s b e :
  refs_ok b -> isFunctionReturnUnassigned s b = Throw e -> e = TypeError.
Proof.
  intros (_ & _ & Hr & He & Hc) Hrun. unfold isFunctionReturnUnassigned in Hrun.
  destruct (exitingNode b) as [x|] eqn:Hx; [|discriminate].
  specialize (He x eq_refl).
  destruct (negb (String.eqb (node_type (node s)) "VariableDeclarator"));
    simpl in Hrun; no_artifact; subst; simpl in *.
  - in_store.
  - pose proof (Hc _ _ _ Ha Ha0). in_store.
  - pose proof (Hr _ Ha2). in_store.
Qed.

Lemma isVariableModifiedOutOfScope_no_artifact s u b e :
  refs_ok b -> u < length (heap b) ->
  isVariableModifiedOutOfScope s u b = Throw e -> e = TypeError.
Proof.
  intros (_ & _ & Hr & _ & Hc) Hu Hrun.
  unfold isVariableModifiedOutOfScope in Hrun.
  destruct (String.eqb (node_type (node s)) "AssignmentExpression"
            && doneLeft s && doneRight s); [|discriminate].
  apply bind_Throw in Hrun as [Hrun | (ui & Hui & Hrun)];
    [apply lookup_info_Throw in Hrun; lia|].
  apply bind_Throw in Hrun as [Hrun | (b1 & _ & Hrun)]; [|discriminate].
  destruct (includes (variablesDeclaredInScope ui) (left_name (node s)));
    simpl in Hrun.
  - no_artifact. in_store.
  - apply bind_Throw in Hrun as [Hrun | ([present caller] & Hwalk & Hrun)].
    + exact (scopeWalk_no_artifact _ _ Hc _ _ _ Hu Hu Hrun).
    + destruct (scopeWalk_stops_only_at_root _ _ _ _ _ _ Hwalk)
        as (-> & ci & Hci & _).
      simpl in Hrun. no_artifact; subst; simpl in *.
      * pose proof (Hr _ Ha). in_store.
      * in_store.
      * in_store.
Qed.

Lemma doesDisplayNameNeedUpdating_no_artifact s u b e :
  u < length (heap b) ->
  doesDisplayNameNeedUpdating s u b = Throw e -> e = TypeError.
Proof.
  intros Hu Hrun. unfold doesDisplayNameNeedUpdating in Hrun.
  destruct (doneCallee_ s && negb (doneExec s)); [|discriminate].
  apply bind_Throw in Hrun as [Hrun | (b1 & Hb1 & Hrun)].
  - destruct (n_ s); [discriminate|]. no_artifact. in_store.
  - assert (length (heap b1) = length (heap b)) as Hlen
      by (destruct (n_ s); inv_run; subst; reflexivity).
    apply bind_Throw in Hrun as [Hrun | (ui & Hui & Hrun)];
      [apply lookup_info_Throw in Hrun; lia|].
    destruct (negb (length (displayArgs ui) =? 0)
              && (length (updatedDisplayArgs b1) =? length (displayArgs ui)));
      [|discriminate].
    destruct (commitArgs 0 (updatedDisplayArgs b1) (displayArgs ui)).
    no_artifact. in_store.
Qed.

Lemma updateEnteringFunction_no_artifact s b e :
  refs_ok b -> updateEnteringFunction s b = Throw e -> e = TypeError.
Proof.
  intros Hok Hrun. unfold updateEnteringFunction in Hrun.
  apply bind_Throw in Hrun as [Hrun | (b1 & Hb1 & Hrun)];
    [exact (getVariablesInScope_no_artifact _ _ _ Hok Hrun)|].
  pose proof (getVariablesInScope_frame _ _ _ _ Hb1) as Hf1.
  pose proof (refs_ok_frame _ _ Hf1 Hok) as Hok1.
  assert (forall n, last (scopeChain b) = Some n -> n < length (heap b1))
    as Hu1.
  { intros n Hn. destruct Hf1 as (_ & _ & Hsc & _).
    rewrite <- Hsc in Hn. exact (refs_ok_last _ _ Hok1 Hn). }
  apply bind_Throw in Hrun as [Hrun | (b2 & Hb2 & Hrun)];
    [exact (updateParamsIdsFromCaller_no_artifact _ _ _ _ Hu1 Hrun)|].
  pose proof (updateParamsIdsFromCaller_frame _ _ _ _ Hb2) as Hf2.
  pose proof (refs_ok_frame _ _ Hf2 Hok1) as Hok2.
  destruct (last (scopeChain b)) as [u|] eqn:Hu; [|discriminate].
  assert (u < length (heap b2)) as Hu2.
  { destruct Hf2 as (_ & _ & _ & _ & _ & _ & _ & _ & _ & Hst).
    rewrite (heap_static_length _ _ Hst). apply Hu1. reflexivity. }
  apply bind_Throw in Hrun as [Hrun | ([unassigned b3] & Hb3 & Hrun)];
    [exact (isFunctionReturnUnassigned_no_artifact _ _ _ Hok2 Hrun)|].
  pose proof (isFunctionReturnUnassigned_frame _ _ _ _ Hb3) as Hf3.
  pose proof (refs_ok_frame _ _ Hf3 Hok2) as Hok3.
  assert (u < length (heap b3)) as Hu3.
  { destruct Hf3 as (_ & _ & _ & _ & _ & _ & _ & _ & _ & Hst).
    rewrite (heap_static_length _ _ Hst). exact Hu2. }
  simpl in Hrun. destruct unassigned; [discriminate|].
  apply bind_Throw in Hrun as [Hrun | ([modified b4] & Hb4 & Hrun)];
    [exact (isVariableModifiedOutOfScope_no_artifact _ _ _ _ Hok3 Hu3 Hrun)|].
  pose proof (isVariableModifiedOutOfScope_frame _ _ _ _ _ Hb4) as Hf4.
  assert (u < length (heap b4)) as Hu4.
  { destruct Hf4 as (_ & _ & _ & _ & _ & _ & _ & _ & _ & Hst).
    rewrite (heap_static_length _ _ Hst). exact Hu3. }
  simpl in Hrun. destruct modified; [discriminate|].
  exact (doesDisplayNameNeedUpdating_no_artifact _ _ _ _ Hu4 Hrun).
Qed.

End NoArtifact.

Section NoArtifactMutator.
Context `{fmt : FormatOutput}.

Lemma addEnteringFunction_no_artifact s b e :
  refs_ok b -> addEnteringFunction s b = Throw e -> e = TypeError.
Proof.
  intros Hok Hrun. unfold addEnteringFunction in Hrun.
  destruct (isSupportedFunctionCall s); [|discriminate].
  apply bind_Throw in Hrun as [Hrun | (c & _ & Hrun)];
    [exact (deref_Throw _ _ Hrun)|].
  apply bind_Throw in Hrun as [Hrun | (nm & _ & Hrun)];
    [exact (calleeName_of_Throw _ _ Hrun)|].
  apply bind_Throw in Hrun as [Hrun | ([rec argIds] & _ & Hrun)].
  - destruct (last (scopeChain b)) as [u|] eqn:Hu; [|discriminate].
    pose proof (refs_ok_last _ _ Hok Hu). no_artifact. in_store.
  - simpl in Hrun.
    destruct (getCallLink (last (scopeChain b)) (Some (length (heap b)))
                calling _) as [[l|] b1]; discriminate.
Qed.

Lemma addEnteringFunction_refs_ok s b c b' :
  refs_ok b -> addEnteringFunction s b = Ok (c, b') -> refs_ok b'.
Proof.
  intros Hok Hadd. destruct c;
    [|apply addEnteringFunction_false in Hadd as [_ ->]; exact Hok].
  destruct (addEnteringFunction_true _ _ _ Hadd)
    as (info & _ & _ & Hh & _ & Hsc & Hcal & _ & Hr & Hl & _).
  assert (exitingNode b' = exitingNode b) as Hex.
  { unfold addEnteringFunction in Hadd.
    destruct (isSupportedFunctionCall s); [|discriminate].
    inv_run. destruct (last (scopeChain b)); simpl in Hadd; inv_run; subst;
      destruct (bool_decide (length (nodes b) = 0)); reflexivity. }
  pose proof Hok as (Hsc0 & Hl0 & Hr0 & He0 & Hc0).
  unfold refs_ok. rewrite Hh, Hsc, Hl, Hr, Hex, length_app. simpl.
  split; [|split; [|split; [|split]]].
  - apply Forall_app. split; [|constructor; [lia | constructor]].
    eapply Forall_impl; [exact Hsc0|]. intros n Hn. simpl in Hn. lia.
  - apply Forall_app. split.
    + eapply Forall_impl; [exact Hl0|]. intros l [? ?]. lia.
    + destruct (last (scopeChain b)) as [u|] eqn:Hu; [|constructor].
      pose proof (refs_ok_last _ _ Hok Hu).
      constructor; [simpl; lia | constructor].
  - intros r. destruct (bool_decide (length (nodes b) = 0)).
    + intros [= <-]. lia.
    + intros Hroot. specialize (Hr0 r Hroot). lia.
  - intros x Hx. specialize (He0 x Hx). lia.
  - intros i info' k Hi Hk.
    apply lookup_app_Some in Hi as [Hi | [Hge Hi]]; [exact (Hc0 _ _ _ Hi Hk)|].
    apply list_lookup_singleton_Some in Hi as [Hi <-].
    rewrite Hcal in Hk. pose proof (refs_ok_last _ _ Hok Hk). lia.
Qed.

Lemma isNotExitingRootNode_no_artifact s b e :
  refs_ok b -> isNotExitingRootNode s b = Throw e -> e = TypeError.
Proof.
  intros (_ & _ & Hr & _) Hrun. unfold isNotExitingRootNode in Hrun.
  apply bind_Throw in Hrun as [Hrun | (isFn & _ & Hrun)].
  - destruct (String.eqb (node_type (node s)) "FunctionExpression");
      [|discriminate].
    no_artifact. specialize (Hr _ Ha1). in_store.
  - destruct isFn; [discriminate|].
    destruct (String.eqb (node_type (node s)) "CallExpression");
      [|discriminate].
    apply bind_Throw in Hrun as [Hrun | (c & _ & Hrun)];
      [exact (deref_Throw _ _ Hrun)|].
    destruct (String.eqb (callee_type c) "FunctionExpression");
      [|discriminate].
    no_artifact. specialize (Hr _ Ha0). in_store.
Qed.

Lemma exitLink_no_artifact s l b e :
  refs_ok b ->
  source l < length (heap b) -> target l < length (heap b) ->
  exitLink s l b = Throw e -> e = TypeError.
Proof.
  intros (_ & _ & Hr & _) Hs Ht Hrun. unfold exitLink in Hrun.
  apply bind_Throw in Hrun as [Hrun | (v & _ & Hrun)];
    [exact (deref_Throw _ _ Hrun)|].
  destruct (returnsValue s v).
  - no_artifact. in_store.
  - apply bind_Throw in Hrun as [Hrun | (r & Hroot & Hrun)];
      [exact (deref_Throw _ _ Hrun)|].
    apply deref_Ok in Hroot. specialize (Hr _ Hroot).
    apply bind_Throw in Hrun as [Hrun | (b1 & Hb1 & Hrun)];
      [apply upd_info_Throw in Hrun; lia|].
    upd_inv Hb1.
    apply bind_Throw in Hrun as [Hrun | (b2 & Hb2 & Hrun)];
      [apply upd_info_Throw in Hrun; in_store|].
    upd_inv Hb2.
    apply bind_Throw in Hrun as [Hrun | (b3 & _ & Hrun)]; [|discriminate].
    destruct (decide (source l <> r));
      apply upd_info_Throw in Hrun; in_store.
Qed.

Lemma exitLink_refs_ok s l b b' :
  refs_ok b ->
  source l < length (heap b) -> target l < length (heap b) ->
  exitLink s l b = Ok b' -> refs_ok b'.
Proof.
  intros Hok Hs Ht Hexit.
  destruct (exitLink_graph _ _ _ _ Hexit)
    as (_ & Hsc & Hr & _ & _ & _ & Hst & _).
  pose proof Hok as (_ & Hl0 & _ & He0 & _).
  rewrite Forall_forall in Hl0.
  apply (refs_ok_transfer b b'); try assumption.
  - unfold exitLink in Hexit. bind_inv Hexit. destruct (returnsValue s a).
    + inv_run. subst. simpl. intros k Hk.
      assert (k ∈ {| source := target l; target := source l;
                     link_state := returning_;
                     link_linkIndex := linkIndex b |} :: links b) as Hk'.
      { revert Hk. generalize ({| source := target l; target := source l;
                                  link_state := returning_;
                                  link_linkIndex := linkIndex b |} :: links b).
        intros ls. destruct ls as [|x ls] using rev_ind; [auto|].
        rewrite pop_snoc. intros Hin. apply elem_of_app. left. exact Hin. }
      apply elem_of_cons in Hk' as [-> | Hk']; [simpl; lia | exact (Hl0 k Hk')].
    + bind_inv Hexit. bind_inv Hexit. bind_inv Hexit. bind_inv Hexit.
      injection Hexit as <-.
      assert (links a3 = links b) as Hl3
        by (destruct (decide (source l <> a0)); inv_run; subst; reflexivity).
      simpl. rewrite Hl3. intros k Hk. apply Hl0.
      revert Hk. generalize (links b). intros ls.
      destruct ls as [|x ls] using rev_ind; [auto|].
      rewrite pop_snoc. intros Hin. apply elem_of_app. left. exact Hin.
  - assert (exitingNode b' = exitingNode b) as Hex.
    { unfold exitLink in Hexit. bind_inv Hexit. destruct (returnsValue s a).
      - inv_run. subst. reflexivity.
      - bind_inv Hexit. bind_inv Hexit. bind_inv Hexit. bind_inv Hexit.
        injection Hexit as <-.
        destruct (decide (source l <> a0)); inv_run; subst; reflexivity. }
    rewrite Hex. exact He0.
Qed.

Lemma exitNode_no_artifact s x b e :
  (forall n, x = Some n -> n < length (heap b)) ->
  exitNode s x b = Throw e -> e = TypeError.
Proof.
  intros Hx Hrun. unfold exitNode in Hrun. no_artifact;
    specialize (Hx _ Ha); in_store.
Qed.

Lemma removeExitingFunction_no_artifact s m b e :
  refs_ok b -> removeExitingFunction s m b = Throw e -> e = TypeError.
Proof.
  intros Hok Hrun. unfold removeExitingFunction in Hrun.
  destruct (isSupportedReturnToCaller s); [|discriminate].
  apply bind_Throw in Hrun as [Hrun | (notRoot & _ & Hrun)];
    [exact (isNotExitingRootNode_no_artifact _ _ _ Hok Hrun)|].
  destruct notRoot; [|discriminate].
  apply bind_Throw in Hrun as [Hrun | (b1 & _ & Hrun)]; [|discriminate].
  destruct (last (links b)) as [l|] eqn:Hl; [|discriminate].
  destruct (refs_ok_last_link _ _ Hok Hl) as [Hs Ht].
  apply bind_Throw in Hrun as [Hrun | (b1 & Hb1 & Hrun)];
    [exact (exitLink_no_artifact _ _ _ _ Hok Hs Ht Hrun)|].
  pose proof (exitLink_refs_ok _ _ _ _ Hok Hs Ht Hb1) as Hok1.
  apply (exitNode_no_artifact _ _ _ _) in Hrun; [exact Hrun|].
  simpl. intros n Hn. exact (refs_ok_last _ _ Hok1 Hn).
Qed.

Lemma removeExitingFunction_refs_ok s m b c b' :
  refs_ok b -> removeExitingFunction s m b = Ok (c, b') -> refs_ok b'.
Proof.
  intros Hok Hrun. unfold removeExitingFunction in Hrun.
  destruct (isSupportedReturnToCaller s); [|injection Hrun as _ <-; exact Hok].
  bind_inv Hrun. destruct a; [|injection Hrun as _ <-; exact Hok].
  bind_inv Hrun. injection Hrun as _ <-.
  assert (refs_ok a) as Hoka.
  { destruct (last (links b)) as [l|] eqn:Hl; [|injection Ha0 as <-; exact Hok].
    destruct (refs_ok_last_link _ _ Hok Hl) as [Hs Ht].
    apply bind_Ok in Ha0 as (b1 & Hb1 & Hnode). simpl in Hnode.
    pose proof (exitLink_refs_ok _ _ _ _ Hok Hs Ht Hb1) as Hok1.
    destruct (exitNode_graph _ _ _ _ Hnode)
      as (n & Hn & _ & _ & Hl2 & Hsc2 & Hr2 & _ & _ & _ & Hst2).
    simpl in *.
    assert (exitingNode a = Some n) as Hex.
    { unfold exitNode in Hnode. inv_run. subst. simpl. congruence. }
    pose proof (refs_ok_last _ _ Hok1 Hn) as Hnlt.
    destruct Hok1 as (Hsc1 & Hl1 & Hr1 & _ & Hc1).
    pose proof (heap_static_length _ _ Hst2) as Hlen.
    unfold refs_ok. rewrite Hlen, Hsc2, Hl2, Hr2, Hex.
    split; [exact Hsc1|]. split; [exact Hl1|]. split; [exact Hr1|].
    split; [intros ? [= <-]; exact Hnlt|].
    exact (callers_older_static _ _ Hst2 Hc1). }
  destruct Hoka as (Hsc & Hl & Hr & He & Hc). simpl.
  destruct (decide (m < rootNodeIndex a)).
  - unfold refs_ok, removeOldestReturned. simpl.
    destruct (decide (1 < length (nodes a))); simpl;
      repeat split; try assumption; apply Forall_splice; exact Hl.
  - repeat split; assumption.
Qed.

Lemma action_no_artifact top m b e :
  refs_ok b -> action top m b = Throw e -> e = TypeError.
Proof.
  intros Hok Hrun. unfold action in Hrun. cbn zeta in Hrun.
  cbn [state set_state prevState set_warning] in Hrun.
  destruct top as [s|]; [|discriminate].
  destruct (prevState b); [|discriminate].
  assert (refs_ok (set_state (Some s) (set_warning None b))) as Hok0
    by exact Hok.
  apply bind_Throw in Hrun as [Hrun | ([added b1] & Hb1 & Hrun)];
    [exact (addEnteringFunction_no_artifact _ _ _ Hok0 Hrun)|].
  pose proof (addEnteringFunction_refs_ok _ _ _ _ Hok0 Hb1) as Hok1.
  simpl in Hrun. destruct added; [discriminate|].
  apply bind_Throw in Hrun as [Hrun | ([removed b2] & Hb2 & Hrun)];
    [exact (removeExitingFunction_no_artifact _ _ _ _ Hok1 Hrun)|].
  pose proof (removeExitingFunction_refs_ok _ _ _ _ _ Hok1 Hb2) as Hok2.
  simpl in Hrun. destruct removed; [discriminate|].
  apply bind_Throw in Hrun as [Hrun | ([updated b3] & _ & Hrun)];
    [|discriminate].
  exact (updateEnteringFunction_no_artifact _ _ _ Hok2 Hrun).
Qed.

Lemma action_refs_ok top m b r b' :
  refs_ok b -> action top m b = Ok (r, b') -> refs_ok b'.
Proof.
  intros Hok Hact.
  assert (refs_ok (set_state top (set_warning None b))) as Hok0 by exact Hok.
  destruct (action_cases _ _ _ _ _ Hact)
    as [[-> _] | (s & -> & _ & [Hadd | [(_ & Hrem) | (_ & _ & c & Hupd)]])].
  - exact Hok0.
  - exact (addEnteringFunction_refs_ok _ _ _ _ Hok0 Hadd).
  - exact (removeExitingFunction_refs_ok _ _ _ _ _ Hok0 Hrem).
  - exact (refs_ok_frame _ _ (updateEnteringFunction_frame _ _ _ _ Hupd) Hok0).
Qed.

(** Along a trace from a builder whose references are in the store, the
    only failure is the TypeError of JavaScript: no reference ever leaves
    the store and the walk over the callers never exhausts its bound. *)
Theorem run_fails_only_with_TypeError trace : forall b e,
  refs_ok b -> run trace b = Throw e -> e = TypeError.
Proof.
  induction trace as [|[top m] rest IH]; intros b e Hok Hrun; [discriminate|].
  simpl in Hrun. unfold step in Hrun.
  apply bind_Throw in Hrun as [Hrun | (b1 & Hb1 & Hrun)].
  - apply bind_Throw in Hrun as [Hrun | ([r b1] & _ & Hrun)];
      [exact (action_no_artifact _ _ _ _ Hok Hrun) | discriminate].
  - apply bind_Ok in Hb1 as ([r b2] & Hact & Hb1). injection Hb1 as <-.
    apply (IH (setPrevState b2) e); [|exact Hrun].
    pose proof (action_refs_ok _ _ _ _ _ Hok Hact) as Hok2.
    unfold setPrevState. destruct (state b2); exact Hok2.
Qed.

Lemma refs_ok_initial : refs_ok initial.
Proof.
  repeat split; try constructor; try discriminate.
Qed.

End NoArtifactMutator.

(** ** What a call of [action] does to the state, the store and the links *)

Section ActionShape.
Context `{fmt : FormatOutput}.

Lemma removeOldestReturned_fields m b :
  heap (removeOldestReturned m b) = heap b
  /\ state (removeOldestReturned m b) = state b
  /\ prevState (removeOldestReturned m b) = prevState b
  /\ rootNode (removeOldestReturned m b) = rootNode b
  /\ linkIndex (removeOldestReturned m b) = linkIndex b
  /\ exitingNode (removeOldestReturned m b) = exitingNode b
  /\ warning (removeOldestReturned m b) = warning b
  /\ links (removeOldestReturned m b) `sublist_of` links b.
Proof.
  unfold removeOldestReturned.
  destruct (decide (1 < length (nodes b))); simpl; repeat split;
    try reflexivity.
  unfold splice.
  rewrite <- (take_drop (rootNodeIndex b - (rootNodeIndex b - m)) (links b)) at 3.
  apply sublist_app; [reflexivity|].
  rewrite <- drop_drop. apply sublist_drop.
Qed.

(** [action] records the state it was given and leaves [prevState]. *)
Lemma action_state top m b r b' :
  action top m b = Ok (r, b') ->
  state b' = top /\ prevState b' = prevState b.
Proof.
  intros Hact.
  destruct (action_cases _ _ _ _ _ Hact)
    as [[-> _] | (s & -> & _ & [Hadd | [(_ & Hrem) | (_ & _ & c & Hupd)]])].
  - split; reflexivity.
  - destruct (addEnteringFunction_true _ _ _ Hadd)
      as (_ & _ & _ & _ & _ & _ & _ & _ & _ & _ & _ & _ & Hs & Hp).
    split; [rewrite Hs | rewrite Hp]; reflexivity.
  - destruct (removeExitingFunction_true _ _ _ _ Hrem)
      as (_ & _ & bm & _ & _ & _ & Hs & Hp & _ & _ & ->).
    destruct (removeOldestReturned_fields m bm) as (_ & Hs' & Hp' & _).
    destruct (decide (m < rootNodeIndex bm));
      rewrite ?Hs', ?Hp', Hs, Hp; split; reflexivity.
  - destruct (updateEnteringFunction_frame _ _ _ _ Hupd)
      as (_ & _ & _ & _ & _ & _ & Hs & Hp & _).
    split; [rewrite Hs | rewrite Hp]; reflexivity.
Qed.

(** The links after [exitLink]. *)
Lemma exitLink_links s l b b' :
  exitLink s l b = Ok b' ->
  exists v, value s = Some v
    /\ (if returnsValue s v
        then links b'
             = pop ({| source := target l; target := source l;
                       link_state := returning_;
                       link_linkIndex := linkIndex b |} :: links b)
             /\ linkIndex b' = S (linkIndex b)
        else links b' = pop (links b) /\ linkIndex b' = linkIndex b).
Proof.
  unfold exitLink. intros Hrun. bind_inv Hrun. apply deref_Ok in Ha.
  exists a. split; [exact Ha|]. destruct (returnsValue s a).
  - inv_run. subst. simpl. split; reflexivity.
  - bind_inv Hrun. bind_inv Hrun. bind_inv Hrun. bind_inv Hrun.
    injection Hrun as <-.
    destruct (decide (source l <> a0)); inv_run; subst; simpl;
      split; reflexivity.
Qed.

Lemma sublist_pop {A} (l : list A) : pop l `sublist_of` l.
Proof.
  destruct l as [|x l] using rev_ind; [reflexivity|].
  rewrite pop_snoc. apply sublist_inserts_r. reflexivity.
Qed.

(** The links after a call of [action]: some of the old ones, with at
    most one new link, which carries the old value of the counter. *)
Lemma action_links top m b r b' :
  action top m b = Ok (r, b') ->
  (links b' `sublist_of` links b /\ linkIndex b' = linkIndex b)
  \/ (exists c,
        last (scopeChain b) = Some c
        /\ links b'
           = links b ++ [ {| source := c; target := length (heap b);
                             link_state := calling;
                             link_linkIndex := linkIndex b |} ]
        /\ linkIndex b' = S (linkIndex b))
  \/ (exists l,
        last (links b) = Some l
        /\ links b' `sublist_of`
             {| source := target l; target := source l;
                link_state := returning_;
                link_linkIndex := linkIndex b |} :: links b
        /\ linkIndex b' = S (linkIndex b)).
Proof.
  intros Hact.
  destruct (action_cases _ _ _ _ _ Hact)
    as [[-> _] | (s & -> & _ & [Hadd | [(_ & Hrem) | (_ & _ & c & Hupd)]])].
  - left. split; reflexivity.
  - destruct (addEnteringFunction_true _ _ _ Hadd)
      as (_ & _ & _ & _ & _ & _ & _ & _ & _ & Hl & Hli & _).
    simpl in *. destruct (last (scopeChain b)) as [c|] eqn:Hc.
    + right. left. exists c. repeat split; assumption.
    + left. rewrite app_nil_r in Hl. rewrite Hl, Hli. split; reflexivity.
  - unfold removeExitingFunction in Hrem.
    destruct (isSupportedReturnToCaller s); [|discriminate].
    bind_inv Hrem. destruct a; [|discriminate].
    bind_inv Hrem. injection Hrem as Hb'.
    assert (links b' `sublist_of` links a /\ linkIndex b' = linkIndex a)
      as [Hsub Hli].
    { rewrite <- Hb'. simpl.
      destruct (decide (m < rootNodeIndex a)); [|split; reflexivity].
      destruct (removeOldestReturned_fields m (set_assignmentWarningVar None a))
        as (_ & _ & _ & _ & Hli & _ & _ & Hsub).
      split; assumption. }
    clear Hb'. simpl in *.
    destruct (last (links b)) as [l|] eqn:Hl.
    + apply bind_Ok in Ha0 as (b1 & Hexit & Hnode). simpl in Hnode.
      destruct (exitNode_graph _ _ _ _ Hnode)
        as (e & _ & _ & _ & Hl2 & _ & _ & Hli2 & _).
      simpl in *.
      destruct (exitLink_links _ _ _ _ Hexit) as (v & _ & Hcase).
      simpl in Hcase. destruct (returnsValue s v).
      * destruct Hcase as [Hl1 Hli1]. right. right. exists l.
        split; [reflexivity|]. split; [|congruence].
        etransitivity; [exact Hsub|]. rewrite Hl2, Hl1. apply sublist_pop.
      * destruct Hcase as [Hl1 Hli1]. left. split; [|congruence].
        etransitivity; [exact Hsub|]. rewrite Hl2, Hl1. apply sublist_pop.
    + injection Ha0 as <-. left. split; assumption.
  - destruct (updateEnteringFunction_frame _ _ _ _ Hupd)
      as (_ & Hl & _ & _ & _ & Hli & _).
    left. simpl in *. rewrite Hl, Hli. split; reflexivity.
Qed.

(** The store and the scope chain after a call of [action]: either the
    same nodes, or one more node, pushed on the chain. *)
Lemma action_store top m b r b' :
  action top m b = Ok (r, b') ->
  (scopeChain b' = scopeChain b /\ heap_static (heap b) (heap b'))
  \/ (exists info,
        heap b' = heap b ++ [info]
        /\ scopeChain b' = scopeChain b ++ [length (heap b)]
        /\ callerNode info = last (scopeChain b)).
Proof.
  intros Hact.
  destruct (action_cases _ _ _ _ _ Hact)
    as [[-> _] | (s & -> & _ & [Hadd | [(_ & Hrem) | (_ & _ & c & Hupd)]])].
  - left. split; [reflexivity | apply heap_static_refl].
  - destruct (addEnteringFunction_true _ _ _ Hadd)
      as (info & _ & _ & Hh & _ & Hsc & Hc & _).
    right. exists info. repeat split; assumption.
  - left. split; [exact (removeExitingFunction_scopeChain _ _ _ _ Hrem)|].
    destruct (removeExitingFunction_true _ _ _ _ Hrem)
      as (_ & _ & bm & Hst & _ & _ & _ & _ & _ & _ & ->).
    destruct (removeOldestReturned_fields m bm) as (Hh & _).
    destruct (decide (m < rootNodeIndex bm)); rewrite ?Hh; exact Hst.
  - destruct (updateEnteringFunction_frame _ _ _ _ Hupd)
      as (_ & _ & Hsc & _ & _ & _ & _ & _ & _ & Hst).
    left. split; assumption.
Qed.

(** References stay in the store along a trace. *)
Lemma run_refs_ok trace : forall b b',
  refs_ok b -> run trace b = Ok b' -> refs_ok b'.
Proof.
  induction trace as [|[top m] rest IH]; intros b b' Hok Hrun.
  - injection Hrun as <-. exact Hok.
  - simpl in Hrun. bind_inv Hrun. apply (IH a); [|exact Hrun].
    unfold step in Ha. bind_inv Ha. destruct a0 as [r b1].
    injection Ha as <-.
    pose proof (action_refs_ok _ _ _ _ _ Hok Ha0) as Hok1.
    unfold setPrevState. destruct (state b1); exact Hok1.
Qed.

(** A property kept by [action] and indifferent to [prevState] holds
    after a whole trace. *)
Lemma run_invariant (P : Builder -> Prop) :
  (forall top m b r b', P b -> action top m b = Ok (r, b') -> P b') ->
  (forall b v, P b -> P (set_prevState v b)) ->
  forall trace b b', P b -> run trace b = Ok b' -> P b'.
Proof.
  intros Hact Hprev. induction trace as [|[top m] rest IH];
    intros b b' HP Hrun.
  - injection Hrun as <-. exact HP.
  - simpl in Hrun. bind_inv Hrun. apply (IH a); [|exact Hrun].
    unfold step in Ha. bind_inv Ha. destruct a0 as [r b1].
    injection Ha as <-. pose proof (Hact _ _ _ _ _ HP Ha0) as HP1.
    unfold setPrevState. destruct (state b1); [apply Hprev|]; exact HP1.
Qed.

End ActionShape.

(** ** Steps that are neither an entry nor an exit *)

Section OtherSteps.
Context `{fmt : FormatOutput}.

(** X1: a call through a member expression, and any step that is not a
    call at all, is neither entered nor left: [action] keeps the node
    list, the link list, the scope chain, the counters and the root, and
    every node keeps its name, type and caller. *)
Theorem X1_unsupported_steps_keep_graph s m b r b' :
  isMemberCallee (node s) = true \/ node_type (node s) <> "CallExpression" ->
  action (Some s) m b = Ok (r, b') ->
  nodes b' = nodes b /\ links b' = links b
  /\ scopeChain b' = scopeChain b
  /\ rootNodeIndex b' = rootNodeIndex b /\ linkIndex b' = linkIndex b
  /\ rootNode b' = rootNode b
  /\ heap_static (heap b) (heap b').
Proof.
  intros Hkind Hact.
  assert (isSupportedFunctionCall s = false
          /\ isSupportedReturnToCaller s = false) as [Hin Hout].
  { unfold isSupportedFunctionCall, isSupportedReturnToCaller.
    destruct Hkind as [-> | Hty].
    - rewrite !andb_false_r. split; reflexivity.
    - apply String.eqb_neq in Hty. rewrite Hty. split; reflexivity. }
  destruct (action_cases _ _ _ _ _ Hact)
    as [[-> _] | (s' & [= <-] & _ & [Hadd | [(_ & Hrem) | (_ & _ & c & Hupd)]])].
  - repeat split. apply heap_static_refl.
  - destruct (addEnteringFunction_true _ _ _ Hadd) as (_ & Hsup & _).
    congruence.
  - destruct (removeExitingFunction_true _ _ _ _ Hrem) as (Hsup & _).
    congruence.
  - destruct (updateEnteringFunction_frame _ _ _ _ Hupd)
      as (Hn & Hl & Hsc & Hr & Hri & Hli & _ & _ & _ & Hst).
    repeat split; assumption.
Qed.

(** X2: the call that wraps the whole program (a function expression
    named as the root node) is never left: [removeExitingFunction]
    returns [false] and changes nothing, and [action] on the finished
    wrapper call leaves the node list, the link list and the retained
    count as they were. *)
Theorem X2_wrapper_exit_not_processed s m b r0 ri c :
  rootNode b = Some r0 ->
  heap b !! r0 = Some ri ->
  node_type (node s) = "CallExpression" ->
  callee (node s) = Some c ->
  callee_type c = "FunctionExpression" ->
  callee_id c = Some (name ri) ->
  removeExitingFunction s m b = Ok (false, b)
  /\ (doneCallee_ s = true ->
      forall r b',
        action (Some s) m b = Ok (r, b') ->
        nodes b' = nodes b /\ links b' = links b
        /\ rootNodeIndex b' = rootNodeIndex b).
Proof.
  intros Hroot Hri Hty Hc Hct Hid.
  assert (forall bx, rootNode bx = Some r0 -> heap bx !! r0 = Some ri ->
                     removeExitingFunction s m bx = Ok (false, bx)) as Hrem.
  { intros bx Hrx Hhx. unfold removeExitingFunction.
    destruct (isSupportedReturnToCaller s); [|reflexivity].
    unfold isNotExitingRootNode. rewrite Hty. simpl. rewrite Hc. simpl.
    rewrite Hct. simpl. rewrite Hid. simpl. rewrite Hrx. simpl.
    rewrite (lookup_info_Some _ _ _ Hhx). simpl.
    rewrite String.eqb_refl. reflexivity. }
  split; [exact (Hrem b Hroot Hri)|].
  intros Hdone r b' Hact.
  destruct (action_cases _ _ _ _ _ Hact)
    as [[-> _] | (s' & [= <-] & _ & [Hadd | [(_ & Hex) | (_ & _ & u & Hupd)]])].
  - repeat split.
  - destruct (addEnteringFunction_true _ _ _ Hadd) as (_ & Hsup & _).
    unfold isSupportedFunctionCall in Hsup. rewrite Hdone in Hsup.
    rewrite andb_false_r in Hsup. discriminate.
  - rewrite (Hrem (set_state (Some s) (set_warning None b)) Hroot Hri) in Hex.
    discriminate.
  - destruct (updateEnteringFunction_frame _ _ _ _ Hupd)
      as (Hn & Hl & _ & _ & Hrx & _).
    repeat split; assumption.
Qed.

End OtherSteps.

(** ** The retained window *)

Section Window.
Context `{fmt : FormatOutput}.

Lemma action_rootNodeIndex top m b r b' :
  action top m b = Ok (r, b') ->
  rootNodeIndex b' = rootNodeIndex b \/ rootNodeIndex b' <= m.
Proof.
  intros Hact.
  destruct (action_cases _ _ _ _ _ Hact)
    as [[-> _] | (s & -> & _ & [Hadd | [(_ & Hrem) | (_ & _ & c & Hupd)]])].
  - left. reflexivity.
  - destruct (addEnteringFunction_true _ _ _ Hadd)
      as (_ & _ & _ & _ & _ & _ & _ & _ & _ & _ & _ & Hri & _).
    left. exact Hri.
  - right. destruct (removeExitingFunction_true _ _ _ _ Hrem)
      as (_ & _ & bm & _ & _ & _ & _ & _ & _ & _ & ->).
    destruct (decide (m < rootNodeIndex bm)) as [Hm|Hm]; [|lia].
    destruct (removeOldestReturned_spec m bm Hm) as (_ & _ & -> & _). lia.
  - destruct (updateEnteringFunction_frame _ _ _ _ Hupd)
      as (_ & _ & _ & _ & Hri & _).
    left. exact Hri.
Qed.

(** X4: after every processed exit the number of retained returned nodes,
    [rootNodeIndex], is at most the limit given with that step; hence
    along a trace whose limits never exceed [M], from a builder that
    retains at most [M] nodes, at most [M] nodes are ever retained. *)
Theorem X4_retained_window_bounded :
  (forall s m b b',
     removeExitingFunction s m b = Ok (true, b') -> rootNodeIndex b' <= m)
  /\ (forall M trace b0 b,
        limits_below M trace ->
        rootNodeIndex b0 <= M ->
        run trace b0 = Ok b ->
        rootNodeIndex b <= M).
Proof.
  split.
  - intros s m b b' Hrem.
    destruct (removeExitingFunction_true _ _ _ _ Hrem)
      as (_ & _ & bm & _ & _ & _ & _ & _ & _ & _ & ->).
    destruct (decide (m < rootNodeIndex bm)) as [Hm|Hm]; [|lia].
    destruct (removeOldestReturned_spec m bm Hm) as (_ & _ & -> & _). lia.
  - intros M trace. induction trace as [|[top m] rest IH];
      intros b0 b Hlim Hle Hrun.
    + injection Hrun as <-. exact Hle.
    + apply Forall_cons in Hlim as [Hm Hlim]. simpl in Hm, Hrun.
      bind_inv Hrun. apply (IH a b Hlim); [|exact Hrun].
      unfold step in Ha. bind_inv Ha. destruct a0 as [r b1].
      injection Ha as <-.
      assert (rootNodeIndex b1 <= M) as Hb1
        by (destruct (action_rootNodeIndex _ _ _ _ _ Ha0); lia).
      unfold setPrevState. destruct (state b1); exact Hb1.
Qed.

End Window.

(** ** The links along a trace *)

Section Links.
Context `{fmt : FormatOutput}.

Lemma below_sublist (n : nat) (l k : list CallLink) :
  l `sublist_of` k ->
  Forall (fun x => link_linkIndex x < n) k ->
  Forall (fun x => link_linkIndex x < n) l.
Proof.
  intros Hsub Hall. rewrite Forall_forall in *.
  intros x Hx. apply Hall. exact (elem_of_sublist _ _ _ Hx Hsub).
Qed.

Lemma below_not_elem (n : nat) (l : list CallLink) :
  Forall (fun x => link_linkIndex x < n) l -> n ∉ link_linkIndex <$> l.
Proof.
  intros Hall Hin. apply list_elem_of_fmap in Hin as (x & Hn & Hx).
  rewrite Forall_forall in Hall. specialize (Hall x Hx). lia.
Qed.

Lemma action_numbered top m b r b' :
  links_below_counter b /\ links_unique b ->
  action top m b = Ok (r, b') ->
  links_below_counter b' /\ links_unique b'.
Proof.
  unfold links_below_counter, links_unique. intros [Hbelow Huniq] Hact.
  destruct (action_links _ _ _ _ _ Hact)
    as [[Hsub Hli] | [(c & _ & Hl & Hli) | (l & _ & Hsub & Hli)]].
  - rewrite Hli. split; [exact (below_sublist _ _ _ Hsub Hbelow)|].
    eapply sublist_NoDup; [exact Huniq|]. apply fmap_sublist. exact Hsub.
  - rewrite Hl, Hli, fmap_app. split.
    + apply Forall_app. split; [|constructor; [simpl; lia | constructor]].
      apply (below_counter_mono (linkIndex b)); [lia | exact Hbelow].
    + apply NoDup_app. split; [exact Huniq|]. split; [|apply NoDup_singleton].
      intros n Hn Hin. simpl in Hin. apply list_elem_of_singleton in Hin.
      subst n. exact (below_not_elem _ _ Hbelow Hn).
  - rewrite Hli.
    assert (Forall (fun x => link_linkIndex x < S (linkIndex b))
              ({| source := target l; target := source l;
                  link_state := returning_;
                  link_linkIndex := linkIndex b |} :: links b)) as Hall.
    { constructor; [simpl; lia|].
      apply (below_counter_mono (linkIndex b)); [lia | exact Hbelow]. }
    split; [exact (below_sublist _ _ _ Hsub Hall)|].
    eapply sublist_NoDup; [|apply fmap_sublist; exact Hsub].
    simpl. apply NoDup_cons. split; [|exact Huniq].
    exact (below_not_elem _ _ Hbelow).
Qed.

(** X5: along any trace from the empty builder, the links in the list
    carry pairwise different numbers, all below the link counter: a link
    keeps the number it was made with, a reversed link gets a new one. *)
Theorem X5_link_numbers_unique trace b :
  run trace initial = Ok b ->
  links_unique b /\ links_below_counter b.
Proof.
  intros Hrun.
  assert (links_below_counter b /\ links_unique b) as [H1 H2].
  { apply (run_invariant (fun x => links_below_counter x /\ links_unique x))
      with (trace := trace) (b := initial); [| |split; constructor | exact Hrun].
    - intros top m b0 r b1. apply action_numbered.
    - intros b0 v H0. exact H0. }
  split; assumption.
Qed.

Lemma action_joined top m b r b' :
  refs_ok b /\ links_distinct b ->
  action top m b = Ok (r, b') ->
  refs_ok b' /\ links_distinct b'.
Proof.
  intros [Hok Hdist] Hact.
  split; [exact (action_refs_ok _ _ _ _ _ Hok Hact)|].
  unfold links_distinct in *. rewrite Forall_forall in Hdist.
  destruct (action_links _ _ _ _ _ Hact)
    as [[Hsub _] | [(c & Hc & Hl & _) | (l & Hl & Hsub & _)]].
  - apply Forall_forall. intros x Hx.
    exact (Hdist x (elem_of_sublist _ _ _ Hx Hsub)).
  - rewrite Hl. apply Forall_app. split; [apply Forall_forall; exact Hdist|].
    constructor; [|constructor]. simpl.
    pose proof (refs_ok_last _ _ Hok Hc). lia.
  - apply Forall_forall. intros x Hx.
    apply (elem_of_sublist _ _ _ Hx) in Hsub.
    apply elem_of_cons in Hsub as [-> | Hin]; [|exact (Hdist x Hin)].
    simpl. apply last_Some_elem_of in Hl. specialize (Hdist l Hl). congruence.
Qed.

(** X6: along any trace from the empty builder, every link joins two
    different nodes, and both are nodes of the store. *)
Theorem X6_links_join_distinct_nodes trace b :
  run trace initial = Ok b ->
  Forall (fun l => source l <> target l
                   /\ source l < length (heap b)
                   /\ target l < length (heap b)) (links b).
Proof.
  intros Hrun.
  assert (refs_ok b /\ links_distinct b) as [(_ & Hl & _) Hdist].
  { apply (run_invariant (fun x => refs_ok x /\ links_distinct x))
      with (trace := trace) (b := initial);
      [| |split; [apply refs_ok_initial | constructor] | exact Hrun].
    - intros top m b0 r b1. apply action_joined.
    - intros b0 v H0. exact H0. }
  unfold links_distinct in Hdist. rewrite Forall_forall in *.
  intros l Hin. split; [exact (Hdist l Hin) | exact (Hl l Hin)].
Qed.

End Links.

(** ** The scope chain and the callers along a trace *)

Lemma last_seq (n : nat) : last (seq 0 n) = previous n.
Proof.
  destruct n as [|n]; [reflexivity|]. rewrite seq_S. apply last_snoc.
Qed.

Lemma creation_order_static b b' :
  scopeChain b' = scopeChain b -> heap_static (heap b) (heap b') ->
  creation_order b -> creation_order b'.
Proof.
  intros Hsc Hst [Hchain Hcallers]. split.
  - rewrite Hsc, (heap_static_length _ _ Hst). exact Hchain.
  - intros i info' Hi.
    destruct (heap_static_lookup_r _ _ _ _ Hst Hi)
      as (info & Hinfo & _ & _ & Hc).
    rewrite Hc. exact (Hcallers i info Hinfo).
Qed.

(** On a store in creation order the walk from any node goes down to node
    0: it ends there with the name found when node 0 declares it, and
    reads the [info] of a [null] caller when node 0 does not. *)
Lemma scopeWalk_creation_order h x r0 :
  (forall i info, h !! i = Some info -> callerNode info = previous i) ->
  h !! 0 = Some r0 ->
  forall fuel cur,
    cur < fuel -> cur < length h ->
    scopeWalk fuel h cur x
    = (if includes (variablesDeclaredInScope r0) x then Ok (true, 0)
       else Throw TypeError).
Proof.
  intros Hcallers Hr0. induction fuel as [|fuel IH]; intros cur Hf Hlen; [lia|].
  simpl. destruct (h !! cur) as [ci|] eqn:Hci;
    [|apply lookup_ge_None in Hci; lia].
  rewrite (Hcallers cur ci Hci). destruct cur as [|k]; simpl.
  - rewrite Hr0 in Hci. injection Hci as <-.
    destruct (includes (variablesDeclaredInScope r0) x); reflexivity.
  - rewrite orb_true_r. apply IH; lia.
Qed.

Section CreationOrder.
Context `{fmt : FormatOutput}.

Lemma action_creation_order top m b r b' :
  creation_order b -> action top m b = Ok (r, b') -> creation_order b'.
Proof.
  intros Hco Hact.
  destruct (action_store _ _ _ _ _ Hact)
    as [[Hsc Hst] | (info & Hh & Hsc & Hc)].
  - exact (creation_order_static _ _ Hsc Hst Hco).
  - destruct Hco as [Hchain Hcallers]. split.
    + rewrite Hsc, Hh, Hchain, length_app. simpl.
      rewrite Nat.add_1_r, seq_S. reflexivity.
    + intros i info' Hi. rewrite Hh in Hi.
      apply lookup_app_Some in Hi as [Hi | [Hge Hi]];
        [exact (Hcallers i info' Hi)|].
      apply list_lookup_singleton_Some in Hi as [Hi <-].
      assert (i = length (heap b)) as -> by lia.
      rewrite Hc, Hchain. apply last_seq.
Qed.

Lemma run_creation_order trace b :
  run trace initial = Ok b -> creation_order b.
Proof.
  intros Hrun.
  apply (run_invariant creation_order) with (trace := trace) (b := initial);
    [| | |exact Hrun].
  - intros top m b0 r b1. apply action_creation_order.
  - intros b0 v H0. exact H0.
  - split; [reflexivity|]. intros i info Hi. discriminate.
Qed.

(** X7: along any trace from the empty builder the scope chain is the
    list of all the nodes created so far, in the order of their creation
    (nothing is ever taken off it), and the [callerNode] of every node is
    the node created just before it ([null] for the first). *)
Theorem X7_scope_chain_is_creation_order trace b :
  run trace initial = Ok b ->
  scopeChain b = seq 0 (length (heap b))
  /\ (forall i info, heap b !! i = Some info -> callerNode info = previous i).
Proof. apply run_creation_order. Qed.

(** X8: on any builder reached by a trace from the empty builder, the
    walk over the callers started at any node always runs down to the
    first node (the root): it ends with the name found, at the root, when
    the root frame declares the name, and otherwise it throws a TypeError;
    a nearer frame that declares the name does not stop it.  So the check
    of an assignment to a name that neither the current frame nor the root
    declares throws. *)
Theorem X8_walk_always_ends_at_root trace b r0 u x :
  run trace initial = Ok b ->
  heap b !! 0 = Some r0 ->
  u < length (heap b) ->
  scopeWalk (length (heap b)) (heap b) u x
  = (if includes (variablesDeclaredInScope r0) x then Ok (true, 0)
     else Throw TypeError)
  /\ (forall s ui y,
        completed_assignment s y ->
        heap b !! u = Some ui ->
        includes (variablesDeclaredInScope ui) (Some y) = false ->
        includes (variablesDeclaredInScope r0) (Some y) = false ->
        isVariableModifiedOutOfScope s u b = Throw TypeError).
Proof.
  intros Hrun Hr0 Hu.
  destruct (run_creation_order trace b Hrun) as [_ Hcallers].
  assert (forall y, scopeWalk (length (heap b)) (heap b) u y
                    = (if includes (variablesDeclaredInScope r0) y
                       then Ok (true, 0) else Throw TypeError)) as Hwalk
    by (intros y; apply scopeWalk_creation_order; assumption).
  split; [apply Hwalk|].
  intros s ui y (Hty & Hl & Hr & Hy) Hui Hcur Hroot.
  unfold isVariableModifiedOutOfScope. rewrite Hty, Hl, Hr, Hy. simpl.
  rewrite (lookup_info_Some _ _ _ Hui). simpl. rewrite Hcur. simpl.
  rewrite Hwalk, Hroot. reflexivity.
Qed.

End CreationOrder.

(** ** The pending-assignment marker *)

Section Pending.
Context `{fmt : FormatOutput}.

Lemma isFunctionReturnUnassigned_result s b c b' :
  isFunctionReturnUnassigned s b = Ok (c, b') ->
  exitingNode b' = None
  /\ c = match exitingNode b with
         | Some _ => negb (String.eqb (node_type (node s)) "VariableDeclarator")
         | None => false
         end.
Proof.
  unfold isFunctionReturnUnassigned. intros Hrun.
  destruct (exitingNode b) as [e|] eqn:He;
    [|injection Hrun as <- <-; split; [exact He | reflexivity]].
  destruct (negb (String.eqb (node_type (node s)) "VariableDeclarator"));
    simpl in Hrun; inv_run; subst; split; reflexivity.
Qed.

(** X9: the marker of the node that has just returned lives for one
    update step only.  Whenever [updateEnteringFunction] returns on a
    non-empty scope chain the marker is cleared, whatever the step was;
    and the unassigned-return check reports [true] exactly when a node was
    pending and the step is not a variable declarator. *)
Theorem X9_pending_marker_cleared s b c b' :
  scopeChain b <> [] ->
  updateEnteringFunction s b = Ok (c, b') ->
  exitingNode b' = None
  /\ (exitingNode b <> None ->
      node_type (node s) <> "VariableDeclarator" ->
      c = true /\ warning b' = Some unassignedWarning)
  /\ (forall c1 b1,
        isFunctionReturnUnassigned s b = Ok (c1, b1) ->
        c1 = true
        <-> (exitingNode b <> None
             /\ node_type (node s) <> "VariableDeclarator")).
Proof.
  intros Hsc Hrun. unfold updateEnteringFunction in Hrun.
  destruct (last (scopeChain b)) as [u|] eqn:Hu;
    [|apply last_None in Hu; contradiction].
  bind_inv Hrun. bind_inv Hrun.
  pose proof (getVariablesInScope_frame _ _ _ _ Ha) as Hf1.
  pose proof (updateParamsIdsFromCaller_frame _ _ _ _ Ha0) as Hf2.
  assert (exitingNode a0 = exitingNode b) as Hex.
  { unfold getVariablesInScope in Ha. unfold updateParamsIdsFromCaller in Ha0.
    destruct (scope s); destruct (func_ s) as [f|];
      try destruct (nativeFunc f); simpl in *; inv_run; subst; reflexivity. }
  apply bind_Ok in Hrun as ([c1 b1] & Hfirst & Hrun). simpl in Hrun.
  destruct (isFunctionReturnUnassigned_result _ _ _ _ Hfirst) as [Hnone Hc1].
  split; [|split].
  - destruct c1.
    + injection Hrun as _ <-. exact Hnone.
    + apply bind_Ok in Hrun as ([c2 b2] & Hsecond & Hrun). simpl in Hrun.
      destruct (isVariableModifiedOutOfScope_frame _ _ _ _ _ Hsecond)
        as (_ & _ & _ & _ & _ & _ & _ & _ & He & _).
      destruct c2.
      * injection Hrun as _ <-.
        destruct (exitingNode b2) as [e|] eqn:He2; [|reflexivity].
        specialize (He e eq_refl). congruence.
      * destruct (doesDisplayNameNeedUpdating_frame _ _ _ _ _ Hrun)
          as (_ & _ & _ & _ & _ & _ & _ & _ & He' & _).
        destruct (exitingNode b') as [e|] eqn:He2; [|reflexivity].
        specialize (He' e eq_refl). specialize (He e He'). congruence.
  - intros Hpend Hty. rewrite Hex in Hc1.
    destruct (exitingNode b) as [e|] eqn:Heb; [|contradiction].
    apply String.eqb_neq in Hty. rewrite Hty in Hc1. simpl in Hc1. subst c1.
    injection Hrun as <- <-. split; [reflexivity|].
    unfold isFunctionReturnUnassigned in Hfirst. rewrite Hex in Hfirst.
    rewrite Hty in Hfirst. simpl in Hfirst. inv_run. subst. reflexivity.
  - intros c0 b0 Hfirst0.
    destruct (isFunctionReturnUnassigned_result _ _ _ _ Hfirst0) as [_ ->].
    destruct (exitingNode b) as [e|].
    + destruct (String.eqb_spec (node_type (node s)) "VariableDeclarator")
        as [Heq|Hne]; simpl.
      * split; [discriminate | intros [_ Hn]; contradiction].
      * split; [intros _; split; [discriminate | exact Hne] | reflexivity].
    + split; [discriminate | intros [Hn _]; contradiction].
Qed.

End Pending.

(** ** Committing the display arguments *)

Lemma commitArgs_length (updated : list (option string)) :
  forall i dArgs, length (commitArgs i updated dArgs).1 = length dArgs.
Proof.
  induction updated as [|u rest IH]; intros i dArgs; [reflexivity|].
  simpl. destruct u as [updateArg|].
  - destruct (truthy updateArg
              && negb (bool_decide (dArgs !! i = Some updateArg))).
    + specialize (IH (S i) (<[i := updateArg]> dArgs)).
      destruct (commitArgs (S i) rest (<[i := updateArg]> dArgs)).
      simpl in *. rewrite IH. apply length_insert.
    + specialize (IH (S i) dArgs).
      destruct (commitArgs (S i) rest dArgs). exact IH.
  - specialize (IH (S i) dArgs).
    destruct (commitArgs (S i) rest dArgs). exact IH.
Qed.

(** The rounds from index [i] on leave the positions before [i]. *)
Lemma commitArgs_before (updated : list (option string)) :
  forall i dArgs j,
    j < i -> (commitArgs i updated dArgs).1 !! j = dArgs !! j.
Proof.
  induction updated as [|u rest IH]; intros i dArgs j Hj; [reflexivity|].
  simpl. destruct u as [updateArg|].
  - destruct (truthy updateArg
              && negb (bool_decide (dArgs !! i = Some updateArg))).
    + specialize (IH (S i) (<[i := updateArg]> dArgs) j).
      destruct (commitArgs (S i) rest (<[i := updateArg]> dArgs)).
      simpl in *. rewrite IH by lia. apply list_lookup_insert_ne. lia.
    + specialize (IH (S i) dArgs j).
      destruct (commitArgs (S i) rest dArgs). apply IH. lia.
  - specialize (IH (S i) dArgs j).
    destruct (commitArgs (S i) rest dArgs). apply IH. lia.
Qed.

Lemma commitArgs_idempotent (updated : list (option string)) :
  forall i dArgs,
    i + length updated <= length dArgs ->
    commitArgs i updated (commitArgs i updated dArgs).1
    = ((commitArgs i updated dArgs).1, false).
Proof.
  induction updated as [|u rest IH]; intros i dArgs Hlen; [reflexivity|].
  simpl in Hlen. simpl. destruct u as [updateArg|].
  - destruct (truthy updateArg) eqn:Htruthy; simpl.
    + destruct (bool_decide (dArgs !! i = Some updateArg)) eqn:Hsame; simpl.
      * pose proof (commitArgs_before rest (S i) dArgs i) as Hbefore.
        specialize (IH (S i) dArgs).
        destruct (commitArgs (S i) rest dArgs) as [d2 met2]. simpl in *.
        rewrite Hbefore by lia. rewrite Hsame. simpl.
        rewrite IH by lia. reflexivity.
      * pose proof (commitArgs_before rest (S i) (<[i := updateArg]> dArgs) i)
          as Hbefore.
        specialize (IH (S i) (<[i := updateArg]> dArgs)).
        destruct (commitArgs (S i) rest (<[i := updateArg]> dArgs))
          as [d2 met2]. simpl in *.
        rewrite Hbefore by lia.
        rewrite list_lookup_insert_eq by lia.
        rewrite bool_decide_eq_true_2 by reflexivity. simpl.
        rewrite IH by (rewrite length_insert; lia). reflexivity.
    + specialize (IH (S i) dArgs).
      destruct (commitArgs (S i) rest dArgs) as [d2 met2]. simpl in *.
      rewrite IH by lia. reflexivity.
  - specialize (IH (S i) dArgs).
    destruct (commitArgs (S i) rest dArgs) as [d2 met2]. simpl in *.
    rewrite IH by lia. reflexivity.
Qed.

(** The flag is raised exactly when a position changes. *)
Lemma commitArgs_flag (updated : list (option string)) :
  forall i dArgs,
    i + length updated <= length dArgs ->
    (commitArgs i updated dArgs).2 = false
    <-> (commitArgs i updated dArgs).1 = dArgs.
Proof.
  induction updated as [|u rest IH]; intros i dArgs Hlen;
    [split; reflexivity|].
  simpl in Hlen. simpl. destruct u as [updateArg|].
  - destruct (truthy updateArg) eqn:Htruthy; simpl.
    + destruct (bool_decide (dArgs !! i = Some updateArg)) eqn:Hsame; simpl.
      * specialize (IH (S i) dArgs).
        destruct (commitArgs (S i) rest dArgs) as [d2 met2]. simpl in *.
        apply IH. lia.
      * pose proof (commitArgs_before rest (S i) (<[i := updateArg]> dArgs) i)
          as Hbefore.
        destruct (commitArgs (S i) rest (<[i := updateArg]> dArgs))
          as [d2 met2]. simpl in *.
        split; [discriminate|]. intros ->.
        rewrite Hbefore in Hsame by lia.
        rewrite list_lookup_insert_eq in Hsame by lia.
        rewrite bool_decide_eq_true_2 in Hsame by reflexivity. discriminate.
    + specialize (IH (S i) dArgs).
      destruct (commitArgs (S i) rest dArgs) as [d2 met2]. simpl in *.
      apply IH. lia.
  - specialize (IH (S i) dArgs).
    destruct (commitArgs (S i) rest dArgs) as [d2 met2]. simpl in *.
    apply IH. lia.
Qed.

Section DisplayRefresh.
Context `{fmt : FormatOutput}.

(** X10: the display-name refresh keeps the number of display arguments
    of the node, reports [false] only when it left them as they were, and
    is idempotent: once it has run on a call whose arguments are being
    evaluated, a further run with no newly evaluated argument ([n_] unset)
    reports no update and leaves the display arguments alone. *)
Theorem X10_display_refresh_idempotent s u b ui c b1 :
  doneCallee_ s && negb (doneExec s) = true ->
  heap b !! u = Some ui ->
  doesDisplayNameNeedUpdating s u b = Ok (c, b1) ->
  exists ui1,
    heap b1 !! u = Some ui1
    /\ length (displayArgs ui1) = length (displayArgs ui)
    /\ (c = false -> displayArgs ui1 = displayArgs ui)
    /\ forall s2,
         doneCallee_ s2 && negb (doneExec s2) = true ->
         n_ s2 = 0 ->
         exists b2 ui2,
           doesDisplayNameNeedUpdating s2 u b1 = Ok (false, b2)
           /\ heap b2 !! u = Some ui2
           /\ displayArgs ui2 = displayArgs ui1.
Proof.
  intros Hflags Hui Hrun. unfold doesDisplayNameNeedUpdating in Hrun.
  rewrite Hflags in Hrun.
  apply bind_Ok in Hrun as (ba & Hba & Hrun).
  assert (heap ba = heap b) as Hheap
    by (destruct (n_ s); inv_run; subst; reflexivity).
  apply bind_Ok in Hrun as (ui' & Hui' & Hrun).
  apply lookup_info_Ok in Hui'. rewrite Hheap, Hui in Hui'.
  injection Hui' as <-.
  destruct (negb (length (displayArgs ui) =? 0)
            && (length (updatedDisplayArgs ba) =? length (displayArgs ui)))
    eqn:Hguard.
  - destruct (commitArgs 0 (updatedDisplayArgs ba) (displayArgs ui))
      as [dArgs met] eqn:Hcommit.
    apply bind_Ok in Hrun as (bb & Hbb & Hrun). upd_inv Hbb.
    injection Hrun as <- <-.
    apply andb_prop in Hguard as [_ Hlen]. apply Nat.eqb_eq in Hlen.
    pose proof (commitArgs_length (updatedDisplayArgs ba) 0 (displayArgs ui))
      as Hl.
    pose proof (commitArgs_flag (updatedDisplayArgs ba) 0 (displayArgs ui))
      as Hflag.
    pose proof (commitArgs_idempotent (updatedDisplayArgs ba) 0
                  (displayArgs ui)) as Hidem.
    rewrite Hcommit in Hl, Hflag, Hidem. simpl in Hl, Hflag, Hidem.
    assert (u < length (heap ba)) as Hlt
      by (rewrite Hheap; exact (lookup_lt_Some _ _ _ Hui)).
    eexists. split; [simpl; apply list_lookup_insert_eq; exact Hlt|].
    rewrite Hheap, Hui in Hi. injection Hi as <-. simpl.
    split; [exact Hl|]. split; [intros ->; apply Hflag; [lia | reflexivity]|].
    intros s2 Hflags2 Hn2. unfold doesDisplayNameNeedUpdating.
    rewrite Hflags2, Hn2. simpl.
    unfold lookup_info at 1. simpl.
    rewrite list_lookup_insert_eq by exact Hlt. simpl.
    destruct (negb (length dArgs =? 0)
              && (length (updatedDisplayArgs ba) =? length dArgs)).
    + rewrite Hidem by lia.
      unfold upd_info, lookup_info. simpl.
      rewrite list_lookup_insert_eq by exact Hlt. simpl.
      eexists _, _. split; [reflexivity|]. simpl.
      split; [apply list_lookup_insert_eq; rewrite length_insert; exact Hlt|].
      reflexivity.
    + eexists _, _. split; [reflexivity|]. simpl.
      split; [apply list_lookup_insert_eq; exact Hlt | reflexivity].
  - injection Hrun as <- <-.
    exists ui. rewrite Hheap. split; [exact Hui|].
    split; [reflexivity|]. split; [reflexivity|].
    intros s2 Hflags2 Hn2. unfold doesDisplayNameNeedUpdating.
    rewrite Hflags2, Hn2. simpl.
    unfold lookup_info. rewrite Hheap, Hui. simpl. rewrite Hguard.
    exists ba, ui. rewrite Hheap. repeat split. exact Hui.
Qed.

End DisplayRefresh.

(** ** Entering a call *)

Section EntrySucceeds.
Context `{fmt : FormatOutput}.

(** X3: once a previous state is recorded, [action] on a supported call
    whose callee has a name never fails, whatever the builder (provided
    its references are nodes of the store): it reports a visible update
    with no warning, appends exactly one new node to the node list and to
    the scope chain, and appends a calling link from the former top of
    the scope chain exactly when there was one. *)
Theorem X3_entry_always_succeeds s m b calleeName :
  refs_ok b ->
  prevState b <> None ->
  isSupportedFunctionCall s = true ->
  enteredName s = Some calleeName ->
  exists b' info,
    action (Some s) m b = Ok ((true, None), b')
    /\ heap b' = heap b ++ [info]
    /\ name info = calleeName
    /\ nodes b' = nodes b ++ [length (heap b)]
    /\ scopeChain b' = scopeChain b ++ [length (heap b)]
    /\ links b'
       = links b
         ++ match last (scopeChain b) with
            | Some c => [ {| source := c; target := length (heap b);
                             link_state := calling;
                             link_linkIndex := linkIndex b |} ]
            | None => []
            end.
Proof.
  intros Hok Hprev Hsup Hname.
  unfold enteredName in Hname.
  destruct (callee (node s)) as [c|] eqn:Hc; [|discriminate].
  destruct (calleeName_of c) as [nm|] eqn:Hnm; [|discriminate].
  injection Hname as ->.
  assert (exists r b',
            addEnteringFunction s (set_state (Some s) (set_warning None b))
            = Ok (true, b') /\ warning b' = None
            /\ r = b') as (r & b' & Hadd & Hwarn & _).
  { unfold addEnteringFunction. rewrite Hsup, Hc. simpl. rewrite Hnm. simpl.
    destruct (last (scopeChain b)) as [u|] eqn:Hu.
    - pose proof (refs_ok_last _ _ Hok Hu) as Hlt.
      destruct (lookup_lt_is_Some_2 _ _ Hlt) as [ci Hci].
      unfold lookup_info. simpl. rewrite Hci. simpl.
      destruct (bool_decide (length (nodes b) = 0));
        eexists _, _; (split; [reflexivity|]); split; reflexivity.
    - simpl.
      destruct (bool_decide (length (nodes b) = 0));
        eexists _, _; (split; [reflexivity|]); split; reflexivity. }
  destruct (addEnteringFunction_true _ _ _ Hadd)
    as (info & _ & Hname & Hh & Hn & Hsc & _ & _ & _ & Hl & _).
  unfold enteredName in Hname. rewrite Hc, Hnm in Hname.
  injection Hname as Hname.
  exists b', info. split.
  - unfold action. cbn zeta. cbn [state set_state prevState set_warning].
    destruct (prevState b); [|contradiction].
    rewrite Hadd. simpl. rewrite Hwarn. reflexivity.
  - simpl in *. repeat split; try assumption. congruence.
Qed.

Lemma addEnteringFunction_args s b b' c ci callerParams :
  addEnteringFunction s b = Ok (true, b') ->
  last (scopeChain b) = Some c ->
  heap b !! c = Some ci ->
  paramIds ci = Some callerParams ->
  exists info,
    heap b' = heap b ++ [info]
    /\ scopeChain b' = scopeChain b ++ [length (heap b)]
    /\ argumentIds info
       = substituteArg callerParams (argumentIds ci)
           <$> getArgIdentifiers (node s).
Proof.
  unfold addEnteringFunction. intros Hrun Hc Hci Hps.
  destruct (isSupportedFunctionCall s); [|discriminate].
  bind_inv Hrun. bind_inv Hrun.
  rewrite Hc in Hrun. rewrite (lookup_info_Some _ _ _ Hci) in Hrun.
  simpl in Hrun. rewrite Hps in Hrun. injection Hrun as <-.
  destruct (bool_decide (length (nodes b) = 0)); simpl;
    eexists; repeat split.
Qed.

(** X11: provenance is threaded through nested calls.  A call is entered
    from a frame with parameters [ps1]; the parameter names [params f] of
    the function entered are then recorded on its node; a second call is
    entered from inside it.  An argument of the second call that is a
    parameter of the first, itself bound to an argument that is a
    parameter of the outer frame, becomes the outer frame's own argument:
    the alias is resolved through both levels. *)
Theorem X11_provenance_composes s2 sf f s3 b0 b1 b2 b3 c1 i1 ps1 :
  last (scopeChain b0) = Some c1 ->
  heap b0 !! c1 = Some i1 ->
  paramIds i1 = Some ps1 ->
  addEnteringFunction s2 b0 = Ok (true, b1) ->
  func_ sf = Some f -> nativeFunc f = false ->
  updateParamsIdsFromCaller sf (last (scopeChain b1)) b1 = Ok b2 ->
  addEnteringFunction s3 b2 = Ok (true, b3) ->
  exists info3,
    heap b3 !! S (length (heap b0)) = Some info3
    /\ callerNode info3 = Some (length (heap b0))
    /\ forall i y k x j,
         getArgIdentifiers (node s3) !! i = Some (Some y) ->
         indexOf (params f) y = Some k ->
         getArgIdentifiers (node s2) !! k = Some (Some x) ->
         indexOf ps1 x = Some j ->
         argumentIds info3 !! i = Some (mjoin (argumentIds i1 !! j)).
Proof.
  intros Hc1 Hi1 Hps1 Hadd2 Hf Hnative Hpars Hadd3.
  destruct (addEnteringFunction_args _ _ _ _ _ _ Hadd2 Hc1 Hi1 Hps1)
    as (info2 & Hh1 & Hsc1 & Hargs2).
  unfold updateParamsIdsFromCaller in Hpars.
  rewrite Hf, Hnative, Hsc1, last_snoc in Hpars. simpl in Hpars.
  upd_inv Hpars. rewrite Hh1 in Hi.
  rewrite list_lookup_middle in Hi by reflexivity. injection Hi as <-.
  set (n2 := length (heap b0)) in *.
  set (info2' := with_paramIds (Some (params f)) info2).
  assert (heap (set_heap (<[n2 := info2']> (heap b1)) b1) !! n2
          = Some info2') as Hn2.
  { simpl. apply list_lookup_insert_eq. rewrite Hh1, length_app. simpl.
    unfold n2. lia. }
  assert (last (scopeChain (set_heap (<[n2 := info2']> (heap b1)) b1))
          = Some n2) as Hlast
    by (simpl; rewrite Hsc1; apply last_snoc).
  destruct (addEnteringFunction_args _ _ _ _ _ (params f) Hadd3 Hlast Hn2
              eq_refl) as (info3 & Hh3 & _ & Hargs3).
  destruct (addEnteringFunction_true _ _ _ Hadd3)
    as (info3' & _ & _ & Hh3' & _ & _ & Hcal & _).
  rewrite Hh3 in Hh3'. apply app_inj_tail in Hh3' as [_ <-].
  simpl in Hh3, Hcal.
  assert (length (<[n2 := info2']> (heap b1)) = S n2) as Hlen2
    by (rewrite length_insert, Hh1, length_app; simpl; unfold n2; lia).
  exists info3. split; [|split].
  - rewrite Hh3. apply list_lookup_middle. symmetry. exact Hlen2.
  - rewrite Hcal, Hsc1. apply last_snoc.
  - intros i y k x j Hi3 Hk Hi2 Hj.
    rewrite Hargs3, list_lookup_fmap, Hi3. simpl. rewrite Hk.
    simpl. rewrite Hargs2, list_lookup_fmap, Hi2. simpl. rewrite Hj.
    reflexivity.
Qed.

End EntrySucceeds.

(** ** Finishing, and the node to highlight *)

Section Finish.
Context `{fmt : FormatOutput}.

(** X12: [finish] before any call has been entered reads the [info] of a
    [null] root and throws.  After any balanced trace that has entered a
    call it succeeds: it sets the status of the root (node 0) to
    [finished] and changes nothing else. *)
Theorem X12_finish_marks_the_root trace b :
  finish initial = Throw TypeError
  /\ (balanced false None trace = true ->
      run trace initial = Ok b ->
      heap b <> [] ->
      exists b' ri,
        finish b = Ok b'
        /\ heap b !! 0 = Some ri
        /\ heap b' = <[0 := with_status finished ri]> (heap b)
        /\ nodes b' = nodes b /\ links b' = links b
        /\ scopeChain b' = scopeChain b
        /\ rootNodeIndex b' = rootNodeIndex b).
Proof.
  split; [reflexivity|]. intros Hbal Hrun Hne.
  destruct (run_Inv trace initial None b Inv_initial Hrun Hbal)
    as (g & HInv & _).
  destruct g as [[rootName k]|]; simpl in HInv;
    [|destruct HInv as (Hh & _); contradiction].
  destruct HInv as ((Hr & (ri & Hri & _) & _) & _).
  unfold finish. rewrite Hr. simpl.
  rewrite (upd_info_Some _ _ _ _ Hri).
  eexists _, ri. split; [reflexivity|]. repeat split. exact Hri.
Qed.

(** X13: the node to highlight.  Between [action] and [nextStep] it is
    the node of the previous state when that was a return statement, and
    the node of the current state otherwise; after a whole turn ([action]
    then [nextStep]) on a state, it is the node of that state; before any
    state has been recorded, asking for it throws. *)
Theorem X13_represented_node :
  (forall s m b p r b',
     prevState b = Some p ->
     action (Some s) m b = Ok (r, b') ->
     getRepresentedNode b'
     = Ok (if String.eqb (node_type (node p)) "ReturnStatement"
           then node p else node s))
  /\ (forall s m b b',
        step (Some s) m b = Ok b' -> getRepresentedNode b' = Ok (node s))
  /\ getRepresentedNode initial = Throw TypeError.
Proof.
  split; [|split; [|reflexivity]].
  - intros s m b p r b' Hp Hact.
    destruct (action_state _ _ _ _ _ Hact) as [Hs Hp'].
    unfold getRepresentedNode. rewrite Hp', Hp, Hs. simpl.
    destruct (String.eqb (node_type (node p)) "ReturnStatement"); reflexivity.
  - intros s m b b' Hstep. unfold step in Hstep.
    apply bind_Ok in Hstep as ([r b1] & Hact & Hstep). injection Hstep as <-.
    destruct (action_state _ _ _ _ _ Hact) as [Hs _].
    unfold getRepresentedNode, setPrevState. rewrite Hs. simpl.
    destruct (String.eqb (node_type (node s)) "ReturnStatement");
      [reflexivity | rewrite Hs; reflexivity].
Qed.

End Finish.

(** ** The error count *)

Lemma count_le_refl i : count_le i i.
Proof. unfold count_le. destruct (errorCount i); [lia | exact I]. Qed.

Lemma count_le_trans i1 i2 i3 :
  count_le i1 i2 -> count_le i2 i3 -> count_le i1 i3.
Proof.
  unfold count_le.
  destruct (errorCount i1), (errorCount i2), (errorCount i3);
    try contradiction; [lia | auto].
Qed.

Lemma count_le_incr i : count_le i (incrErrorCount i).
Proof.
  unfold count_le, incrErrorCount. simpl.
  destruct (errorCount i); simpl; [lia | exact I].
Qed.

Lemma counts_grow_refl h : counts_grow h h.
Proof. intros i info Hi. exists info. split; [exact Hi | apply count_le_refl]. Qed.

Lemma counts_grow_trans h1 h2 h3 :
  counts_grow h1 h2 -> counts_grow h2 h3 -> counts_grow h1 h3.
Proof.
  intros H12 H23 i info Hi.
  destruct (H12 i info Hi) as (info2 & Hi2 & Hle2).
  destruct (H23 i info2 Hi2) as (info3 & Hi3 & Hle3).
  exists info3. split; [exact Hi3 | exact (count_le_trans _ _ _ Hle2 Hle3)].
Qed.

Lemma counts_grow_insert h h1 id i i' :
  counts_grow h h1 -> h1 !! id = Some i -> count_le i i' ->
  counts_grow h (<[id := i']> h1).
Proof.
  intros Hgrow Hi Hle j info Hj.
  destruct (Hgrow j info Hj) as (info1 & Hj1 & Hle1).
  destruct (decide (j = id)) as [->|Hne].
  - rewrite Hi in Hj1. injection Hj1 as <-. exists i'.
    split; [apply list_lookup_insert_eq; exact (lookup_lt_Some _ _ _ Hi)|].
    exact (count_le_trans _ _ _ Hle1 Hle).
  - exists info1. split; [|exact Hle1].
    rewrite list_lookup_insert_ne by congruence. exact Hj1.
Qed.

Lemma counts_grow_app h info : counts_grow h (h ++ [info]).
Proof.
  intros i x Hi. exists x. split; [|apply count_le_refl].
  apply lookup_app_l_Some. exact Hi.
Qed.

Ltac solve_count_le :=
  unfold count_le, incrErrorCount; simpl;
  match goal with
  | |- context [errorCount ?i] => destruct (errorCount i); simpl
  end; first [ lia | exact I ].

(** Closes [counts_grow h h'] when [h'] is [h] after some node updates
    whose lookups are among the hypotheses. *)
Ltac solve_counts :=
  subst; simpl in *;
  repeat (eapply counts_grow_insert; [ | eassumption | solve_count_le ]);
  apply counts_grow_refl.

Section ErrorCount.
Context `{fmt : FormatOutput}.

Lemma getVariablesInScope_counts s u b b' :
  getVariablesInScope s u b = Ok b' -> counts_grow (heap b) (heap b').
Proof.
  unfold getVariablesInScope. intros Hrun.
  destruct (scope s); [destruct u|]; inv_run; solve_counts.
Qed.

Lemma updateParamsIdsFromCaller_counts s u b b' :
  updateParamsIdsFromCaller s u b = Ok b' -> counts_grow (heap b) (heap b').
Proof.
  unfold updateParamsIdsFromCaller. intros Hrun.
  destruct (func_ s) as [f|]; [destruct (nativeFunc f)|]; simpl in Hrun;
    inv_run; solve_counts.
Qed.

Lemma isFunctionReturnUnassigned_counts s b c b' :
  isFunctionReturnUnassigned s b = Ok (c, b') ->
  counts_grow (heap b) (heap b').
Proof.
  unfold isFunctionReturnUnassigned. intros Hrun.
  destruct (exitingNode b); [|inv_run; solve_counts].
  destruct (negb (String.eqb (node_type (node s)) "VariableDeclarator"));
    simpl in Hrun; inv_run; solve_counts.
Qed.

Lemma isVariableModifiedOutOfScope_counts s u b c b' :
  isVariableModifiedOutOfScope s u b = Ok (c, b') ->
  counts_grow (heap b) (heap b').
Proof.
  unfold isVariableModifiedOutOfScope. intros Hrun.
  destruct (String.eqb (node_type (node s)) "AssignmentExpression"
            && doneLeft s && doneRight s); [|inv_run; solve_counts].
  apply bind_Ok in Hrun as (ui & Hui & Hrun).
  apply bind_Ok in Hrun as (b1 & Hb1 & Hrun). injection Hrun as _ <-. simpl.
  destruct (includes (variablesDeclaredInScope ui) (left_name (node s)));
    simpl in Hb1.
  - inv_run. solve_counts.
  - apply bind_Ok in Hb1 as ([present caller] & _ & Hb1). simpl in Hb1.
    destruct present; inv_run; solve_counts.
Qed.

Lemma doesDisplayNameNeedUpdating_counts s u b c b' :
  doesDisplayNameNeedUpdating s u b = Ok (c, b') ->
  counts_grow (heap b) (heap b').
Proof.
  unfold doesDisplayNameNeedUpdating. intros Hrun.
  destruct (doneCallee_ s && negb (doneExec s)); [|inv_run; solve_counts].
  apply bind_Ok in Hrun as (b1 & Hb1 & Hrun).
  assert (heap b1 = heap b) as Hheap
    by (destruct (n_ s); inv_run; subst; reflexivity).
  rewrite <- Hheap. clear Hb1 Hheap.
  apply bind_Ok in Hrun as (ui & Hui & Hrun).
  destruct (negb (length (displayArgs ui) =? 0)
            && (length (updatedDisplayArgs b1) =? length (displayArgs ui)));
    [|inv_run; solve_counts].
  destruct (commitArgs 0 (updatedDisplayArgs b1) (displayArgs ui)).
  inv_run. solve_counts.
Qed.

Lemma updateEnteringFunction_counts s b c b' :
  updateEnteringFunction s b = Ok (c, b') -> counts_grow (heap b) (heap b').
Proof.
  unfold updateEnteringFunction. intros Hrun.
  apply bind_Ok in Hrun as (b1 & Hb1 & Hrun).
  apply bind_Ok in Hrun as (b2 & Hb2 & Hrun).
  apply getVariablesInScope_counts in Hb1.
  apply updateParamsIdsFromCaller_counts in Hb2.
  apply (counts_grow_trans _ _ _ Hb1). apply (counts_grow_trans _ _ _ Hb2).
  destruct (last (scopeChain b)) as [u|];
    [|injection Hrun as _ <-; apply counts_grow_refl].
  apply bind_Ok in Hrun as ([c1 b3] & Hb3 & Hrun). simpl in Hrun.
  apply isFunctionReturnUnassigned_counts in Hb3.
  apply (counts_grow_trans _ _ _ Hb3).
  destruct c1; [injection Hrun as _ <-; apply counts_grow_refl|].
  apply bind_Ok in Hrun as ([c2 b4] & Hb4 & Hrun). simpl in Hrun.
  apply isVariableModifiedOutOfScope_counts in Hb4.
  apply (counts_grow_trans _ _ _ Hb4).
  destruct c2; [injection Hrun as _ <-; apply counts_grow_refl|].
  exact (doesDisplayNameNeedUpdating_counts _ _ _ _ _ Hrun).
Qed.

Lemma removeExitingFunction_counts s m b c b' :
  removeExitingFunction s m b = Ok (c, b') -> counts_grow (heap b) (heap b').
Proof.
  unfold removeExitingFunction. intros Hrun.
  destruct (isSupportedReturnToCaller s);
    [|injection Hrun as _ <-; apply counts_grow_refl].
  apply bind_Ok in Hrun as (notRoot & _ & Hrun).
  destruct notRoot; [|injection Hrun as _ <-; apply counts_grow_refl].
  apply bind_Ok in Hrun as (bm & Hbm & Hrun). injection Hrun as _ <-.
  assert (counts_grow (heap b) (heap bm)) as Hgrow.
  { destruct (last (links b)) as [l|];
      [|injection Hbm as <-; apply counts_grow_refl].
    apply bind_Ok in Hbm as (b1 & Hexit & Hnode). simpl in Hnode.
    assert (counts_grow (heap b) (heap b1)) as H1.
    { unfold exitLink in Hexit.
      apply bind_Ok in Hexit as (v & _ & Hexit).
      destruct (returnsValue s v); [inv_run; solve_counts|].
      apply bind_Ok in Hexit as (r0 & _ & Hexit).
      apply bind_Ok in Hexit as (b2 & Hb2 & Hexit).
      apply bind_Ok in Hexit as (b3 & Hb3 & Hexit).
      apply bind_Ok in Hexit as (b4 & Hb4 & Hexit). injection Hexit as <-.
      destruct (decide (source l <> r0)); inv_run; solve_counts. }
    apply (counts_grow_trans _ _ _ H1).
    unfold exitNode in Hnode. inv_run. solve_counts. }
  simpl. destruct (decide (m < rootNodeIndex bm)); [|exact Hgrow].
  destruct (removeOldestReturned_fields m (set_assignmentWarningVar None bm))
    as (Hh & _).
  rewrite Hh. exact Hgrow.
Qed.

Lemma action_counts top m b r b' :
  action top m b = Ok (r, b') -> counts_grow (heap b) (heap b').
Proof.
  intros Hact.
  destruct (action_cases _ _ _ _ _ Hact)
    as [[-> _] | (s & -> & _ & [Hadd | [(_ & Hrem) | (_ & _ & c & Hupd)]])].
  - apply counts_grow_refl.
  - destruct (addEnteringFunction_true _ _ _ Hadd) as (info & _ & _ & Hh & _).
    rewrite Hh. apply counts_grow_app.
  - exact (removeExitingFunction_counts _ _ _ _ _ Hrem).
  - exact (updateEnteringFunction_counts _ _ _ _ Hupd).
Qed.

(** X14: along any trace, from any builder, no node ever leaves the
    store and the error count of a node never decreases; in particular
    the count kept on the root is only ever incremented. *)
Theorem X14_error_count_never_decreases trace : forall b b' i info,
  run trace b = Ok b' ->
  heap b !! i = Some info ->
  exists info',
    heap b' !! i = Some info'
    /\ match errorCount info with
       | Some n => exists n', errorCount info' = Some n' /\ n <= n'
       | None => errorCount info' = None
       end.
Proof.
  assert (forall b b', run trace b = Ok b' -> counts_grow (heap b) (heap b'))
    as Hgrow.
  { induction trace as [|[top m] rest IH]; intros b b' Hrun.
    - injection Hrun as <-. apply counts_grow_refl.
    - simpl in Hrun. apply bind_Ok in Hrun as (b1 & Hstep & Hrun).
      apply (counts_grow_trans _ (heap b1)); [|exact (IH _ _ Hrun)].
      unfold step in Hstep.
      apply bind_Ok in Hstep as ([r b2] & Hact & Hstep).
      injection Hstep as <-.
      pose proof (action_counts _ _ _ _ _ Hact) as H2.
      unfold setPrevState. destruct (state b2); exact H2. }
  intros b b' i info Hrun Hi.
  destruct (Hgrow b b' Hrun i info Hi) as (info' & Hi' & Hle).
  exists info'. split; [exact Hi'|].
  unfold count_le in Hle.
  destruct (errorCount info) as [n|], (errorCount info') as [n'|];
    try contradiction; [exists n'; split; [reflexivity | exact Hle] | reflexivity].
Qed.

End ErrorCount.

(** ** Warnings and the update flag *)

Section Warn.
Context `{fmt : FormatOutput}.

(** A step that is not a call reaches the update controller. *)
Lemma action_not_a_call s m b p :
  prevState b = Some p ->
  String.eqb (node_type (node s)) "CallExpression" = false ->
  action (Some s) m b
  = '(updated, b1) ←
      updateEnteringFunction s (set_state (Some s) (set_warning None b));
    Ok ((updated, warning b1), b1).
Proof.
  intros Hp Hty. unfold action. simpl. rewrite Hp.
  unfold addEnteringFunction, removeExitingFunction,
    isSupportedFunctionCall, isSupportedReturnToCaller.
  rewrite Hty. simpl. reflexivity.
Qed.

(** X15: the suppression of a repeated assignment warning only lowers
    the update flag.  On a completed assignment to a name declared in the
    current frame, [action] always reports the immutability warning and
    sets the status of the frame to [notice]; the flag it returns with
    the warning is [false] when the previous warning was for the same
    name, so a warning can come with no update. *)
Theorem X15_suppressed_assignment_still_warns s m b p u ui x :
  prevState b = Some p ->
  last (scopeChain b) = Some u ->
  heap b !! u = Some ui ->
  exitingNode b = None ->
  completed_assignment s x ->
  scope s = None -> func_ s = None -> doneCallee_ s = false ->
  includes (variablesDeclaredInScope ui) (Some x) = true ->
  exists b',
    action (Some s) m b
    = Ok ((bool_decide (assignmentWarningVar b <> Some (Some x)),
           Some immutabilityWarning), b')
    /\ heap b' = <[u := with_status notice ui]> (heap b)
    /\ assignmentWarningVar b' = Some (Some x)
    /\ nodes b' = nodes b /\ links b' = links b.
Proof.
  intros Hp Hu Hui Hexit (Hty & Hl & Hr & Hname) Hscope Hfunc Hcallee Hin.
  rewrite (action_not_a_call s m b p Hp) by (rewrite Hty; reflexivity).
  unfold updateEnteringFunction, getVariablesInScope,
    updateParamsIdsFromCaller, isFunctionReturnUnassigned,
    isVariableModifiedOutOfScope, doesDisplayNameNeedUpdating.
  rewrite Hscope, Hfunc, Hcallee, Hty, Hl, Hr, Hname. simpl.
  rewrite Hu, Hexit. simpl.
  rewrite (lookup_info_Some u _ ui) by exact Hui. simpl.
  rewrite Hin. simpl.
  rewrite (upd_info_Some u _ _ ui) by exact Hui. simpl.
  destruct (bool_decide (assignmentWarningVar b <> Some (Some x))); simpl;
    eexists; repeat split.
Qed.


(** X16: on a builder reached by a trace, a completed assignment in the
    frame [u] to a name that [u] does not declare and the root does is
    counted every time: [action] reports the mutation warning, increments
    the error count of the root and sets the status of both the frame and
    the root to [warning], also when the update flag is lowered because
    the previous warning was for the same name. *)
Theorem X16_repeated_mutation_counts_again trace s m b p u ui ri x :
  run trace initial = Ok b ->
  prevState b = Some p ->
  rootNode b = Some 0 ->
  heap b !! 0 = Some ri ->
  last (scopeChain b) = Some u ->
  heap b !! u = Some ui ->
  exitingNode b = None ->
  completed_assignment s x ->
  scope s = None -> func_ s = None -> doneCallee_ s = false ->
  includes (variablesDeclaredInScope ui) (Some x) = false ->
  includes (variablesDeclaredInScope ri) (Some x) = true ->
  exists b' ri' ui',
    action (Some s) m b
    = Ok ((bool_decide (assignmentWarningVar b <> Some (Some x)),
           Some mutatedWarning), b')
    /\ heap b' !! 0 = Some ri'
    /\ errorCount ri' = S <$> errorCount ri
    /\ status ri' = warning_
    /\ heap b' !! u = Some ui'
    /\ status ui' = warning_
    /\ assignmentWarningVar b' = Some (Some x).
Proof.
  intros Hrun Hp Hroot Hri Hu Hui Hexit (Hty & Hl & Hr & Hname)
    Hscope Hfunc Hcallee Hout Hin.
  destruct (run_creation_order trace b Hrun) as [_ Hcallers].
  assert (u <> 0) as Hne by (intros ->; congruence).
  pose proof (lookup_lt_Some _ _ _ Hui) as Hlt.
  pose proof (lookup_lt_Some _ _ _ Hri) as Hlt0.
  rewrite (action_not_a_call s m b p Hp) by (rewrite Hty; reflexivity).
  unfold updateEnteringFunction, getVariablesInScope,
    updateParamsIdsFromCaller, isFunctionReturnUnassigned,
    isVariableModifiedOutOfScope, doesDisplayNameNeedUpdating.
  rewrite Hscope, Hfunc, Hcallee, Hty, Hl, Hr, Hname. simpl.
  rewrite Hu, Hexit. simpl.
  rewrite (lookup_info_Some u _ ui) by exact Hui. simpl.
  rewrite Hout. simpl.
  rewrite (scopeWalk_creation_order (heap b) (Some x) ri Hcallers Hri)
    by lia.
  rewrite Hin. simpl. rewrite Hroot. simpl.
  rewrite (upd_info_Some 0 _ _ ri) by exact Hri. simpl.
  rewrite (upd_info_Some u _ _ ui)
    by (simpl; rewrite list_lookup_insert_ne by congruence; exact Hui).
  simpl.
  rewrite (upd_info_Some 0 _ _ (incrErrorCount ri))
    by (simpl; rewrite list_lookup_insert_ne by congruence;
        apply list_lookup_insert_eq; exact Hlt0).
  simpl.
  eexists _, (with_status warning_ (incrErrorCount ri)),
    (with_status warning_ ui).
  split;
    [destruct (bool_decide (assignmentWarningVar b <> Some (Some x)));
     simpl; reflexivity|].
  simpl.
  split.
  { apply list_lookup_insert_eq.
    rewrite !length_insert. exact Hlt0. }
  split; [reflexivity|]. split; [reflexivity|].
  split.
  { rewrite list_lookup_insert_ne by congruence.
    apply list_lookup_insert_eq. rewrite length_insert. exact Hlt. }
  split; reflexivity.
Qed.

End Warn.

(** ** The theorems at concrete steps *)

Lemma X1_unsupported_steps_keep_graph_witness :
  exists r b',
    action (fmt := Demo.fmt) (Some (Demo.at_node Steps.member_call)) 1
      Demo.in_a = Ok (r, b')
    /\ nodes b' = nodes Demo.in_a /\ links b' = links Demo.in_a
    /\ scopeChain b' = scopeChain Demo.in_a
    /\ rootNodeIndex b' = rootNodeIndex Demo.in_a
    /\ linkIndex b' = linkIndex Demo.in_a
    /\ rootNode b' = rootNode Demo.in_a
    /\ heap_static (heap Demo.in_a) (heap b').
Proof.
  assert (exists r b',
            action (fmt := Demo.fmt) (Some (Demo.at_node Steps.member_call))
              1 Demo.in_a = Ok (r, b')) as (r & b' & Hact)
    by (eexists _, _; vm_compute; reflexivity).
  exists r, b'. split; [exact Hact|].
  exact (X1_unsupported_steps_keep_graph (fmt := Demo.fmt)
           (Demo.at_node Steps.member_call) 1 Demo.in_a r b'
           (or_introl eq_refl) Hact).
Defined.

Lemma X2_wrapper_exit_not_processed_witness :
  removeExitingFunction (fmt := Demo.fmt)
    (Demo.exiting (Demo.wrapper "Program") Demo.one) 1 Demo.in_a
  = Ok (false, Demo.in_a).
Proof.
  assert (exists ri, heap Demo.in_a !! 0 = Some ri /\ name ri = "Program")
    as (ri & Hri & Hname) by (eexists; split; vm_compute; reflexivity).
  refine (proj1 (X2_wrapper_exit_not_processed (fmt := Demo.fmt)
                  (Demo.exiting (Demo.wrapper "Program") Demo.one) 1
                  Demo.in_a 0 ri
                  {| callee_type := "FunctionExpression";
                     callee_name := None; callee_id := Some "Program" |}
                  eq_refl Hri eq_refl eq_refl eq_refl _)).
  rewrite Hname. reflexivity.
Defined.

Lemma X3_entry_always_succeeds_witness :
  exists b' info,
    action (fmt := Demo.fmt) (Some (Demo.entering (Demo.call "c" []))) 1
      Demo.in_a = Ok ((true, None), b')
    /\ heap b' = heap Demo.in_a ++ [info]
    /\ name info = "c"
    /\ nodes b' = nodes Demo.in_a ++ [2]
    /\ scopeChain b' = [0; 1; 2]
    /\ links b'
       = links Demo.in_a
         ++ [ {| source := 1; target := 2; link_state := calling;
                 link_linkIndex := 1 |} ].
Proof.
  assert (refs_ok Demo.in_a) as Hrefs.
  { apply (run_refs_ok (fmt := Demo.fmt) Demo.trace_enter_a initial);
      [exact refs_ok_initial | vm_compute; reflexivity]. }
  exact (X3_entry_always_succeeds (fmt := Demo.fmt)
           (Demo.entering (Demo.call "c" [])) 1 Demo.in_a "c"
           Hrefs ltac:(discriminate) eq_refl eq_refl).
Defined.

Lemma X4_retained_window_bounded_witness :
  exists b,
    run (fmt := Demo.fmt) Demo.trace_nested_returns initial = Ok b
    /\ rootNodeIndex b <= 5.
Proof.
  assert (exists b, run (fmt := Demo.fmt) Demo.trace_nested_returns initial
                    = Ok b) as (b & Hrun)
    by (eexists; vm_compute; reflexivity).
  exists b. split; [exact Hrun|].
  apply (proj2 (X4_retained_window_bounded (fmt := Demo.fmt)) 5
           Demo.trace_nested_returns initial b); [ | simpl; lia | exact Hrun].
  unfold limits_below, Demo.trace_nested_returns.
  repeat (apply Forall_cons; split; [simpl; lia|]). apply Forall_nil_2.
Defined.

Lemma X5_link_numbers_unique_witness :
  exists b,
    run (fmt := Demo.fmt) Demo.trace_nested_returns initial = Ok b
    /\ links_unique b /\ links_below_counter b.
Proof.
  assert (exists b, run (fmt := Demo.fmt) Demo.trace_nested_returns initial
                    = Ok b) as (b & Hrun)
    by (eexists; vm_compute; reflexivity).
  exists b. split; [exact Hrun|].
  exact (X5_link_numbers_unique (fmt := Demo.fmt)
           Demo.trace_nested_returns b Hrun).
Defined.

Lemma X6_links_join_distinct_nodes_witness :
  Forall (fun l => source l <> target l
                   /\ source l < length (heap Demo.in_b)
                   /\ target l < length (heap Demo.in_b)) (links Demo.in_b).
Proof.
  apply (X6_links_join_distinct_nodes (fmt := Demo.fmt) Demo.trace_in_b).
  vm_compute. reflexivity.
Defined.

Lemma X7_scope_chain_is_creation_order_witness :
  scopeChain Demo.a_returned = seq 0 (length (heap Demo.a_returned))
  /\ (forall i info,
        heap Demo.a_returned !! i = Some info ->
        callerNode info = previous i).
Proof.
  apply (X7_scope_chain_is_creation_order (fmt := Demo.fmt)
           Demo.trace_a_returned).
  vm_compute. reflexivity.
Defined.

Lemma X8_walk_always_ends_at_root_witness :
  scopeWalk (length (heap Demo.in_b)) (heap Demo.in_b) 2 (Some "x")
  = Throw TypeError
  /\ scopeWalk (length (heap Demo.in_b)) (heap Demo.in_b) 2 (Some "main")
     = Ok (true, 0).
Proof.
  assert (run (fmt := Demo.fmt) Demo.trace_in_b initial = Ok Demo.in_b)
    as Hrun by (vm_compute; reflexivity).
  assert (exists r0, heap Demo.in_b !! 0 = Some r0
                     /\ variablesDeclaredInScope r0 = Some ["main"])
    as (r0 & Hr0 & Hvars) by (eexists; split; vm_compute; reflexivity).
  assert (2 < length (heap Demo.in_b)) as Hu by (simpl; lia).
  split.
  - rewrite (proj1 (X8_walk_always_ends_at_root (fmt := Demo.fmt)
                      Demo.trace_in_b Demo.in_b r0 2 (Some "x")
                      Hrun Hr0 Hu)).
    rewrite Hvars. reflexivity.
  - rewrite (proj1 (X8_walk_always_ends_at_root (fmt := Demo.fmt)
                      Demo.trace_in_b Demo.in_b r0 2 (Some "main")
                      Hrun Hr0 Hu)).
    rewrite Hvars. reflexivity.
Defined.

Lemma X9_pending_marker_cleared_witness :
  exists c b',
    updateEnteringFunction (fmt := Demo.fmt) (Demo.assigned "x")
      Demo.a_returned = Ok (c, b')
    /\ exitingNode Demo.a_returned = Some 1
    /\ exitingNode b' = None
    /\ c = true /\ warning b' = Some unassignedWarning.
Proof.
  assert (exists c b',
            updateEnteringFunction (fmt := Demo.fmt) (Demo.assigned "x")
              Demo.a_returned = Ok (c, b')) as (c & b' & Hupd)
    by (eexists _, _; vm_compute; reflexivity).
  exists c, b'. split; [exact Hupd|]. split; [reflexivity|].
  destruct (X9_pending_marker_cleared (fmt := Demo.fmt) (Demo.assigned "x")
              Demo.a_returned c b' ltac:(discriminate) Hupd)
    as (Hnone & Hfires & _).
  split; [exact Hnone|].
  apply Hfires; discriminate.
Defined.

Lemma X10_display_refresh_idempotent_witness :
  exists c b1 ui1 b2 ui2,
    doesDisplayNameNeedUpdating (fmt := Demo.fmt)
      (Steps.evaluating (Demo.call "outer" [Identifier "varA"]) 1 Steps.two)
      1 Demo.in_outer = Ok (c, b1)
    /\ heap b1 !! 1 = Some ui1
    /\ length (displayArgs ui1) = 1
    /\ doesDisplayNameNeedUpdating (fmt := Demo.fmt)
         (Steps.evaluating (Demo.call "outer" [Identifier "varA"]) 0
            Steps.two)
         1 b1 = Ok (false, b2)
    /\ heap b2 !! 1 = Some ui2
    /\ displayArgs ui2 = displayArgs ui1.
Proof.
  assert (exists c b1,
            doesDisplayNameNeedUpdating (fmt := Demo.fmt)
              (Steps.evaluating (Demo.call "outer" [Identifier "varA"]) 1
                 Steps.two)
              1 Demo.in_outer = Ok (c, b1)) as (c & b1 & Hrun)
    by (eexists _, _; vm_compute; reflexivity).
  assert (exists ui, heap Demo.in_outer !! 1 = Some ui
                     /\ length (displayArgs ui) = 1) as (ui & Hui & Hlen)
    by (eexists; split; vm_compute; reflexivity).
  destruct (X10_display_refresh_idempotent (fmt := Demo.fmt)
              (Steps.evaluating (Demo.call "outer" [Identifier "varA"]) 1
                 Steps.two)
              1 Demo.in_outer ui c b1 eq_refl Hui Hrun)
    as (ui1 & Hui1 & Hlen1 & _ & Hagain).
  destruct (Hagain
              (Steps.evaluating (Demo.call "outer" [Identifier "varA"]) 0
                 Steps.two) eq_refl eq_refl)
    as (b2 & ui2 & Hrun2 & Hui2 & Hsame).
  exists c, b1, ui1, b2, ui2.
  split; [exact Hrun|]. split; [exact Hui1|].
  split; [rewrite Hlen1; exact Hlen|].
  split; [exact Hrun2|]. split; [exact Hui2 | exact Hsame].
Defined.

Lemma X11_provenance_composes_witness :
  exists b1 b2 b3 info3,
    addEnteringFunction (fmt := Demo.fmt)
      (Demo.entering (Demo.call "mid" [Identifier "x"])) Demo.in_outer
    = Ok (true, b1)
    /\ updateParamsIdsFromCaller (Demo.in_body ["y"] ["y"])
         (last (scopeChain b1)) b1 = Ok b2
    /\ addEnteringFunction (fmt := Demo.fmt)
         (Demo.entering (Demo.call "inner" [Identifier "y"])) b2
       = Ok (true, b3)
    /\ heap b3 !! 3 = Some info3
    /\ callerNode info3 = Some 2
    /\ argumentIds info3 !! 0 = Some (Some "varA").
Proof.
  assert (exists b1,
            addEnteringFunction (fmt := Demo.fmt)
              (Demo.entering (Demo.call "mid" [Identifier "x"]))
              Demo.in_outer = Ok (true, b1)) as (b1 & H1)
    by (eexists; vm_compute; reflexivity).
  assert (exists b2,
            updateParamsIdsFromCaller (Demo.in_body ["y"] ["y"])
              (last (scopeChain b1)) b1 = Ok b2) as (b2 & H2).
  { vm_compute in H1. injection H1 as <-. eexists. vm_compute. reflexivity. }
  assert (exists b3,
            addEnteringFunction (fmt := Demo.fmt)
              (Demo.entering (Demo.call "inner" [Identifier "y"])) b2
            = Ok (true, b3)) as (b3 & H3).
  { pose proof H1 as H1'. vm_compute in H1'. injection H1' as <-.
    pose proof H2 as H2'. vm_compute in H2'. injection H2' as <-.
    eexists. vm_compute. reflexivity. }
  assert (exists i1, heap Demo.in_outer !! 1 = Some i1
                     /\ paramIds i1 = Some ["x"]
                     /\ argumentIds i1 !! 0 = Some (Some "varA"))
    as (i1 & Hi1 & Hps & Harg)
    by (eexists; repeat split; vm_compute; reflexivity).
  destruct (X11_provenance_composes (fmt := Demo.fmt)
              (Demo.entering (Demo.call "mid" [Identifier "x"]))
              (Demo.in_body ["y"] ["y"])
              {| nativeFunc := false; params := ["y"] |}
              (Demo.entering (Demo.call "inner" [Identifier "y"]))
              Demo.in_outer b1 b2 b3 1 i1 ["x"]
              eq_refl Hi1 Hps H1 eq_refl eq_refl H2 H3)
    as (info3 & Hinfo3 & Hcaller & Hprov).
  exists b1, b2, b3, info3.
  split; [exact H1|]. split; [exact H2|]. split; [exact H3|].
  split; [exact Hinfo3|]. split; [exact Hcaller|].
  rewrite (Hprov 0 "y" 0 "x" 0 eq_refl eq_refl eq_refl eq_refl).
  rewrite Harg. reflexivity.
Defined.

Lemma X12_finish_marks_the_root_witness :
  exists b b' ri,
    run (fmt := Demo.fmt) Demo.trace_nested_returns initial = Ok b
    /\ finish b = Ok b'
    /\ heap b !! 0 = Some ri
    /\ heap b' = <[0 := with_status finished ri]> (heap b)
    /\ nodes b' = nodes b /\ links b' = links b.
Proof.
  assert (exists b, run (fmt := Demo.fmt) Demo.trace_nested_returns initial
                    = Ok b /\ heap b <> []) as (b & Hrun & Hne)
    by (eexists; split; [vm_compute; reflexivity | discriminate]).
  destruct (proj2 (X12_finish_marks_the_root (fmt := Demo.fmt)
                     Demo.trace_nested_returns b) eq_refl Hrun Hne)
    as (b' & ri & Hfin & Hri & Hheap & Hnodes & Hlinks & _).
  exists b, b', ri. repeat split; assumption.
Defined.

Lemma X13_represented_node_witness :
  exists b r b',
    run (fmt := Demo.fmt) Steps.trace_at_return initial = Ok b
    /\ action (fmt := Demo.fmt)
         (Some (Demo.exiting (Demo.call "a" []) Demo.one)) 1 b = Ok (r, b')
    /\ getRepresentedNode b' = Ok Steps.return_statement.
Proof.
  assert (exists b, run (fmt := Demo.fmt) Steps.trace_at_return initial
                    = Ok b
                    /\ prevState b
                       = Some (Demo.at_node Steps.return_statement))
    as (b & Hrun & Hprev)
    by (eexists; split; vm_compute; reflexivity).
  assert (exists r b',
            action (fmt := Demo.fmt)
              (Some (Demo.exiting (Demo.call "a" []) Demo.one)) 1 b
            = Ok (r, b')) as (r & b' & Hact).
  { pose proof Hrun as Hrun'. vm_compute in Hrun'. injection Hrun' as <-.
    eexists _, _. vm_compute. reflexivity. }
  exists b, r, b'. split; [exact Hrun|]. split; [exact Hact|].
  exact (proj1 (X13_represented_node (fmt := Demo.fmt))
           (Demo.exiting (Demo.call "a" []) Demo.one) 1 b
           (Demo.at_node Steps.return_statement) r b' Hprev Hact).
Defined.

Lemma X14_error_count_never_decreases_witness :
  exists b' info',
    run (fmt := Demo.fmt)
      [ (Some (Demo.exiting (Demo.call "a" []) Demo.undefined), 1) ]
      Demo.in_a = Ok b'
    /\ heap b' !! 0 = Some info'
    /\ exists n', errorCount info' = Some n' /\ 0 <= n'.
Proof.
  assert (exists b',
            run (fmt := Demo.fmt)
              [ (Some (Demo.exiting (Demo.call "a" []) Demo.undefined), 1) ]
              Demo.in_a = Ok b') as (b' & Hrun)
    by (eexists; vm_compute; reflexivity).
  assert (exists info, heap Demo.in_a !! 0 = Some info
                       /\ errorCount info = Some 0) as (info & Hi & Hcount)
    by (eexists; split; vm_compute; reflexivity).
  destruct (X14_error_count_never_decreases (fmt := Demo.fmt)
              [ (Some (Demo.exiting (Demo.call "a" []) Demo.undefined), 1) ]
              Demo.in_a b' 0 info Hrun Hi) as (info' & Hi' & Hle).
  rewrite Hcount in Hle.
  exists b', info'. split; [exact Hrun|]. split; [exact Hi' | exact Hle].
Defined.

Lemma X15_suppressed_assignment_still_warns_witness :
  exists b',
    action (fmt := Demo.fmt) (Some (Demo.assigned "x")) 1
      (set_assignmentWarningVar (Some (Some "x")) Demo.in_root_scope)
    = Ok ((false, Some immutabilityWarning), b')
    /\ assignmentWarningVar b' = Some (Some "x").
Proof.
  assert (exists p ui,
            prevState Demo.in_root_scope = Some p
            /\ heap Demo.in_root_scope !! 0 = Some ui
            /\ includes (variablesDeclaredInScope ui) (Some "x") = true)
    as (p & ui & Hp & Hui & Hin)
    by (eexists _, _; repeat split; vm_compute; reflexivity).
  destruct (X15_suppressed_assignment_still_warns (fmt := Demo.fmt)
              (Demo.assigned "x") 1
              (set_assignmentWarningVar (Some (Some "x")) Demo.in_root_scope)
              p 0 ui "x" Hp eq_refl Hui eq_refl
              (conj eq_refl (conj eq_refl (conj eq_refl eq_refl)))
              eq_refl eq_refl eq_refl Hin)
    as (b' & Hact & _ & Hvar & _).
  exists b'. split; [exact Hact | exact Hvar].
Defined.

Lemma X16_repeated_mutation_counts_again_witness :
  exists b b' ri',
    run (fmt := Demo.fmt)
      (Steps.trace_in_a_scoped ++ [ (Some (Demo.assigned "x"), 1) ])
      initial = Ok b
    /\ action (fmt := Demo.fmt) (Some (Demo.assigned "x")) 1 b
       = Ok ((false, Some mutatedWarning), b')
    /\ heap b' !! 0 = Some ri'
    /\ errorCount ri' = Some 2.
Proof.
  assert (exists b,
            run (fmt := Demo.fmt)
              (Steps.trace_in_a_scoped ++ [ (Some (Demo.assigned "x"), 1) ])
              initial = Ok b) as (b & Hrun)
    by (eexists; vm_compute; reflexivity).
  assert (exists p ri ui,
            prevState b = Some p
            /\ heap b !! 0 = Some ri
            /\ heap b !! 1 = Some ui
            /\ (rootNode b = Some 0
                /\ last (scopeChain b) = Some 1
                /\ exitingNode b = None
                /\ assignmentWarningVar b = Some (Some "x"))
            /\ includes (variablesDeclaredInScope ui) (Some "x") = false
            /\ includes (variablesDeclaredInScope ri) (Some "x") = true
            /\ errorCount ri = Some 1)
    as (p & ri & ui & Hp & Hri & Hui & (Hroot & Hu & Hexit & Hvar)
        & Hout & Hin & Hcount).
  { pose proof Hrun as Hrun'. vm_compute in Hrun'. injection Hrun' as <-.
    eexists _, _, _.
    split; [vm_compute; reflexivity|].
    split; [vm_compute; reflexivity|].
    split; [vm_compute; reflexivity|].
    split; [vm_compute; auto|].
    split; [vm_compute; reflexivity|].
    split; vm_compute; reflexivity. }
  destruct (X16_repeated_mutation_counts_again (fmt := Demo.fmt)
              (Steps.trace_in_a_scoped ++ [ (Some (Demo.assigned "x"), 1) ])
              (Demo.assigned "x") 1 b p 1 ui ri "x"
              Hrun Hp Hroot Hri Hu Hui Hexit
              (conj eq_refl (conj eq_refl (conj eq_refl eq_refl)))
              eq_refl eq_refl eq_refl Hout Hin)
    as (b' & ri' & ui' & Hact & Hri' & Hcount' & _).
  exists b, b', ri'. split; [exact Hrun|].
  split.
  { rewrite Hact, Hvar. reflexivity. }
  split; [exact Hri'|]. rewrite Hcount', Hcount. reflexivity.
Defined.

(** ** The error count is a number *)

Section Counted.
Context `{fmt : FormatOutput}.

Lemma addEnteringFunction_count s b b' :
  addEnteringFunction s b = Ok (true, b') ->
  exists info,
    heap b' = heap b ++ [info]
    /\ (type info = root <-> errorCount info <> None)
    /\ (rootNode b' = rootNode b
        \/ (rootNode b' = Some (length (heap b)) /\ type info = root)).
Proof.
  unfold addEnteringFunction. intros Hrun.
  destruct (isSupportedFunctionCall s); [|inv_run; discriminate].
  apply bind_Ok in Hrun as (c & _ & Hrun).
  apply bind_Ok in Hrun as (calleeName & _ & Hrun).
  apply bind_Ok in Hrun as ([rec argIds] & _ & Hrun).
  destruct (last (scopeChain b)) as [cid|]; simpl in Hrun;
    injection Hrun as <-;
    destruct (bool_decide (length (nodes b) = 0)); simpl;
    eexists; (split; [reflexivity|]); simpl;
    (split; [split; [discriminate + (intros _; discriminate)
                    | congruence + reflexivity]|]);
    first [left; reflexivity | right; split; reflexivity].
Qed.

(** The store after a step that adds no node: every old node is still
    there with its type and with a count exactly when it had one. *)
Lemma counted_same_store (b b' : Builder) :
  heap_static (heap b) (heap b') ->
  counts_grow (heap b) (heap b') ->
  rootNode b' = rootNode b ->
  counted b -> counted b'.
Proof.
  intros Hst Hgrow Hroot [Hcount Hr]. split.
  - intros i info' Hi'.
    destruct (Forall2_lookup_r _ _ _ _ _ Hst Hi') as (info & Hi & Hstatic).
    destruct (Hgrow i info Hi) as (info2 & Hi2 & Hle).
    rewrite Hi' in Hi2. injection Hi2 as <-.
    destruct Hstatic as (_ & Hty & _). rewrite Hty.
    rewrite (Hcount i info Hi). unfold count_le in Hle.
    destruct (errorCount info), (errorCount info'); try contradiction;
      split; congruence.
  - intros r Hrn. rewrite Hroot in Hrn.
    destruct (Hr r Hrn) as (ri & Hri & Hty).
    destruct (Forall2_lookup_l _ _ _ _ _ Hst Hri) as (ri' & Hri' & Hstatic).
    exists ri'. split; [exact Hri'|].
    destruct Hstatic as (_ & Hty' & _). congruence.
Qed.

Lemma action_counted top m b r b' :
  counted b -> action top m b = Ok (r, b') -> counted b'.
Proof.
  intros Hc Hact.
  pose proof (action_counts _ _ _ _ _ Hact) as Hgrow.
  destruct (action_cases _ _ _ _ _ Hact)
    as [[-> _] | (s & -> & _ & [Hadd | [(_ & Hrem) | (_ & _ & c & Hupd)]])].
  - exact Hc.
  - destruct (addEnteringFunction_count _ _ _ Hadd)
      as (info & Hh & Hinfo & Hroot).
    simpl in Hh. destruct Hc as [Hcount Hr]. split.
    + intros i x Hi. rewrite Hh in Hi.
      apply lookup_app_Some in Hi as [Hi | [_ Hi]].
      * exact (Hcount i x Hi).
      * destruct (i - length (heap b)) as [|k]; simpl in Hi;
          [injection Hi as <-; exact Hinfo | discriminate].
    + intros r0 Hr0. rewrite Hh. destruct Hroot as [Hsame | [Hnew Hty]].
      * rewrite Hsame in Hr0. destruct (Hr r0 Hr0) as (ri & Hri & Htyr).
        exists ri. split; [apply lookup_app_l_Some; exact Hri | exact Htyr].
      * simpl in Hnew. rewrite Hnew in Hr0. injection Hr0 as <-.
        exists info. split; [apply list_lookup_middle; reflexivity | exact Hty].
  - destruct (removeExitingFunction_true _ _ _ _ Hrem)
      as (_ & _ & bm & Hst & _ & Hroot & _ & _ & _ & _ & Hb').
    destruct (removeOldestReturned_fields m bm) as (Hh & Hrest).
    apply (counted_same_store (set_state (Some s) (set_warning None b)));
      [ | exact Hgrow | | exact Hc].
    + rewrite Hb'. destruct (decide (m < rootNodeIndex bm));
        rewrite ?Hh; exact Hst.
    + rewrite Hb'. destruct (decide (m < rootNodeIndex bm));
        [|exact Hroot].
      unfold removeOldestReturned.
      destruct (decide (1 < length (nodes bm))); simpl; exact Hroot.
  - destruct (updateEnteringFunction_frame _ _ _ _ Hupd)
      as (_ & _ & _ & Hroot & _ & _ & _ & _ & _ & Hst).
    exact (counted_same_store (set_state (Some s) (set_warning None b)) b'
             Hst Hgrow Hroot Hc).
Qed.

(** X17: the error count is always a number.  Along any trace from the
    empty builder exactly the nodes of type [root] carry an error count,
    and the root of the builder, once set, is a node of the store with a
    numeric count: [rootNode.info.errorCount++] never acts on a missing
    count. *)
Theorem X17_error_count_is_a_number trace b :
  run trace initial = Ok b ->
  (forall i info,
     heap b !! i = Some info ->
     (type info = root <-> errorCount info <> None))
  /\ (forall r, rootNode b = Some r ->
        exists ri n,
          heap b !! r = Some ri /\ type ri = root
          /\ errorCount ri = Some n).
Proof.
  intros Hrun.
  assert (counted b) as [Hcount Hr].
  { apply (run_invariant counted) with (trace := trace) (b := initial);
      [| | |exact Hrun].
    - intros top m b0 r b1. apply action_counted.
    - intros b0 v H0. exact H0.
    - split; [intros i info Hi; discriminate | intros r Hr; discriminate]. }
  split; [exact Hcount|].
  intros r Hrn. destruct (Hr r Hrn) as (ri & Hri & Hty).
  destruct (errorCount ri) as [n|] eqn:Hn.
  - exists ri, n. repeat split; assumption.
  - exfalso. apply (proj1 (Hcount r ri Hri) Hty). exact Hn.
Qed.

End Counted.

Lemma X17_error_count_is_a_number_witness :
  exists b ri n,
    run (fmt := Demo.fmt) Demo.trace_nested_returns initial = Ok b
    /\ heap b !! 0 = Some ri
    /\ type ri = root
    /\ errorCount ri = Some n.
Proof.
  assert (exists b, run (fmt := Demo.fmt) Demo.trace_nested_returns initial
                    = Ok b /\ rootNode b = Some 0) as (b & Hrun & Hroot)
    by (eexists; split; vm_compute; reflexivity).
  destruct (proj2 (X17_error_count_is_a_number (fmt := Demo.fmt)
                     Demo.trace_nested_returns b Hrun) 0 Hroot)
    as (ri & n & Hri & Hty & Hn).
  exists b, ri, n. split; [exact Hrun|]. split; [exact Hri|].
  split; [exact Hty | exact Hn].
Defined.

(** ** The layout of the link list *)

Lemma returning_first_sublist (l1 l2 : list CallLink) :
  l1 `sublist_of` l2 -> returning_first l2 -> returning_first l1.
Proof.
  induction 1 as [|x l1 l2 Hsub IH|x l1 l2 Hsub IH]; simpl.
  - auto.
  - intros [Hx Hrest]. split; [|exact (IH Hrest)].
    intros Hc. apply Forall_forall. intros y Hy.
    pose proof (Hx Hc) as Hall. rewrite Forall_forall in Hall.
    apply Hall. exact (elem_of_sublist _ _ _ Hy Hsub).
  - intros [_ Hrest]. exact (IH Hrest).
Qed.

Lemma returning_first_snoc (ls : list CallLink) (l : CallLink) :
  link_state l = calling -> returning_first ls -> returning_first (ls ++ [l]).
Proof.
  intros Hl. induction ls as [|x ls IH]; simpl.
  - intros _. split; [intros _; constructor | exact I].
  - intros [Hx Hrest]. split; [|exact (IH Hrest)].
    intros Hc. apply Forall_app. split; [exact (Hx Hc)|].
    constructor; [exact Hl | constructor].
Qed.

Lemma returning_first_lookup (ls : list CallLink) :
  returning_first ls ->
  forall i j li lj,
    i < j -> ls !! i = Some li -> ls !! j = Some lj ->
    link_state lj = returning_ -> link_state li = returning_.
Proof.
  induction ls as [|x ls IH]; intros Hord i j li lj Hlt Hi Hj Hret;
    [discriminate|].
  destruct Hord as [Hx Hrest]. destruct j as [|j]; [lia|]. simpl in Hj.
  destruct i as [|i]; simpl in Hi.
  - injection Hi as <-. destruct (link_state x) eqn:Hsx; [|reflexivity].
    pose proof (Hx eq_refl) as Hall. rewrite Forall_forall in Hall.
    rewrite (Hall lj (list_elem_of_lookup_2 _ _ _ Hj)) in Hret.
    discriminate.
  - apply (IH Hrest i j li lj); [lia | assumption..].
Qed.

Section Layout.
Context `{fmt : FormatOutput}.

Lemma action_returning_first top m b r b' :
  returning_first (links b) ->
  action top m b = Ok (r, b') ->
  returning_first (links b').
Proof.
  intros Hord Hact.
  destruct (action_links _ _ _ _ _ Hact)
    as [[Hsub _] | [(c & _ & Hl & _) | (l & _ & Hsub & _)]].
  - exact (returning_first_sublist _ _ Hsub Hord).
  - rewrite Hl. apply returning_first_snoc; [reflexivity | exact Hord].
  - apply (returning_first_sublist _ _ Hsub). simpl.
    split; [discriminate | exact Hord].
Qed.

(** X18: the layout of the link list.  Along any trace from the empty
    builder the returning links come first and the calling links last: a
    link that stands before a returning link is itself returning.  So the
    link that an exit takes, the last one, is a calling link as long as
    any calling link is left. *)
Theorem X18_returning_links_come_first trace b :
  run trace initial = Ok b ->
  (forall i j li lj,
     i < j -> links b !! i = Some li -> links b !! j = Some lj ->
     link_state lj = returning_ -> link_state li = returning_)
  /\ (forall l,
        last (links b) = Some l -> link_state l = returning_ ->
        Forall (fun l' => link_state l' = returning_) (links b)).
Proof.
  intros Hrun.
  assert (returning_first (links b)) as Hord.
  { apply (run_invariant (fun b0 => returning_first (links b0)))
      with (trace := trace) (b := initial); [| | |exact Hrun].
    - intros top m b0 r b1. apply action_returning_first.
    - intros b0 v H0. exact H0.
    - exact I. }
  split; [exact (returning_first_lookup _ Hord)|].
  intros l Hlast Hret. apply Forall_forall. intros l' Hin.
  apply list_elem_of_lookup in Hin as (i & Hi).
  rewrite last_lookup in Hlast.
  pose proof (lookup_lt_Some _ _ _ Hi) as Hlt.
  destruct (decide (i = pred (length (links b)))) as [->|Hne].
  - rewrite Hi in Hlast. injection Hlast as ->. exact Hret.
  - apply (returning_first_lookup _ Hord i (pred (length (links b))) l' l);
      [lia | assumption..].
Qed.

End Layout.

Lemma X18_returning_links_come_first_witness :
  exists b,
    run (fmt := Demo.fmt) Demo.trace_nested_returns initial = Ok b
    /\ Forall (fun l' => link_state l' = returning_) (links b).
Proof.
  assert (exists b l,
            run (fmt := Demo.fmt) Demo.trace_nested_returns initial = Ok b
            /\ last (links b) = Some l
            /\ link_state l = returning_) as (b & l & Hrun & Hlast & Hret).
  { eexists _, _. split; [vm_compute; reflexivity|].
    split; vm_compute; reflexivity. }
  exists b. split; [exact Hrun|].
  exact (proj2 (X18_returning_links_come_first (fmt := Demo.fmt)
                  Demo.trace_nested_returns b Hrun) l Hlast Hret).
Defined.

(** ** Exit steps through [action] *)

Section ExitSteps.
Context `{fmt : FormatOutput}.

(** A step that is not an entry is offered to the exit handler. *)
Lemma action_processed_exit s m b p b' :
  prevState b = Some p ->
  isSupportedFunctionCall s = false ->
  removeExitingFunction s m (set_state (Some s) (set_warning None b))
  = Ok (true, b') ->
  action (Some s) m b = Ok ((true, warning b'), b').
Proof.
  intros Hp Hsup Hrem. unfold action. simpl. rewrite Hp.
  unfold addEnteringFunction. rewrite Hsup. simpl. rewrite Hrem. reflexivity.
Qed.

Lemma exitNode_Some s e ei b :
  heap b !! e = Some ei ->
  exists d,
    exitNode s (Some e) b
    = Ok (set_rootNodeIndex (S (rootNodeIndex b))
            (set_nodes (e :: pop (nodes b))
               (set_heap (<[e := with_displayName d ei]> (heap b)) b))).
Proof.
  intros He. unfold exitNode. simpl.
  rewrite (lookup_info_Some _ _ _ He). simpl.
  rewrite (upd_info_Some _ _ _ _ He). simpl. eexists. reflexivity.
Qed.

(** The exit handler on a step that finds a link: the link is exited, the
    top of the scope chain is taken for the exiting node, and the lists are
    then cut down to the limit. *)
Lemma removeExitingFunction_linked s m b l b1 e ei :
  isSupportedReturnToCaller s = true ->
  isNotExitingRootNode s b = Ok true ->
  last (links b) = Some l ->
  exitLink s l b = Ok b1 ->
  last (scopeChain b1) = Some e ->
  heap b1 !! e = Some ei ->
  exists b' d,
    removeExitingFunction s m b = Ok (true, b')
    /\ heap b' = <[e := with_displayName d ei]> (heap b1)
    /\ warning b' = warning b1
    /\ linkIndex b' = linkIndex b1
    /\ links b'
       = (if decide (m < S (rootNodeIndex b1)) then
            if decide (1 < length (nodes b1))
            then splice m (S (rootNodeIndex b1) - m) (links b1)
            else links b1
          else links b1).
Proof.
  intros Hret Hnot Hlast Hexit He Hei.
  destruct (exitNode_Some s e ei (set_exitingNode (Some e) b1) Hei)
    as (d & Hnode).
  unfold removeExitingFunction. rewrite Hret, Hnot. simpl.
  rewrite Hlast. simpl. rewrite Hexit. simpl. rewrite He.
  simpl in Hnode. rewrite Hnode. simpl.
  eexists _, d. split; [reflexivity|].
  destruct (decide (m < S (rootNodeIndex b1))) as [Hlt|Hge]; simpl;
    [|repeat split; reflexivity].
  unfold removeOldestReturned. simpl.
  replace (S (rootNodeIndex b1) - (S (rootNodeIndex b1) - m)) with m by lia.
  destruct (decide (1 < S (length (pop (nodes b1))))) as [Hn|Hn];
    destruct (decide (1 < length (nodes b1))) as [Hn'|Hn']; simpl;
    try (repeat split; reflexivity);
    exfalso; rewrite length_pop in Hn; lia.
Qed.


(** Where the store is well formed, as it is after any trace, an exit step
    that finds a link can take the top of the scope chain for the exiting
    node. *)
Lemma reached_exit_node trace b l :
  run trace initial = Ok b ->
  last (links b) = Some l ->
  exists e ei ti,
    last (scopeChain b) = Some e /\ heap b !! e = Some ei
    /\ heap b !! target l = Some ti
    /\ source l < length (heap b)
    /\ source l <> target l.
Proof.
  intros Hrun Hlast.
  pose proof (run_refs_ok trace initial b refs_ok_initial Hrun) as Hok.
  destruct (run_creation_order trace b Hrun) as [Hchain _].
  destruct (refs_ok_last_link _ _ Hok Hlast) as [Hs Ht].
  assert (refs_ok b /\ links_distinct b) as [_ Hdist].
  { apply (run_invariant (fun b0 => refs_ok b0 /\ links_distinct b0))
      with (trace := trace) (b := initial); [| | |exact Hrun].
    - intros top m b0 r b1. apply action_joined.
    - intros b0 v H0. exact H0.
    - split; [exact refs_ok_initial | constructor]. }
  destruct (heap b !! target l) as [ti|] eqn:Hti;
    [|apply lookup_ge_None in Hti; lia].
  destruct (length (heap b)) as [|n] eqn:Hlen; [lia|].
  assert (last (scopeChain b) = Some n) as He
    by (rewrite Hchain, ?Hlen, last_seq; reflexivity).
  destruct (heap b !! n) as [ei|] eqn:Hei;
    [|apply lookup_ge_None in Hei; lia].
  exists n, ei, ti. repeat split; try assumption; try lia.
  unfold links_distinct in Hdist. rewrite Forall_forall in Hdist.
  apply Hdist. apply last_Some in Hlast as [ls ->].
  apply elem_of_app. right. constructor.
Qed.




Lemma lookup_insert_displayName (h : list NodeInfo) e ei d x xi :
  h !! e = Some ei -> h !! x = Some xi ->
  exists xi',
    <[e := with_displayName d ei]> h !! x = Some xi'
    /\ status xi' = status xi /\ errorCount xi' = errorCount xi.
Proof.
  intros He Hx. destruct (decide (x = e)) as [->|Hne].
  - exists (with_displayName d ei).
    split; [apply list_lookup_insert_eq; exact (lookup_lt_Some _ _ _ He)|].
    rewrite He in Hx. injection Hx as <-. split; reflexivity.
  - exists xi. rewrite list_lookup_insert_ne by congruence.
    split; [exact Hx|]. split; reflexivity.
Qed.

(** An exit step on which no usable value was produced and a link was
    found, on any builder reached by a trace: the step does to the two
    ends of the last link and to the root what [exitLink] does, reports
    the warning, and takes the link away without reversing it; the
    eviction of the same step may then cut the list further. *)
Lemma action_no_value_exit trace s m b p l v r :
  run trace initial = Ok b ->
  prevState b = Some p ->
  isSupportedFunctionCall s = false ->
  isSupportedReturnToCaller s = true ->
  isNotExitingRootNode s b = Ok true ->
  last (links b) = Some l ->
  value s = Some v -> isPrimitive v = true -> data v = None ->
  rootNode b = Some r ->
  exists b' ri ri' ti' si',
    action (Some s) m b = Ok ((true, Some noReturnWarning), b')
    /\ heap b !! r = Some ri
    /\ heap b' !! r = Some ri'
    /\ heap b' !! target l = Some ti'
    /\ heap b' !! source l = Some si'
    /\ status ti' = failure
    /\ errorCount ri' = S <$> errorCount ri
    /\ (source l <> r -> status si' = warning_)
    /\ (source l = r -> status ri' = empty_status)
    /\ linkIndex b' = linkIndex b
    /\ links b'
       = (if decide (m < S (rootNodeIndex b)) then
            if decide (1 < length (nodes b))
            then splice m (S (rootNodeIndex b) - m) (pop (links b))
            else pop (links b)
          else pop (links b)).
Proof.
  intros Hrun Hp Hsup Hret Hnot Hlast Hv Hprim Hdata Hroot.
  destruct (reached_exit_node trace b l Hrun Hlast)
    as (e & ei & ti & He & Hei & Hti & Hs & Hne).
  pose proof (run_refs_ok trace initial b refs_ok_initial Hrun)
    as (_ & _ & Hrok & _).
  destruct (heap b !! r) as [ri|] eqn:Hri;
    [|apply lookup_ge_None in Hri; specialize (Hrok r Hroot); lia].
  destruct (heap b !! source l) as [si|] eqn:Hsi;
    [|apply lookup_ge_None in Hsi; lia].
  pose proof Hlast as Hls. apply last_Some in Hls as [ls Hls].
  set (b0 := set_state (Some s) (set_warning None b)).
  destruct (exitLink_no_value s v l ls b0 r ri ti si Hv Hprim Hdata Hls
              Hroot Hri Hti Hsi ltac:(congruence))
    as (b1 & ri1 & ti1 & si1 & Hexit & Hri1 & Hti1 & Hsi1 & Hst & Hec
        & Hwarn & Hclear & Hw1 & Hl1 & Hidx1 & Hlen1 & Hn1 & Hsc1).
  destruct (exitLink_graph _ _ _ _ Hexit) as (_ & _ & _ & Hr1 & _).
  assert (exists ei1, heap b1 !! e = Some ei1) as (ei1 & Hei1).
  { apply lookup_lt_is_Some. rewrite Hlen1.
    exact (lookup_lt_Some _ _ _ Hei). }
  destruct (removeExitingFunction_linked s m b0 l b1 e ei1 Hret Hnot Hlast
              Hexit ltac:(rewrite Hsc1; exact He) Hei1)
    as (b' & d & Hrem & Hh & Hw & Hidx & Hlinks).
  pose proof (action_processed_exit s m b p b' Hp Hsup Hrem) as Hact.
  rewrite Hw, Hw1 in Hact.
  destruct (lookup_insert_displayName _ e ei1 d r ri1 Hei1 Hri1)
    as (ri' & Hri' & Hsr & Hcr).
  destruct (lookup_insert_displayName _ e ei1 d _ ti1 Hei1 Hti1)
    as (ti' & Hti' & Hstt & _).
  destruct (lookup_insert_displayName _ e ei1 d _ si1 Hei1 Hsi1)
    as (si' & Hsi' & Hss & _).
  rewrite <- Hh in Hri', Hti', Hsi'.
  exists b', ri, ri', ti', si'.
  split; [exact Hact|]. split; [reflexivity|].
  split; [exact Hri'|]. split; [exact Hti'|]. split; [exact Hsi'|].
  split; [congruence|]. split; [congruence|].
  split; [intros Hd; rewrite Hss; exact (Hwarn Hd)|].
  split; [intros Hd; rewrite Hsr; exact (Hclear Hd)|].
  split; [rewrite Hidx, Hidx1; reflexivity|].
  assert (pop (links b) = ls) as Hpop by (rewrite Hls; apply pop_snoc).
  rewrite Hr1, Hn1, Hl1 in Hlinks. simpl in Hlinks. rewrite Hpop.
  exact Hlinks.
Qed.

End ExitSteps.

(** ** Assignment steps through [action] *)

Lemma same_declared_refl h : same_declared h h.
Proof. intros i info Hi. exists info. split; [exact Hi | reflexivity]. Qed.

Lemma same_declared_insert h h1 id i i' :
  same_declared h h1 -> h1 !! id = Some i ->
  variablesDeclaredInScope i' = variablesDeclaredInScope i ->
  same_declared h (<[id := i']> h1).
Proof.
  intros Hsame Hi Heq j info Hj.
  destruct (Hsame j info Hj) as (info1 & Hj1 & Hd1).
  destruct (decide (j = id)) as [->|Hne].
  - rewrite Hi in Hj1. injection Hj1 as <-. exists i'.
    split; [apply list_lookup_insert_eq; exact (lookup_lt_Some _ _ _ Hi)|].
    congruence.
  - exists info1. split; [|exact Hd1].
    rewrite list_lookup_insert_ne by congruence. exact Hj1.
Qed.

Lemma declared_for_same b b' u x :
  same_declared (heap b) (heap b') ->
  declared_for b u x -> declared_for b' u x.
Proof.
  intros Hsame (ui & ri & Hui & Hri & Hin).
  destruct (Hsame u ui Hui) as (ui' & Hui' & Hdu).
  destruct (Hsame 0 ri Hri) as (ri' & Hri' & Hdr).
  exists ui', ri'. rewrite Hdu, Hdr. auto.
Qed.

Section AssignmentSteps.
Context `{fmt : FormatOutput}.

(** A completed assignment to a name that can be found, on a builder
    with no returned node pending: the update controller reaches the
    out-of-scope-mutation check, which compares the name with the
    suppression variable and leaves the name in it. *)
Lemma updateEnteringFunction_assignment s b u x :
  creation_order b -> rootNode b = Some 0 ->
  last (scopeChain b) = Some u -> exitingNode b = None ->
  assignment_state s x ->
  declared_for b u x ->
  exists w b',
    updateEnteringFunction s b
    = Ok (bool_decide (assignmentWarningVar b <> Some (Some x)), b')
    /\ warning b' = Some w
    /\ assignmentWarningVar b' = Some (Some x)
    /\ same_declared (heap b) (heap b').
Proof.
  intros [_ Hcallers] Hroot Hu Hexit ((Hty & Hl & Hr & Hname) & Hscope
    & Hfunc & Hcallee) (ui & ri & Hui & Hri & Hin).
  pose proof (lookup_lt_Some _ _ _ Hui) as Hlt.
  pose proof (lookup_lt_Some _ _ _ Hri) as Hlt0.
  unfold updateEnteringFunction, getVariablesInScope,
    updateParamsIdsFromCaller, isFunctionReturnUnassigned,
    isVariableModifiedOutOfScope, doesDisplayNameNeedUpdating.
  rewrite Hscope, Hfunc, Hcallee, Hty, Hl, Hr, Hname. simpl.
  rewrite Hu, Hexit. simpl.
  rewrite (lookup_info_Some u _ ui) by exact Hui. simpl.
  destruct (includes (variablesDeclaredInScope ui) (Some x)) eqn:Hlocal;
    simpl.
  - rewrite (upd_info_Some u _ _ ui) by exact Hui. simpl.
    exists immutabilityWarning. eexists.
    split;
      [destruct (bool_decide (assignmentWarningVar b <> Some (Some x)));
       simpl; reflexivity|].
    simpl. split; [reflexivity|]. split; [reflexivity|].
    eapply same_declared_insert;
      [apply same_declared_refl | exact Hui | reflexivity].
  - destruct Hin as [Hin|Hin]; [discriminate|].
    assert (u <> 0) as Hne by (intros ->; congruence).
    rewrite (scopeWalk_creation_order (heap b) (Some x) ri Hcallers Hri)
      by lia.
    rewrite Hin. simpl. rewrite Hroot. simpl.
    rewrite (upd_info_Some 0 _ _ ri) by exact Hri. simpl.
    rewrite (upd_info_Some u _ _ ui)
      by (simpl; rewrite list_lookup_insert_ne by congruence; exact Hui).
    simpl.
    rewrite (upd_info_Some 0 _ _ (incrErrorCount ri))
      by (simpl; rewrite list_lookup_insert_ne by congruence;
          apply list_lookup_insert_eq; exact Hlt0).
    simpl.
    exists mutatedWarning. eexists.
    split;
      [destruct (bool_decide (assignmentWarningVar b <> Some (Some x)));
       simpl; reflexivity|].
    simpl. split; [reflexivity|]. split; [reflexivity|].
    eapply same_declared_insert;
      [eapply same_declared_insert;
         [eapply same_declared_insert;
            [apply same_declared_refl | exact Hri | reflexivity]
         | rewrite list_lookup_insert_ne by congruence; exact Hui
         | reflexivity]
      | rewrite list_lookup_insert_ne by congruence;
        apply list_lookup_insert_eq; exact Hlt0
      | reflexivity].
Qed.

(** The same through [action], with what the step keeps for the next
    one. *)
Lemma action_assignment s m b u x :
  assignment_ready b u ->
  assignment_state s x ->
  declared_for b u x ->
  exists w b',
    action (Some s) m b
    = Ok ((bool_decide (assignmentWarningVar b <> Some (Some x)), Some w),
          b')
    /\ assignmentWarningVar b' = Some (Some x)
    /\ assignmentWarningVar (setPrevState b') = Some (Some x)
    /\ assignment_ready (setPrevState b') u
    /\ (forall y, declared_for b u y -> declared_for (setPrevState b') u y).
Proof.
  intros (Hco & Hroot & Hp & Hu & Hexit) Hs Hdecl.
  destruct (prevState b) as [p|] eqn:Hprev; [clear Hp|contradiction].
  pose proof Hs as ((Hty & _) & _).
  set (b0 := set_state (Some s) (set_warning None b)).
  destruct (updateEnteringFunction_assignment s b0 u x Hco Hroot Hu Hexit
              Hs Hdecl) as (w & b' & Hupd & Hw & Hvar & Hsame).
  destruct (updateEnteringFunction_frame _ _ _ _ Hupd)
    as (_ & _ & Hsc & Hrn & _ & _ & Hst & _ & Hex & Hstatic).
  exists w, b'. split.
  { rewrite (action_not_a_call s m b p Hprev) by (rewrite Hty; reflexivity).
    fold b0. rewrite Hupd. simpl. rewrite Hw. reflexivity. }
  split; [exact Hvar|].
  assert (setPrevState b' = set_prevState (Some s) b') as ->
    by (unfold setPrevState; rewrite Hst; reflexivity).
  split; [exact Hvar|]. split.
  - split; [|split; [|split; [|split]]]; simpl.
    + apply (creation_order_static b0 (set_prevState (Some s) b'));
        [exact Hsc | exact Hstatic | exact Hco].
    + rewrite Hrn. exact Hroot.
    + discriminate.
    + rewrite Hsc. exact Hu.
    + destruct (exitingNode b') as [e|] eqn:He; [|reflexivity].
      specialize (Hex e eq_refl). simpl in Hex. congruence.
  - intros y Hy. exact (declared_for_same b0 _ u y Hsame Hy).
Qed.


(** An assignment step that finds a returned node pending: the
    unassigned-return check fires and the out-of-scope-mutation check is
    not run. *)
Lemma action_assignment_pending trace s m b p e r x :
  run trace initial = Ok b ->
  prevState b = Some p ->
  exitingNode b = Some (S e) ->
  rootNode b = Some r ->
  assignment_state s x ->
  exists b',
    action (Some s) m b = Ok ((true, Some unassignedWarning), b')
    /\ assignmentWarningVar b' = assignmentWarningVar b
    /\ exitingNode b' = None.
Proof.
  intros Hrun Hp Hexit Hroot ((Hty & _) & Hscope & Hfunc & _).
  pose proof (run_refs_ok trace initial b refs_ok_initial Hrun)
    as (_ & _ & Hrok & Heok & _).
  destruct (run_creation_order trace b Hrun) as [Hchain Hcallers].
  specialize (Hrok r Hroot). specialize (Heok (S e) Hexit).
  destruct (heap b !! S e) as [ei|] eqn:Hei;
    [|apply lookup_ge_None in Hei; lia].
  destruct (heap b !! e) as [ci|] eqn:Hci;
    [|apply lookup_ge_None in Hci; lia].
  pose proof (Hcallers (S e) ei Hei) as Hcaller. simpl in Hcaller.
  assert (exists u, last (scopeChain b) = Some u) as (u & Hu).
  { rewrite Hchain. destruct (length (heap b)) as [|n]; [lia|].
    exists n. rewrite last_seq. reflexivity. }
  rewrite (action_not_a_call s m b p Hp) by (rewrite Hty; reflexivity).
  unfold updateEnteringFunction, getVariablesInScope,
    updateParamsIdsFromCaller, isFunctionReturnUnassigned.
  rewrite Hscope, Hfunc. simpl. rewrite Hu, Hexit. simpl.
  rewrite Hty. simpl.
  rewrite (lookup_info_Some (S e) _ ei) by exact Hei. simpl.
  rewrite Hcaller. simpl.
  rewrite (upd_info_Some e _ _ ci) by exact Hci. simpl.
  rewrite Hroot. simpl.
  destruct (<[e := with_status warning_ ci]> (heap b) !! r) as [ri|] eqn:Hri;
    [|apply lookup_ge_None in Hri; rewrite length_insert in Hri; lia].
  rewrite (upd_info_Some r _ _ ri) by exact Hri. simpl.
  eexists. split; [reflexivity|]. split; reflexivity.
Qed.

(** C7 (as amended): the suppression of repeated assignment warnings, at
    the level of steps.  On a completed assignment to a name declared in
    the current frame or in the root, reached with no returned node
    pending, [action] returns a warning and the flag of the
    out-of-scope-mutation check: [true] exactly when the name differs
    from the suppression variable; the variable then holds the name,
    whatever the flag.  So of three such steps in a row, to [x], to [x]
    and to another name [y], the second reports [false] and the third
    [true].  When a returned node is pending the unassigned-return check
    fires instead: the flag is [true] and the suppression variable is left
    as it was.  A processed exit resets the variable to [null]. *)
Theorem C7_step_deduplication s1 s2 s3 m b u x y :
  (assignment_ready b u ->
   assignment_state s1 x -> assignment_state s2 x -> assignment_state s3 y ->
   x <> y ->
   declared_for b u x -> declared_for b u y ->
   exists w1 b1 w2 b2 w3 b3,
     action (Some s1) m b
     = Ok ((bool_decide (assignmentWarningVar b <> Some (Some x)), Some w1),
           b1)
     /\ assignmentWarningVar b1 = Some (Some x)
     /\ action (Some s2) m (setPrevState b1) = Ok ((false, Some w2), b2)
     /\ assignmentWarningVar b2 = Some (Some x)
     /\ action (Some s3) m (setPrevState b2) = Ok ((true, Some w3), b3)
     /\ assignmentWarningVar b3 = Some (Some y))
  /\ (forall trace p e r,
        run trace initial = Ok b ->
        prevState b = Some p ->
        exitingNode b = Some (S e) ->
        rootNode b = Some r ->
        assignment_state s1 x ->
        exists b1,
          action (Some s1) m b = Ok ((true, Some unassignedWarning), b1)
          /\ assignmentWarningVar b1 = assignmentWarningVar b)
  /\ (forall se b0 b1,
        removeExitingFunction se m b0 = Ok (true, b1) ->
        assignmentWarningVar b1 = None).
Proof.
  split; [|split].
  - intros Hready Hs1 Hs2 Hs3 Hxy Hx Hy.
    destruct (action_assignment s1 m b u x Hready Hs1 Hx)
      as (w1 & b1 & Hact1 & Hvar1 & Hvar1' & Hready1 & Hkeep1).
    destruct (action_assignment s2 m (setPrevState b1) u x Hready1 Hs2
                (Hkeep1 x Hx))
      as (w2 & b2 & Hact2 & Hvar2 & Hvar2' & Hready2 & Hkeep2).
    destruct (action_assignment s3 m (setPrevState b2) u y Hready2 Hs3
                (Hkeep2 y (Hkeep1 y Hy)))
      as (w3 & b3 & Hact3 & Hvar3 & _).
    exists w1, b1, w2, b2, w3, b3.
    split; [exact Hact1|]. split; [exact Hvar1|].
    split.
    { rewrite Hact2, Hvar1'. rewrite bool_decide_eq_false_2; [reflexivity|].
      intros Hne. apply Hne. reflexivity. }
    split; [exact Hvar2|].
    split; [|exact Hvar3].
    rewrite Hact3, Hvar2'. rewrite bool_decide_eq_true_2; [reflexivity|].
    congruence.
  - intros trace p e r Hrun Hp Hexit Hroot Hs1.
    destruct (action_assignment_pending trace s1 m b p e r x Hrun Hp Hexit
                Hroot Hs1) as (b1 & Hact & Hvar & _).
    exists b1. split; assumption.
  - intros se b0 b1.
    apply removeExitingFunction_resets_suppression.
Qed.

End AssignmentSteps.

(** ** The exit and assignment steps on concrete traces *)



(** After [a] has returned 1, the step on the assignment to [x] finds the
    node of [a] pending: the unassigned-return check fires and the
    suppression variable stays [null], so the next assignment to [x], the
    second in a row, reports [true] again. *)
Lemma C7_pending_return_skips_check :
  exists b b1 b2,
    run (fmt := Demo.fmt) Demo.trace_a_returned initial = Ok b
    /\ action (fmt := Demo.fmt) (Some (Demo.assigned "x")) 1 b
       = Ok ((true, Some unassignedWarning), b1)
    /\ assignmentWarningVar b1 = None
    /\ action (fmt := Demo.fmt) (Some (Demo.assigned "x")) 1
         (setPrevState b1)
       = Ok ((true, Some immutabilityWarning), b2).
Proof.
  eexists _, _, _. split; [vm_compute; reflexivity|].
  split; [vm_compute; reflexivity|].
  split; [reflexivity|]. vm_compute. reflexivity.
Qed.

Lemma C7_step_deduplication_witness :
  exists b w1 b1 w2 b2 w3 b3,
    run (fmt := Demo.fmt) Steps.trace_in_a_scoped initial = Ok b
    /\ action (fmt := Demo.fmt) (Some (Demo.assigned "x")) 1 b
       = Ok ((true, Some w1), b1)
    /\ action (fmt := Demo.fmt) (Some (Demo.assigned "x")) 1
         (setPrevState b1) = Ok ((false, Some w2), b2)
    /\ action (fmt := Demo.fmt) (Some (Demo.assigned "t")) 1
         (setPrevState b2) = Ok ((true, Some w3), b3).
Proof.
  assert (exists b,
            run (fmt := Demo.fmt) Steps.trace_in_a_scoped initial = Ok b)
    as (b & Hrun) by (eexists; vm_compute; reflexivity).
  assert (assignment_ready b 1
          /\ declared_for b 1 "x" /\ declared_for b 1 "t"
          /\ assignmentWarningVar b = None) as (Hready & Hx & Ht & Hvar).
  { pose proof (run_creation_order (fmt := Demo.fmt) _ _ Hrun) as Hco.
    vm_compute in Hrun. injection Hrun as <-.
    split.
    { split; [exact Hco|]. split; [reflexivity|]. split; [discriminate|].
      split; reflexivity. }
    split; [eexists _, _; split; [reflexivity|]; split; [reflexivity|];
            right; reflexivity|].
    split; [eexists _, _; split; [reflexivity|]; split; [reflexivity|];
            left; reflexivity|].
    reflexivity. }
  assert (forall z, assignment_state (Demo.assigned z) z) as Hstate
    by (intros z; repeat split).
  destruct (proj1 (C7_step_deduplication (fmt := Demo.fmt)
                     (Demo.assigned "x") (Demo.assigned "x")
                     (Demo.assigned "t") 1 b 1 "x" "t")
              Hready (Hstate "x") (Hstate "x") (Hstate "t")
              ltac:(discriminate) Hx Ht)
    as (w1 & b1 & w2 & b2 & w3 & b3 & H1 & _ & H2 & _ & H3 & _).
  exists b, w1, b1, w2, b2, w3, b3.
  split; [exact Hrun|]. split; [|split; [exact H2 | exact H3]].
  rewrite H1, Hvar. reflexivity.
Defined.

(** C2: the count relation on concrete balanced traces.  After
    [root() -> a()] with [a] returning 1 it holds: one node is retained
    and one link is left.  After the same trace with [a] returning nothing
    the scope chain is not empty, and there are two nodes and no link:
    the exit took the link away and kept the node.  The eviction, which
    cuts the same positions out of both lists, then takes the wrong link:
    with [root() -> a() -> b()], no returned node retained and [b]
    returning nothing, the relation holds before the exit of [b], and
    after it the node of the open call [a] is in the list and the calling
    link [root -> a] is not. *)
Theorem C2_no_value_exit_breaks_count_relation :
  (exists b,
     balanced false None Demo.trace_a_returned = true
     /\ run (fmt := Demo.fmt) Demo.trace_a_returned initial = Ok b
     /\ length (nodes b) = 2 /\ length (links b) = 1
     /\ count_relation b)
  /\ (exists b,
        balanced false None Demo.trace_a_no_value = true
        /\ run (fmt := Demo.fmt) Demo.trace_a_no_value initial = Ok b
        /\ scopeChain b <> []
        /\ length (nodes b) = 2 /\ length (links b) = 0
        /\ ~ count_relation b)
  /\ (exists b0 b,
        balanced false None (Returns.b_returns_nothing 0) = true
        /\ run (fmt := Demo.fmt) (take 4 (Returns.b_returns_nothing 0)) initial
           = Ok b0
        /\ count_relation b0
        /\ run (fmt := Demo.fmt) (Returns.b_returns_nothing 0) initial = Ok b
        /\ nodes b = [0; 1] /\ links b = []
        /\ ~ count_relation b).
Proof.
  split; [|split].
  - eexists. split; [reflexivity|]. split; [vm_compute; reflexivity|].
    split; [reflexivity|]. split; reflexivity.
  - eexists. split; [reflexivity|]. split; [vm_compute; reflexivity|].
    split; [discriminate|]. split; [reflexivity|]. split; [reflexivity|].
    unfold count_relation. simpl. lia.
  - eexists _, _. split; [reflexivity|].
    split; [vm_compute; reflexivity|]. split; [reflexivity|].
    split; [vm_compute; reflexivity|].
    split; [reflexivity|]. split; [reflexivity|].
    unfold count_relation. simpl. lia.
Qed.

(** C4: an exit without a value that marks nothing.  With
    [root() -> a() -> b()] and no returned node retained, [b] returns
    nothing; its exit is marked, and the eviction that follows takes the
    calling link of [a] with it.  When [a] then returns nothing, the exit
    handler finds no link: [action] reports an update with no warning, the
    node of [a] is not marked [failure], the error count of the root
    stays at 1 and no node changes.  With one returned node retained the
    link of [a] is still there and the same exit is marked. *)
Theorem C4_no_value_exit_left_unmarked :
  (exists b b',
     balanced false None
       (Returns.b_returns_nothing 0 ++ [(Some Returns.exit_a_no_value, 0)])
     = true
     /\ run (fmt := Demo.fmt) (Returns.b_returns_nothing 0) initial = Ok b
     /\ isSupportedReturnToCaller Returns.exit_a_no_value = true
     /\ returnsValue Returns.exit_a_no_value Demo.undefined = false
     /\ nodes b = [0; 1] /\ links b = []
     /\ action (fmt := Demo.fmt) (Some Returns.exit_a_no_value) 0 b
        = Ok ((true, None), b')
     /\ heap b' = heap b
     /\ (name <$> heap b' !! 1) = Some "a"%string
     /\ (status <$> heap b' !! 1) = Some warning_
     /\ (errorCount <$> heap b' !! 0) = Some (Some 1))
  /\ (exists b b',
        run (fmt := Demo.fmt)
          (Returns.b_returns_nothing 1) initial = Ok b
        /\ action (fmt := Demo.fmt) (Some Returns.exit_a_no_value) 1 b
           = Ok ((true, Some noReturnWarning), b')
        /\ (status <$> heap b' !! 1) = Some failure
        /\ (errorCount <$> heap b' !! 0) = Some (Some 2)).
Proof.
  split.
  - eexists _, _. split; [vm_compute; reflexivity|].
    split; [vm_compute; reflexivity|].
    split; [reflexivity|]. split; [reflexivity|]. split; [reflexivity|].
    split; [reflexivity|]. split; [vm_compute; reflexivity|].
    split; [reflexivity|]. split; [reflexivity|]. split; reflexivity.
  - eexists _, _. split; [vm_compute; reflexivity|].
    split; [vm_compute; reflexivity|]. split; reflexivity.
Qed.
